(** * poc_rag_builder: the chunking pipeline and the retrieval aggregator

    A shallow embedding of the algorithmic parts of the repository
    (src/bckup/ingest_components.py, src/bckup/latest/ingest_components.py,
    src/query_cli.py, src/bckup/query_cli.py) and the properties the
    specification states about them.

    Conventions of the embedding.
    - A Python [str] is a [list ascii]: the text restricted to the code
      points below 256.  [str "..."] turns a literal into such a list.
    - A Python [int] is a [Z]; lengths and indices convert explicitly.
    - A [while] loop is a [Fixpoint] over a fuel counter that returns
      [None] when the fuel runs out; "the loop returns" means "some fuel
      gives [Some]", "the loop never returns" means "every fuel gives
      [None]".
    - A raised exception is the [Raise] constructor of [result]. *)

From Stdlib Require Import ZArith List Ascii String Bool Lia QArith Sorted.
From Stdlib Require Import DecimalString.
From Stdlib Require DecimalZ DecimalPos.
From Stdlib Require Import Permutation.
From stdpp Require Import gmap strings.
Import ListNotations.
Local Open Scope Z_scope.

(* ===================================================================== *)
(** * Part I.  Python primitives                                          *)
(* ===================================================================== *)

Abbreviation pystr := (list ascii).

Definition str (s : string) : pystr := list_ascii_of_string s.

Definition py_len {A : Type} (l : list A) : Z := Z.of_nat (length l).

(** [str.isspace] on one character, for the code points below 256:
    TAB..CR, FS..US, SPACE, NEL and NBSP.  The [\s] class of [re] on [str]
    patterns is the same set. *)
Definition isspace (c : ascii) : bool :=
  let n := N_of_ascii c in
  ((9 <=? n)%N && (n <=? 13)%N) || ((28 <=? n)%N && (n <=? 32)%N)
  || (n =? 133)%N || (n =? 160)%N.

Fixpoint lstrip (s : pystr) : pystr :=
  match s with
  | c :: s' => if isspace c then lstrip s' else s
  | [] => []
  end.

Definition rstrip (s : pystr) : pystr := rev (lstrip (rev s)).

(** [s.strip()] *)
Definition strip (s : pystr) : pystr := rstrip (lstrip s).

(** How a slice bound is clamped: a negative bound counts from the end. *)
Definition slice_bound (i L : Z) : Z :=
  if i <? 0 then Z.max 0 (i + L) else Z.min i L.

(** [l[a:b]] *)
Definition py_slice {A : Type} (l : list A) (a b : Z) : list A :=
  let L := py_len l in
  let a' := slice_bound a L in
  let b' := slice_bound b L in
  firstn (Z.to_nat (b' - a')) (skipn (Z.to_nat a') l).

(** [l[:n]] *)
Definition py_take {A : Type} (l : list A) (n : Z) : list A := py_slice l 0 n.

(** Python truthiness of a string or a list: non-empty. *)
Definition truthy {A : Type} (l : list A) : bool :=
  match l with [] => false | _ => true end.

(* ===================================================================== *)
(** * Part II.  The character-window chunker
      (src/bckup/ingest_components.py, [ComponentIngestor.chunk_text])    *)
(* ===================================================================== *)

(** The [while start < L] loop.  [chunks] is the list built so far. *)
Fixpoint chunk_loop (fuel : nat) (text : pystr) (max_chars overlap : Z)
    (start : Z) (chunks : list pystr) : option (list pystr) :=
  match fuel with
  | O => None
  | S fuel' =>
      let L := py_len text in
      if start <? L then
        let end_ := Z.min L (start + max_chars) in
        let chunks := chunks ++ [strip (py_slice text start end_)] in
        let start := end_ - overlap in
        let start := if start <? 0 then 0 else start in
        chunk_loop fuel' text max_chars overlap start chunks
      else Some chunks
  end.

Definition chunk_text (fuel : nat) (text : pystr) (max_chars overlap : Z)
    : option (list pystr) :=
  let text := strip text in
  if negb (truthy text) then Some []
  else chunk_loop fuel text max_chars overlap 0 [].

(** The windows [(start, end)] the loop visits from [start] on, as a
    relation: the loop's own recurrence, with the exit test as base case. *)
Inductive windows (L max_chars overlap : Z) : Z -> list (Z * Z) -> Prop :=
| windows_exit start :
    L <= start -> windows L max_chars overlap start []
| windows_next start rest :
    start < L ->
    windows L max_chars overlap
      (Z.max 0 (Z.min L (start + max_chars) - overlap)) rest ->
    windows L max_chars overlap start
      ((start, Z.min L (start + max_chars)) :: rest).

(** The span [(a, b)] of [text], and the fragment the chunker makes of it. *)
Definition span_of (text : pystr) (sp : Z * Z) : pystr :=
  py_slice text (fst sp) (snd sp).

Definition fragment_of (text : pystr) (sp : Z * Z) : pystr :=
  strip (span_of text sp).

(** Spans that cover [0, L) without a gap: each span starts no later than
    the point [from] reached so far, is non-empty, stays inside the text,
    and the last one ends at [L]. *)
Fixpoint gapless (from L : Z) (spans : list (Z * Z)) : Prop :=
  match spans with
  | [] => L <= from
  | (a, b) :: rest => 0 <= a <= from /\ a < b <= L /\ gapless b L rest
  end.

(** The claim as the specification words it: the fragments are the trimmed
    spans of [t] itself, one span per fragment, and the spans put end to
    end give [t] back. *)
Definition reconstructs (t : pystr) (frags : list pystr) : Prop :=
  exists spans : list (Z * Z),
    frags = map (fragment_of t) spans /\ concat (map (span_of t) spans) = t.

(* ===================================================================== *)
(** * Part III.  Exceptions                                               *)
(* ===================================================================== *)

(** The exceptions the modelled code can raise. *)
Inductive exn : Type :=
| IndexError
| TypeError
| AttributeError
| KeyError
| ValueError
| FileNotFoundError
| OSError.

Inductive result (A : Type) : Type :=
| Ok (a : A)
| Raise (e : exn).

Arguments Ok {A} a.
Arguments Raise {A} e.

Definition bind {A B : Type} (r : result A) (f : A -> result B) : result B :=
  match r with
  | Ok a => f a
  | Raise e => Raise e
  end.

Notation "x <- r ;; k" := (bind r (fun x => k))
  (at level 100, r at next level, right associativity).

(** A [for] loop that builds a list and stops at the first exception. *)
Fixpoint for_each {A B : Type} (f : A -> result B) (l : list A)
    : result (list B) :=
  match l with
  | [] => Ok []
  | a :: l' => b <- f a ;; bs <- for_each f l' ;; Ok (b :: bs)
  end.

(* ===================================================================== *)
(** * Part IV.  The retrieval aggregator
      (src/query_cli.py [ComponentQueryer.query_components], lines 83-102;
       src/bckup/query_cli.py [query], lines 39-55: the same code)        *)
(* ===================================================================== *)

Fixpoint str_eqb (a b : pystr) : bool :=
  match a, b with
  | [], [] => true
  | x :: a', y :: b' => Ascii.eqb x y && str_eqb a' b'
  | _, _ => false
  end.

(** A hit.  The score is a Python float; the aggregator only negates and
    compares scores, so it is modelled as a rational: the finite floats
    with their order.  NaN, which no order relation holds for, is outside
    the model. *)
Record hit : Type := Hit {
  component_id : pystr;
  component_name : pystr;
  file : pystr;
  chunk_id : pystr;
  text : pystr;
  score : Q
}.

(** An aggregated result. *)
Record row : Type := Row {
  row_component_id : pystr;
  row_component_name : pystr;
  row_file : pystr;
  best_score : Q;
  top_chunks : list hit
}.

(** [sorted(l, key=key)] and [l.sort(key=key)]: a stable sort, ascending
    in the key.  On totally ordered keys a stable sort has one result, so
    insertion stands for Python's merge sort. *)
Fixpoint insert_by {A : Type} (key : A -> Q) (x : A) (l : list A) : list A :=
  match l with
  | [] => [x]
  | y :: l' =>
      if Qle_bool (key x) (key y) then x :: y :: l'
      else y :: insert_by key x l'
  end.

Definition py_sorted {A : Type} (key : A -> Q) (l : list A) : list A :=
  fold_right (insert_by key) [] l.

(** [grouped.setdefault(cid, []).append(h)] on an insertion-ordered dict,
    kept as an association list in insertion order. *)
Fixpoint setdefault_append (cid : pystr) (h : hit)
    (grouped : list (pystr * list hit)) : list (pystr * list hit) :=
  match grouped with
  | [] => [(cid, [h])]
  | (k, hs) :: rest =>
      if str_eqb k cid then (k, hs ++ [h]) :: rest
      else (k, hs) :: setdefault_append cid h rest
  end.

Definition group_hits (hits : list hit) : list (pystr * list hit) :=
  fold_left (fun grouped h => setdefault_append (component_id h) h grouped)
    hits [].

(** The body of [for cid, hs in grouped.items()]; [hs_sorted[0]] raises
    [IndexError] on an empty list. *)
Definition make_row (per_component : Z) (entry : pystr * list hit)
    : result row :=
  let (cid, hs) := entry in
  let hs_sorted := py_sorted (fun x => - score x)%Q hs in
  match hs_sorted with
  | [] => Raise IndexError
  | h0 :: _ =>
      Ok {| row_component_id := cid;
            row_component_name := component_name h0;
            row_file := file h0;
            best_score := score h0;
            top_chunks := py_take hs_sorted per_component |}
  end.

(** From the hits to the returned list. *)
Definition aggregate (hits : list hit) (per_component : Z)
    : result (list row) :=
  results <- for_each (make_row per_component) (group_hits hits) ;;
  Ok (py_sorted (fun x => - best_score x)%Q results).

(** The filter of src/bckup/query_cli.py: a negative index is the vector
    store's "no match"; [chunks[idx]] raises [IndexError] past the end. *)
Definition collect_hits (chunks : list hit) (found : list (Q * Z))
    : result (list hit) :=
  for_each
    (fun m =>
       match nth_error chunks (Z.to_nat (snd m)) with
       | Some meta =>
           Ok {| component_id := component_id meta;
                 component_name := component_name meta;
                 file := file meta;
                 chunk_id := chunk_id meta;
                 text := text meta;
                 score := fst m |}
       | None => Raise IndexError
       end)
    (List.filter (fun m => negb (snd m <? 0)) found).

(** ** Specification vocabulary for the aggregator *)

(** The hits of one component, in arrival order. *)
Definition hits_of (cid : pystr) (hits : list hit) : list hit :=
  List.filter (fun h => str_eqb (component_id h) cid) hits.

(** The component ids in the order their first hit arrives. *)
Fixpoint discovery_order (hits : list hit) (seen : list pystr) : list pystr :=
  match hits with
  | [] => []
  | h :: rest =>
      if existsb (str_eqb (component_id h)) seen then
        discovery_order rest seen
      else component_id h :: discovery_order rest (seen ++ [component_id h])
  end.

(** Descending in [f]: every element is at least every later one. *)
Definition descending {A : Type} (f : A -> Q) (l : list A) : Prop :=
  StronglySorted (fun a b => (f b <= f a)%Q) l.

(** [out] keeps the elements of [l] that tie on [f] in the order of [l]. *)
Definition ties_in_order_of {A : Type} (f : A -> Q) (l out : list A) : Prop :=
  forall q : Q,
    List.filter (fun a => Qeq_bool (f a) q) out
    = List.filter (fun a => Qeq_bool (f a) q) l.

(** ** Proof vocabulary for the grouping loop *)

(** What [setdefault_append] does to one entry of a dict that has the key. *)
Definition append_at (cid : pystr) (h : hit) (e : pystr * list hit)
    : pystr * list hit :=
  if str_eqb (fst e) cid then (fst e, snd e ++ [h]) else e.

(** One round of the grouping loop, the entries of a dict after more hits
    arrived, and the entries made for components not seen before. *)
Definition group_step (grouped : list (pystr * list hit)) (h : hit)
    : list (pystr * list hit) :=
  setdefault_append (component_id h) h grouped.

Definition extend_groups (g : list (pystr * list hit)) (hits : list hit)
    : list (pystr * list hit) :=
  map (fun e => (fst e, snd e ++ hits_of (fst e) hits)) g.

Definition fresh_groups (cids : list pystr) (hits : list hit)
    : list (pystr * list hit) :=
  map (fun cid => (cid, hits_of cid hits)) cids.

(** What the aggregator makes of the hits of one component: the row's
    chunks are the first [per_component] of that component's hits in
    descending score (ties in arrival order), and the row's name, file
    and best score are those of the first of them, a highest-scoring hit. *)
Definition row_of_group (hits : list hit) (per_component : Z) (r : row)
    : Prop :=
  exists (h0 : hit) (others : list hit),
    Permutation (h0 :: others) (hits_of (row_component_id r) hits) /\
    descending score (h0 :: others) /\
    ties_in_order_of score (hits_of (row_component_id r) hits)
      (h0 :: others) /\
    best_score r = score h0 /\
    row_component_name r = component_name h0 /\
    row_file r = file h0 /\
    (forall h, In h (hits_of (row_component_id r) hits) ->
               (score h <= best_score r)%Q) /\
    top_chunks r = firstn (Z.to_nat per_component) (h0 :: others).

Definition pystr_eq_dec : forall a b : pystr, {a = b} + {a <> b} :=
  List.list_eq_dec ascii_dec.

(** The hits of the specification's aggregation example. *)
Definition hit_A1 : hit :=
  Hit (str "A") (str "Alpha") (str "src/Alpha.tsx") (str "A_basic")
      (str "Component: Alpha") (9 # 10).
Definition hit_B1 : hit :=
  Hit (str "B") (str "Beta") (str "src/Beta.tsx") (str "B_basic")
      (str "Component: Beta") (5 # 10).
Definition hit_A2 : hit :=
  Hit (str "A") (str "Alpha") (str "src/Alpha.tsx") (str "A_props")
      (str "Alpha component props:") (7 # 10).
Definition example_hits : list hit := [hit_A1; hit_B1; hit_A2].
Definition example_rows : list row :=
  [ Row (str "A") (str "Alpha") (str "src/Alpha.tsx") (9 # 10) [hit_A1];
    Row (str "B") (str "Beta") (str "src/Beta.tsx") (5 # 10) [hit_B1] ].

(* ===================================================================== *)
(** * Part V.  Parsed JSON values                                         *)
(* ===================================================================== *)

(** What [json.load] and [ijson.items] hand to the code.  An object is an
    insertion-ordered dict with string keys, kept as an association list.
    [PFloat] is a number that is not an integer: a [float] from [json.load],
    a [decimal.Decimal] from [ijson]. *)
Unset Elimination Schemes.
Inductive pyval : Type :=
| PNone
| PBool (b : bool)
| PInt (n : Z)
| PFloat (q : Q)
| PStr (s : pystr)
| PList (items : list pyval)
| PDict (members : list (pystr * pyval)).
Set Elimination Schemes.

(** [str(n)] for an integer. *)
Definition str_of_int (n : Z) : pystr :=
  str (NilZero.string_of_int (Z.to_int n)).

(** The length of [json.dumps(s)] for a string ([ensure_ascii=True]): the
    two quotes, one character for a printable ASCII character, two for an
    escaped quote, backslash, BS, TAB, LF, FF and CR, six ([\uXXXX]) for
    every other character. *)
Definition json_char_len (c : ascii) : Z :=
  let n := N_of_ascii c in
  if ((n =? 34) || (n =? 92) || (n =? 8) || (n =? 9) || (n =? 10)
      || (n =? 12) || (n =? 13))%N then 2
  else if ((32 <=? n) && (n <=? 126))%N then 1
  else 6.

Definition json_str_len (s : pystr) : Z :=
  2 + fold_right (fun c acc => json_char_len c + acc) 0 s.

Definition total (sizes : list Z) : Z := fold_right Z.add 0 sizes.

(** The length of items joined by a separator of length [sep]. *)
Fixpoint joined_len (sep : Z) (sizes : list Z) : Z :=
  match sizes with
  | [] => 0
  | n :: rest =>
      match rest with
      | [] => n
      | _ => n + sep + joined_len sep rest
      end
  end.

(** The length of [json.dumps(v, separators=(item_sep, key_sep))] where the
    separators have lengths [isep] and [ksep], for a value [json] accepts. *)
Fixpoint dumps_len (isep ksep : Z) (v : pyval) : Z :=
  match v with
  | PNone => 4
  | PBool true => 4
  | PBool false => 5
  | PInt n => py_len (str_of_int n)
  | PFloat _ => 0
  | PStr s => json_str_len s
  | PList items => 2 + joined_len isep (map (dumps_len isep ksep) items)
  | PDict members =>
      2 + joined_len isep
            (map (fun kv => let '(k, x) := kv in
                            json_str_len k + ksep + dumps_len isep ksep x)
                 members)
  end.

(** What [json.dumps] accepts among the values [ijson] yields: everything
    but a [Decimal], at any depth. *)
Fixpoint serializable (v : pyval) : bool :=
  match v with
  | PFloat _ => false
  | PList items => forallb serializable items
  | PDict members => forallb (fun kv => let '(_, x) := kv in serializable x)
                       members
  | _ => true
  end.

(** [len(json.dumps(v, separators=...).encode('utf-8'))]: the output is
    ASCII, so bytes and characters agree; a [Decimal] raises [TypeError]. *)
Definition json_dumps_len (isep ksep : Z) (v : pyval) : result Z :=
  if serializable v then Ok (dumps_len isep ksep v) else Raise TypeError.

(* ===================================================================== *)
(** * Part VI.  The size-bounded partitioner
      (src/bckup/ingest_components.py, [split_file_by_size])              *)
(* ===================================================================== *)

(** One written file [component_docs_part_<n>.json]: its number and the
    documents dumped into it. *)
Definition partition : Type := (Z * list pyval)%type.

(** The [for doc in docs] loop and the final flush.  [written] lists the
    files written so far; the loop returns it with [None] on completion and
    with the exception when [json.dumps(doc)] raises. *)
Fixpoint split_loop (max_size_bytes : Z) (docs : list pyval)
    (part_num : Z) (current_batch : list pyval) (current_size : Z)
    (written : list partition) : list partition * option exn :=
  match docs with
  | [] =>
      if truthy current_batch
      then (written ++ [(part_num, current_batch)], None)
      else (written, None)
  | doc :: rest =>
      match json_dumps_len 2 2 doc with
      | Raise e => (written, Some e)
      | Ok doc_size =>
          if (max_size_bytes <? current_size + doc_size) && truthy current_batch
          then
            split_loop max_size_bytes rest (part_num + 1)
              ([] ++ [doc]) (0 + doc_size)
              (written ++ [(part_num, current_batch)])
          else
            split_loop max_size_bytes rest part_num
              (current_batch ++ [doc]) (current_size + doc_size) written
      end
  end.

Definition split_file_by_size (docs : list pyval) (max_size_mb : Z)
    : list partition * option exn :=
  let max_size_bytes := max_size_mb * 1024 * 1024 in
  split_loop max_size_bytes docs 1 [] 0 [].

(** The size the partitioner accounts for a batch: the sum of
    [len(json.dumps(doc))] over its documents (default separators). *)
Definition accounted_size (batch : list pyval) : Z :=
  total (map (dumps_len 2 2) batch).

(** The size of the file written for a batch:
    [json.dump(batch, f, separators=(',', ':'))]. *)
Definition file_size (batch : list pyval) : Z := dumps_len 1 1 (PList batch).




(** Two small documents, for examples. *)
Definition doc_c1 : pyval :=
  PDict [(str "id", PStr (str "c1")); (str "name", PStr (str "Button"))].
Definition doc_c2 : pyval :=
  PDict [(str "id", PStr (str "c2")); (str "name", PStr (str "Card"))].

(* ===================================================================== *)
(** * Part VII.  Regular expressions ([re.sub], [re.split])               *)
(* ===================================================================== *)

(** The patterns of the repository repeat single characters only, so the
    syntax has a character class, sequence, a greedy optional group, and
    the greedy and lazy repetitions of a class. *)
Inductive regex : Type :=
| RClass (p : ascii -> bool)
| RSeq (r1 r2 : regex)
| ROpt (r : regex)
| RPlus (p : ascii -> bool)
| RStar (p : ascii -> bool)
| RStarLazy (p : ascii -> bool).

(** [p*] then [k], longest repetition first. *)
Fixpoint greedy (p : ascii -> bool) (k : pystr -> option pystr) (s : pystr)
    : option pystr :=
  match s with
  | c :: s' =>
      if p c then
        match greedy p k s' with
        | Some rest => Some rest
        | None => k s
        end
      else k s
  | [] => k s
  end.

(** [p*?] then [k], shortest repetition first. *)
Fixpoint lazy (p : ascii -> bool) (k : pystr -> option pystr) (s : pystr)
    : option pystr :=
  match k s with
  | Some rest => Some rest
  | None =>
      match s with
      | c :: s' => if p c then lazy p k s' else None
      | [] => None
      end
  end.

(** The backtracking matcher: [rmatch r k s] matches [r] at the head of [s]
    and hands what is left to the continuation [k]; the first alternative
    that lets [k] succeed wins, as in [re]. *)
Fixpoint rmatch (r : regex) (k : pystr -> option pystr) (s : pystr)
    : option pystr :=
  match r with
  | RClass p =>
      match s with
      | c :: s' => if p c then k s' else None
      | [] => None
      end
  | RSeq r1 r2 => rmatch r1 (rmatch r2 k) s
  | ROpt r1 =>
      match rmatch r1 k s with
      | Some rest => Some rest
      | None => k s
      end
  | RPlus p =>
      match s with
      | c :: s' => if p c then greedy p k s' else None
      | [] => None
      end
  | RStar p => greedy p k s
  | RStarLazy p => lazy p k s
  end.

(** [pattern.match(s)]: what follows the match at the head of [s]. *)
Definition match_at (r : regex) (s : pystr) : option pystr := rmatch r Some s.

(** [re.sub(r, repl, s)] for a replacement without group references: scan
    left to right, replace each match and go on behind it.  [skip] counts
    the characters of the current match still to pass over.  The patterns
    used here never match the empty string ([consuming_match_shrinks]);
    an empty match is replaced and the scan moves one character on. *)
Fixpoint sub_from (r : regex) (repl : pystr) (s : pystr) (skip : nat)
    : pystr :=
  match skip with
  | S n =>
      match s with
      | [] => []
      | _ :: s' => sub_from r repl s' n
      end
  | O =>
      match match_at r s with
      | Some rest =>
          match s with
          | [] => repl
          | c :: s' =>
              match (length s - length rest)%nat with
              | O => repl ++ c :: sub_from r repl s' O
              | S n => repl ++ sub_from r repl s' n
              end
          end
      | None =>
          match s with
          | [] => []
          | c :: s' => c :: sub_from r repl s' O
          end
      end
  end.

Definition re_sub (r : regex) (repl : pystr) (s : pystr) : pystr :=
  sub_from r repl s O.

(** [re.split(r, s)] for a pattern that never matches the empty string:
    [cur] is the piece being collected. *)
Fixpoint split_from (r : regex) (s : pystr) (skip : nat) (cur : pystr)
    : list pystr :=
  match skip with
  | S n =>
      match s with
      | [] => [cur]
      | _ :: s' => split_from r s' n cur
      end
  | O =>
      match s with
      | [] => [cur]
      | c :: s' =>
          match match_at r s with
          | Some rest =>
              match (length s - length rest)%nat with
              | O => split_from r s' O (cur ++ [c])
              | S n => cur :: split_from r s' n []
              end
          | None => split_from r s' O (cur ++ [c])
          end
      end
  end.

Definition re_split (r : regex) (s : pystr) : list pystr :=
  split_from r s O [].

(** [re.search(r, s) is not None] *)
Fixpoint re_search (r : regex) (s : pystr) : bool :=
  match match_at r s with
  | Some _ => true
  | None =>
      match s with
      | [] => false
      | _ :: s' => re_search r s'
      end
  end.

(** A pattern that consumes a character on every match. *)
Fixpoint consuming (r : regex) : bool :=
  match r with
  | RClass _ => true
  | RSeq r1 r2 => consuming r1 || consuming r2
  | RPlus _ => true
  | ROpt _ | RStar _ | RStarLazy _ => false
  end.

(** A continuation hands back a suffix at least [d] characters shorter. *)
Definition shrinks_by (d : nat) (k : pystr -> option pystr) : Prop :=
  forall s rest, k s = Some rest -> (length rest + d <= length s)%nat.

(** ** Character classes and the patterns of the repository *)

Definition is_char (c : ascii) : ascii -> bool := Ascii.eqb c.

(** A literal word, character by character. *)
Fixpoint lit_from (c : ascii) (s : pystr) : regex :=
  match s with
  | [] => RClass (is_char c)
  | c' :: s' => RSeq (RClass (is_char c)) (lit_from c' s')
  end.

Definition lit (w : string) : regex :=
  match str w with
  | [] => ROpt (RClass (fun _ => false))
  | c :: s => lit_from c s
  end.

(** [.]: every character but the line feed. *)
Definition is_dot (c : ascii) : bool := negb (N_of_ascii c =? 10)%N.

(** [\w] on [str] patterns, for the code points below 256: the ASCII
    letters and digits, the underscore, and the Latin-1 characters
    [str.isalnum] accepts. *)
Definition is_word (c : ascii) : bool :=
  let n := N_of_ascii c in
  ((48 <=? n) && (n <=? 57) || (65 <=? n) && (n <=? 90)
   || (97 <=? n) && (n <=? 122) || (n =? 95)
   || (n =? 170) || (n =? 178) || (n =? 179) || (n =? 181) || (n =? 185)
   || (n =? 186) || (188 <=? n) && (n <=? 190)
   || (192 <=? n) && (n <=? 214) || (216 <=? n) && (n <=? 246)
   || (248 <=? n) && (n <=? 255))%N.

(** A single or a double quote. *)
Definition is_quote (c : ascii) : bool :=
  ((N_of_ascii c =? 34) || (N_of_ascii c =? 39))%N.

(** One of [.], [;], [{] and [}]. *)
Definition is_delimiter (c : ascii) : bool :=
  let n := N_of_ascii c in
  ((n =? 46) || (n =? 59) || (n =? 123) || (n =? 125))%N.

(** [\s+] *)
Definition re_whitespace : regex := RPlus isspace.

(** [import\s+.*?from\s+Q.*?Q;?] where [Q] is the class of the two
    quote characters. *)
Definition re_import : regex :=
  RSeq (lit "import") (RSeq (RPlus isspace) (RSeq (RStarLazy is_dot)
  (RSeq (lit "from") (RSeq (RPlus isspace) (RSeq (RClass is_quote)
  (RSeq (RStarLazy is_dot) (RSeq (RClass is_quote)
  (ROpt (RClass (is_char ";"))))))))))%char.

(** [export\s+(default\s+)?] *)
Definition re_export : regex :=
  RSeq (lit "export") (RSeq (RPlus isspace)
  (ROpt (RSeq (lit "default") (RPlus isspace)))).

(** [:\s*React\.\w+] *)
Definition re_react_annotation : regex :=
  RSeq (RClass (is_char ":")) (RSeq (RStar isspace)
  (RSeq (lit "React.") (RPlus is_word)))%char.

(** [React\.\w+<.*?>] *)
Definition re_react_generic : regex :=
  RSeq (lit "React.") (RSeq (RPlus is_word) (RSeq (RClass (is_char "<"))
  (RSeq (RStarLazy is_dot) (RClass (is_char ">")))))%char.

(** [[.;{}]\s*] *)
Definition re_statement_end : regex :=
  RSeq (RClass is_delimiter) (RStar isspace).

(* ===================================================================== *)
(** * Part VIII.  The text normalizer
      (src/bckup/latest/ingest_components.py, [clean_text])               *)
(* ===================================================================== *)

(** Python truthiness of a parsed value. *)
Definition py_truthy (v : pyval) : bool :=
  match v with
  | PNone => false
  | PBool b => b
  | PInt n => negb (n =? 0)
  | PFloat q => negb (Qeq_bool q 0)
  | PStr s => truthy s
  | PList items => truthy items
  | PDict members => truthy members
  end.

(** The four removals, in the order of the code. *)
Definition remove_artifacts (text : pystr) : pystr :=
  let text := re_sub re_import [] text in
  let text := re_sub re_export [] text in
  let text := re_sub re_react_annotation [] text in
  re_sub re_react_generic [] text.

(** [re.sub(r'\s+', ' ', text.strip())] *)
Definition collapse_whitespace (text : pystr) : pystr :=
  re_sub re_whitespace (str " ") (strip text).

(** The body of [clean_text] on a non-empty string. *)
Definition clean_str (text : pystr) : pystr :=
  let text := collapse_whitespace text in
  strip (remove_artifacts text).

(** [clean_text(text)]: falsy input gives the empty string; [text.strip]
    raises [AttributeError] on a truthy value that is not a string. *)
Definition clean_text (text : pyval) : result pystr :=
  if negb (py_truthy text) then Ok []
  else
    match text with
    | PStr s => Ok (clean_str s)
    | _ => Raise AttributeError
    end.

(** [normalize(normalize(x))], an exception of the inner call propagating. *)
Definition clean_twice (text : pyval) : result pystr :=
  once <- clean_text text ;; clean_text (PStr once).

(** [None] or a string, as a parsed value. *)
Definition of_optional (x : option pystr) : pyval :=
  match x with
  | None => PNone
  | Some s => PStr s
  end.

(** ** Shapes of text *)

(** The text does not start, respectively end, with whitespace. *)
Definition head_clean (s : pystr) : bool :=
  match s with
  | [] => true
  | c :: _ => negb (isspace c)
  end.

Fixpoint tail_clean (s : pystr) : bool :=
  match s with
  | [] => true
  | c :: s' =>
      match s' with
      | [] => negb (isspace c)
      | _ => tail_clean s'
      end
  end.

(** Every whitespace character is a space followed by a character that is
    not whitespace. *)
Fixpoint single_spaced (s : pystr) : bool :=
  match s with
  | [] => true
  | c :: s' =>
      if isspace c then
        Ascii.eqb c " " && truthy s' && head_clean s' && single_spaced s'
      else single_spaced s'
  end.

(** No removal pattern occurs in the text. *)
Definition artifact_free (text : pystr) : bool :=
  negb (re_search re_import text) && negb (re_search re_export text)
  && negb (re_search re_react_annotation text)
  && negb (re_search re_react_generic text).

(* ===================================================================== *)
(** * Part IX.  The statement-aware splitter
      (src/bckup/latest/ingest_components.py, [split_code])               *)
(* ===================================================================== *)

(** [sep.join(parts)] *)
Fixpoint py_join (sep : pystr) (parts : list pystr) : pystr :=
  match parts with
  | [] => []
  | p :: rest =>
      match rest with
      | [] => p
      | _ => p ++ sep ++ py_join sep rest
      end
  end.

(** The [for sentence in sentences] loop and the final append. *)
Fixpoint split_code_loop (max_length : Z) (sentences : list pystr)
    (current_chunk : pystr) (chunks : list pystr) : list pystr :=
  match sentences with
  | [] =>
      if truthy current_chunk then chunks ++ [strip current_chunk]
      else chunks
  | sentence :: rest =>
      let sentence := strip sentence in
      if negb (truthy sentence) then
        split_code_loop max_length rest current_chunk chunks
      else if (max_length <? py_len current_chunk + py_len sentence)
              && truthy current_chunk then
        split_code_loop max_length rest sentence
          (chunks ++ [strip current_chunk])
      else if truthy current_chunk then
        split_code_loop max_length rest
          (current_chunk ++ str " " ++ sentence) chunks
      else split_code_loop max_length rest sentence chunks
  end.

Definition split_code (code : pystr) (max_length : Z) : list pystr :=
  if py_len code <=? max_length then [code]
  else split_code_loop max_length (re_split re_statement_end code) [] [].

(** The statements of a text: the pieces between delimiters, trimmed, the
    empty ones dropped. *)
Definition statements (code : pystr) : list pystr :=
  List.filter truthy (map strip (re_split re_statement_end code)).

(** A trimmed, non-empty piece of text. *)
Definition clean_statement (s : pystr) : Prop :=
  s <> [] /\ head_clean s = true /\ tail_clean s = true.

(** A group of statements that makes one fragment: a single statement of
    any length, or several whose lengths add up to at most [max_length]. *)
Definition statement_group (max_length : Z) (g : list pystr) : Prop :=
  g <> [] /\ Forall clean_statement g /\
  (length g = 1%nat \/ total (map py_len g) <= max_length).

(** The same with the length of the joined text: the limit is tested
    before the joining space is added, so the text of several statements
    is at most one character longer than [max_length]. *)
Definition joined_group (max_length : Z) (g : list pystr) : Prop :=
  g <> [] /\ Forall clean_statement g /\
  (length g = 1%nat \/
   total (map py_len g) <= max_length /\
   py_len (py_join (str " ") g) <= max_length + 1).

(** No delimiter occurs in the text. *)
Definition delimiter_free (s : pystr) : Prop :=
  Forall (fun c => is_delimiter c = false) s.

(** A text and a limit for examples. *)
Definition code_example : pystr :=
  str "const a = 1; function f() { return a.b; } ;; x".
Definition max_size_example : Z := 12.

(* ===================================================================== *)
(** * Part X.  More Python primitives: dicts, formatting, splitting       *)
(* ===================================================================== *)

(** [d.get(key)] on an association list: [None] when the key is absent. *)
Fixpoint dict_get (d : list (pystr * pyval)) (key : pystr) : option pyval :=
  match d with
  | [] => None
  | (k, v) :: rest => if str_eqb k key then Some v else dict_get rest key
  end.

(** [d.get(key, default)] *)
Definition py_get (d : list (pystr * pyval)) (key : string)
    (default : pyval) : pyval :=
  match dict_get d (str key) with
  | Some v => v
  | None => default
  end.

(** [s.split(sep)] for a one-character separator. *)
Fixpoint split_on (sep : ascii) (s cur : pystr) : list pystr :=
  match s with
  | [] => [cur]
  | c :: s' =>
      if Ascii.eqb c sep then cur :: split_on sep s' []
      else split_on sep s' (cur ++ [c])
  end.

Definition py_split (sep : ascii) (s : pystr) : list pystr :=
  split_on sep s [].

(** [s.startswith(prefix)] *)
Fixpoint startswith (prefix s : pystr) : bool :=
  match prefix, s with
  | [], _ => true
  | p :: prefix', c :: s' => Ascii.eqb p c && startswith prefix' s'
  | _ :: _, [] => false
  end.

(** [enumerate(l, start)] *)
Fixpoint enumerate_from {A : Type} (start : Z) (l : list A) : list (Z * A) :=
  match l with
  | [] => []
  | a :: l' => (start, a) :: enumerate_from (start + 1) l'
  end.

(** [needle in s] for strings. *)
Fixpoint contains (needle s : pystr) : bool :=
  startswith needle s ||
  match s with
  | [] => false
  | _ :: s' => contains needle s'
  end.

Section Formatting.

(** [repr] of a float, a list or a dict is Python's own and is taken as
    given. *)
Variable py_repr : pyval -> pystr.

(** [str(v)], which is also what an f-string puts for [{v}]. *)
Definition py_str (v : pyval) : pystr :=
  match v with
  | PNone => str "None"
  | PBool true => str "True"
  | PBool false => str "False"
  | PInt n => str_of_int n
  | PStr s => s
  | PFloat _ | PList _ | PDict _ => py_repr v
  end.

(* ===================================================================== *)
(** * Part XI.  The document-to-fragments mapper
      (src/bckup/latest/ingest_components.py)                             *)
(* ===================================================================== *)

Inductive chunk_type : Type :=
| BasicInfo   (* "basic_info" *)
| Props       (* "props" *)
| Code.       (* "code" *)

(** A fragment.  The id, the name and the file are stored as the document
    holds them, whatever their type. *)
Record chunk : Type := Chunk {
  ck_chunk_id : pystr;
  ck_component_id : pyval;
  ck_component_name : pyval;
  ck_file : pyval;
  ck_chunk_type : chunk_type;
  ck_text : pystr
}.

(** [clean_code_for_search]: the test on one stripped line. *)
Definition keep_line (line : pystr) : bool :=
  truthy line
  && negb (startswith (str "import ") line || startswith (str "export ") line)
  && negb (startswith (str "//") line && negb (startswith (str "///") line)).

Definition clean_code_for_search (code : pystr) : pystr :=
  let lines := py_split "010"%char code in
  let cleaned_lines := List.filter keep_line (map strip lines) in
  let cleaned_code := py_join (str " ") cleaned_lines in
  let cleaned_code := re_sub re_whitespace (str " ") cleaned_code in
  strip cleaned_code.

(** [extract_prop_type]: the type's name, the type itself when it is a
    string, or the empty string. *)
Definition extract_prop_type (prop_info : list (pystr * pyval)) : pyval :=
  let type_info := py_get prop_info "type" (PDict []) in
  match type_info with
  | PDict members =>
      let type_name := py_get members "name" (PStr []) in
      if py_truthy type_name then type_name else PStr []
  | PStr s => PStr s
  | _ => PStr []
  end.

(** The body of the loop of [format_props_info] for a property whose
    descriptor is a dict: the line for that property. *)
Definition format_prop (prop_name : pystr) (prop_info : list (pystr * pyval))
    : result pystr :=
  let prop_type := extract_prop_type prop_info in
  let type_part :=
    if py_truthy prop_type then [str "type: " ++ py_str prop_type] else [] in
  description_part <-
    (if py_truthy (py_get prop_info "description" PNone) then
       desc <- clean_text (py_get prop_info "description" PNone) ;;
       Ok (if truthy desc then [str "description: " ++ desc] else [])
     else Ok []) ;;
  let required_part :=
    if py_truthy (py_get prop_info "required" PNone) then [str "required"]
    else [str "optional"] in
  let default_part :=
    match dict_get prop_info (str "defaultValue") with
    | Some v =>
        if py_truthy v then
          let default_val := py_str v in
          if py_len default_val <? 50 then [str "default: " ++ default_val]
          else []
        else []
    | None => []
    end in
  Ok (py_join (str " - ")
        ([prop_name] ++ type_part ++ description_part ++ required_part
         ++ default_part)).

(** The [for prop_name, prop_info in props.items()] loop: descriptors that
    are not dicts are passed over. *)
Fixpoint format_props_lines (props : list (pystr * pyval))
    : result (list pystr) :=
  match props with
  | [] => Ok []
  | (prop_name, prop_info) :: rest =>
      match prop_info with
      | PDict members =>
          line <- format_prop prop_name members ;;
          lines <- format_props_lines rest ;;
          Ok (line :: lines)
      | _ => format_props_lines rest
      end
  end.

Definition format_props_info (props : list (pystr * pyval))
    (component_name : pyval) : result pystr :=
  if negb (truthy props) then Ok []
  else
    lines <- format_props_lines props ;;
    Ok (py_join (str " | ")
          ((py_str component_name ++ str " component props:") :: lines)).

(** [process_code_snippet]; [raw_code.strip()] raises [AttributeError] on a
    value that is not a string. *)
Definition process_code_snippet (raw_code component_id component_name
    file_path : pyval) : result (list chunk) :=
  if negb (py_truthy raw_code) then Ok []
  else
    match raw_code with
    | PStr raw =>
        if py_len (strip raw) <? 50 then Ok []
        else
          let cleaned_code := clean_code_for_search raw in
          if py_len cleaned_code <=? 600 then
            Ok [ {| ck_chunk_id := py_str component_id ++ str "_code";
                    ck_component_id := component_id;
                    ck_component_name := component_name;
                    ck_file := file_path;
                    ck_chunk_type := Code;
                    ck_text := py_str component_name
                                  ++ str " implementation: " ++ cleaned_code |} ]
          else
            let code_chunks := split_code cleaned_code 500 in
            Ok (map (fun ic : Z * pystr =>
                       let (i, c) := ic in
                       {| ck_chunk_id := py_str component_id ++ str "_code_"
                                            ++ str_of_int i;
                          ck_component_id := component_id;
                          ck_component_name := component_name;
                          ck_file := file_path;
                          ck_chunk_type := Code;
                          ck_text := py_str component_name
                                        ++ str " code part "
                                        ++ str_of_int (i + 1) ++ str ": " ++ c |})
                    (enumerate_from 0 code_chunks))
    | _ => Raise AttributeError
    end.

(** The location hint: the last three segments of a path with more than
    three. *)
Definition relevant_path (file_path : pystr) : pystr :=
  let path_parts := py_split "/"%char file_path in
  if 3 <? py_len path_parts then
    py_join (str "/") (py_slice path_parts (-3) (py_len path_parts))
  else file_path.

(** [extract_component_chunks(component)] *)
Definition extract_component_chunks (component : list (pystr * pyval))
    : result (list chunk) :=
  let component_name := py_get component "name" (PStr (str "Unknown")) in
  let file_path := py_get component "file" (PStr []) in
  let component_id := py_get component "id" (PStr []) in
  let name_part := [str "Component: " ++ py_str component_name] in
  description_part <-
    (if py_truthy (py_get component "description" PNone) then
       desc <- clean_text (py_get component "description" PNone) ;;
       Ok (if truthy desc then [str "Description: " ++ desc] else [])
     else Ok []) ;;
  location_part <-
    (if py_truthy file_path then
       match file_path with
       | PStr path => Ok [str "Location: " ++ relevant_path path]
       | _ => Raise AttributeError
       end
     else Ok []) ;;
  let basic :=
    {| ck_chunk_id := py_str component_id ++ str "_basic";
       ck_component_id := component_id;
       ck_component_name := component_name;
       ck_file := file_path;
       ck_chunk_type := BasicInfo;
       ck_text := py_join (str " | ")
                       (name_part ++ description_part ++ location_part) |} in
  props_chunks <-
    (match py_get component "props" PNone with
     | PDict props =>
         if truthy props then
           props_info <- format_props_info props component_name ;;
           Ok (if truthy props_info then
                 [ {| ck_chunk_id := py_str component_id ++ str "_props";
                      ck_component_id := component_id;
                      ck_component_name := component_name;
                      ck_file := file_path;
                      ck_chunk_type := Props;
                      ck_text := props_info |} ]
               else [])
         else Ok []
     | _ => Ok []
     end) ;;
  code_chunks <-
    (if py_truthy (py_get component "raw" PNone) then
       process_code_snippet (py_get component "raw" PNone) component_id
         component_name file_path
     else Ok []) ;;
  Ok ([basic] ++ props_chunks ++ code_chunks).

End Formatting.

(** ** The documents the data model describes *)

(** An optional text field: absent, null, or a string. *)
Definition optional_text (v : option pyval) : Prop :=
  match v with
  | None | Some PNone | Some (PStr _) => True
  | _ => False
  end.

(** A property descriptor, when it is a dict, holds a description that is
    an optional text. *)
Definition prop_typed (kv : pystr * pyval) : Prop :=
  match snd kv with
  | PDict members => optional_text (dict_get members (str "description"))
  | _ => True
  end.

(** A Document of the data model: [description], [file] and [raw] are
    optional texts, and [props], when it is a mapping, maps names to
    descriptors.  [id] and [name] are not constrained. *)
Definition document_typed (doc : list (pystr * pyval)) : Prop :=
  optional_text (dict_get doc (str "description")) /\
  optional_text (dict_get doc (str "file")) /\
  optional_text (dict_get doc (str "raw")) /\
  match dict_get doc (str "props") with
  | Some (PDict props) => Forall prop_typed props
  | _ => True
  end.

(** The document of the specification's end-to-end scenario. *)
Definition button_doc : list (pystr * pyval) :=
  [ (str "id", PStr (str "c1"));
    (str "name", PStr (str "Button"));
    (str "description", PStr (str "A clickable button"));
    (str "props",
     PDict [(str "onClick",
             PDict [(str "type", PStr (str "func"));
                    (str "required", PBool true)])]) ].

(* ===================================================================== *)
(** * Part XII.  The per-document writer of the streaming processor
      (src/bckup/ingest_components.py, [process_single_component])        *)
(* ===================================================================== *)

(** [v[:n]]: strings and lists can be sliced; a number, a boolean and
    [None] raise [TypeError], and so does a dict, which takes the slice
    for a key (an unhashable one; [KeyError] from Python 3.12 on, where
    slices hash: either way an [Exception]). *)
Definition py_slice_to (v : pyval) (n : Z) : result pyval :=
  match v with
  | PStr s => Ok (PStr (py_take s n))
  | PList items => Ok (PList (py_take items n))
  | _ => Raise TypeError
  end.

(** [len(v)] *)
Definition py_len_of (v : pyval) : result Z :=
  match v with
  | PStr s => Ok (py_len s)
  | PList items => Ok (py_len items)
  | PDict members => Ok (py_len members)
  | _ => Raise TypeError
  end.

Section StreamingWriter.

Variable py_repr : pyval -> pystr.

(** [json.dump(obj, f_out, separators=(',', ':'))] belongs to the [json]
    library: the text it writes to the file and, when it raises part of
    the way, the exception. *)
Variable json_dump : pyval -> pystr * option exn.

(** The type name of one property descriptor. *)
Definition prop_type_name (v : list (pystr * pyval)) : result pystr :=
  match py_get v "type" PNone with
  | PDict type_info =>
      type_name <- py_slice_to (py_get type_info "name" (PStr [])) 20 ;;
      Ok (py_str py_repr type_name)
  | type_info =>
      if py_truthy type_info then Ok (py_take (py_str py_repr type_info) 20)
      else Ok (str "unknown")
  end.

(** The [for k, v in props.items()] loop; [prop_count] counts the
    properties seen, and the sixth stops the loop. *)
Fixpoint prop_lines_loop (items : list (pystr * pyval)) (prop_count : Z)
    : result (list pystr) :=
  match items with
  | [] => Ok []
  | (k, v) :: rest =>
      if 5 <=? prop_count then Ok [str "... (more props)"]
      else
        line <-
          (match v with
           | PDict descriptor =>
               type_name <- prop_type_name descriptor ;;
               let desc :=
                 py_take
                   (py_str py_repr (py_get descriptor "description" (PStr [])))
                   100 in
               Ok [py_take k 30 ++ str " (" ++ type_name ++ str "): " ++ desc]
           | _ => Ok []
           end) ;;
        lines <- prop_lines_loop rest (prop_count + 1) ;;
        Ok (line ++ lines)
  end.

(** The text of a document: the name as stored in the fragments, and
    [big_text].  Every step can raise on a field of an unexpected type. *)
Definition build_text (doc : list (pystr * pyval)) : result (pyval * pystr) :=
  name <- py_slice_to (py_get doc "name" (PStr (str "Unknown"))) 100 ;;
  let name_part := [str "Component: " ++ py_str py_repr name] in
  description_part <-
    (if py_truthy (py_get doc "description" PNone) then
       match py_get doc "description" PNone with
       | PStr description =>
           Ok [str "Description: " ++ py_take description 400
               ++ (if 400 <? py_len description then str "..." else [])]
       | _ => Raise TypeError
       end
     else Ok []) ;;
  props_part <-
    (if py_truthy (py_get doc "props" PNone) then
       match py_get doc "props" PNone with
       | PDict props =>
           prop_lines <- prop_lines_loop props 0 ;;
           Ok (if truthy prop_lines then
                 [str "Props: " ++ py_join (str "; ") prop_lines]
               else [])
       | _ => Raise AttributeError
       end
     else Ok []) ;;
  file_part <-
    (if py_truthy (py_get doc "file" PNone) then
       file <- py_slice_to (py_get doc "file" PNone) 100 ;;
       Ok [str "File: " ++ py_str py_repr file]
     else Ok []) ;;
  code_part <-
    (if py_truthy (py_get doc "raw" PNone) then
       let raw_code := py_get doc "raw" (PStr []) in
       n <- py_len_of raw_code ;;
       raw_code <-
         (if 800 <? n then
            match raw_code with
            | PStr raw => Ok (PStr (py_take raw 800 ++ str "..."))
            | _ => Raise TypeError
            end
          else Ok raw_code) ;;
       Ok [str "Code: " ++ py_str py_repr raw_code]
     else Ok []) ;;
  Ok (name,
      py_join (str " | ")
        (name_part ++ description_part ++ props_part ++ file_part
         ++ code_part)).

(** The [for i, chunk_text in enumerate(chunks)] loop.  [written] is the
    text sent to [f_out] so far; the loop stops at the first exception and
    keeps what was written before it. *)
Fixpoint write_chunks (doc : list (pystr * pyval)) (name : pyval)
    (start_idx : Z) (first_chunk : bool) (items : list (Z * pystr))
    (written : pystr) (chunks_written : Z) : pystr * Z * option exn :=
  match items with
  | [] => (written, chunks_written, None)
  | (i, chunk) :: rest =>
      match py_slice_to (py_get doc "file" (PStr [])) 100 with
      | Raise e => (written, chunks_written, Some e)
      | Ok file =>
          let chunk_obj :=
            PDict [ (str "chunk_id",
                     PStr (str "chunk_" ++ str_of_int (start_idx + i)));
                    (str "component_id",
                     PStr (py_take (py_str py_repr (py_get doc "id" (PStr [])))
                             50));
                    (str "component_name", name);
                    (str "file", file);
                    (str "text", PStr chunk) ] in
          let written :=
            if negb first_chunk || (0 <? i)
            then written ++ [","%char; "010"%char]
            else written in
          let (dumped, raised) := json_dump chunk_obj in
          match raised with
          | Some e => (written ++ dumped, chunks_written, Some e)
          | None =>
              write_chunks doc name start_idx first_chunk rest
                (written ++ dumped) (chunks_written + 1)
          end
      end
  end.

(** The [try] block: text written, [chunks_written], and the exception
    that ended it, if any.  [None] when [chunk_text] does not return. *)
Definition process_try (fuel : nat) (doc : list (pystr * pyval))
    (start_idx : Z) (first_chunk : bool)
    : option (pystr * Z * option exn) :=
  match build_text doc with
  | Raise e => Some ([], 0, Some e)
  | Ok (name, big_text) =>
      match chunk_text fuel big_text 500 30 with
      | None => None
      | Some chunks =>
          Some (write_chunks doc name start_idx first_chunk
                  (enumerate_from 0 chunks) [] 0)
      end
  end.

(** [process_single_component]: the text written to [f_out] and the
    outcome.  An exception of the [try] block is printed and the count of
    chunks written so far is returned.  For a document that is not a dict
    [doc.get] raises [AttributeError] in the block and again in the
    handler, which lets it out. *)
Definition process_single_component (fuel : nat) (doc : pyval)
    (start_idx : Z) (first_chunk : bool) : option (pystr * result Z) :=
  match doc with
  | PDict members =>
      match process_try fuel members start_idx first_chunk with
      | None => None
      | Some (written, chunks_written, _) => Some (written, Ok chunks_written)
      end
  | _ => Some ([], Raise AttributeError)
  end.

End StreamingWriter.

(* ===================================================================== *)
(** * Part XIII.  The streaming collection processor
      (src/bckup/ingest_components.py, [minimal_ingest])                  *)
(* ===================================================================== *)

(** ** Paths and files *)

(** [PurePath.name]: the last component of a path. *)
Definition path_name (p : pystr) : pystr :=
  List.last (py_split "/"%char p) [].

(** The scan behind [PurePath.suffix], over the reversed name: the text
    from the last dot on, unless that dot starts or ends the name. *)
Fixpoint suffix_scan (reversed after : pystr) : pystr :=
  match reversed with
  | [] => []
  | c :: before =>
      if Ascii.eqb c "."%char then
        if truthy before && truthy after then "."%char :: after else []
      else suffix_scan before (c :: after)
  end.

Definition path_suffix (p : pystr) : pystr :=
  suffix_scan (rev (path_name p)) [].

(** [path.with_suffix(suffix)]: [ValueError] for a path without a name. *)
Definition with_suffix (p suffix : pystr) : result pystr :=
  if negb (truthy (path_name p)) then Raise ValueError
  else Ok (firstn (length p - length (path_suffix p)) p ++ suffix).

(** The text files of the file system, by path. *)
Abbreviation filesystem := (gmap (list ascii) (list ascii)).

(** [f.write(text)] on a file opened for writing. *)
Definition append_file (p : list ascii) (text : pystr) (files : filesystem)
    : filesystem :=
  <[p := default [] (files !! p) ++ text]> files.

(** ** The processor as a machine *)

(** The arguments of a call: the documents [ijson] will yield from the
    input file ([None] when the file does not exist), the output path, and
    [max_components]. *)
Record call : Type := Call {
  input_docs : option (list pyval);
  output_chunks_path : list ascii;
  max_components : option Z
}.

(** Where the control is. *)
Inductive phase : Type :=
| Called
| Entering                    (* input found, [temp_file] computed *)
| TempOpen                    (* [open(temp_file, "w")] done *)
| HeaderWritten
| Looping (pending : list pyval) (idx processed : Z) (first_chunk : bool)
| LoopDone (idx : Z)
| FooterWritten (idx : Z)     (* both files closed *)
| Completed (idx : Z)         (* renamed: the call returns *)
| Handling (e : exn)          (* in the [except] clause *)
| Raised (e : exn).           (* the call raised [e] *)

Record state : Type := State {
  files : filesystem;
  control : phase
}.

(** What happens next: the statement at hand runs to its end ([Go], with
    the fuel for the chunking loop inside it), or it raises, after having
    written [partial] when it is a write. *)
Inductive event : Type :=
| Go (fuel : nat)
| Fail (e : exn) (partial : pystr).


Definition header : pystr := ["["%char; "010"%char].
Definition footer : pystr := ["010"%char; "]"%char; "010"%char].

Section Processor.

Variable py_repr : pyval -> pystr.
Variable json_dump : pyval -> pystr * option exn.
Variable args : call.

(** [temp_file = output_chunks_path.with_suffix('.tmp')] *)
Definition temp_file : list ascii :=
  match with_suffix (output_chunks_path args) (str ".tmp") with
  | Ok p => p
  | Raise _ => []
  end.

(** [max_components and processed_components >= max_components] *)
Definition limit_reached (processed : Z) : bool :=
  match max_components args with
  | Some m => negb (m =? 0) && (m <=? processed)
  | None => false
  end.

(** One statement of [minimal_ingest].  No event is defined after the
    call has returned or raised; the [unlink] of the handler is taken to
    succeed. *)
Definition next (ev : event) (s : state) : option state :=
  let fs := files s in
  match control s, ev with
  | Called, Go _ =>
      match input_docs args with
      | None => Some (State fs (Raised FileNotFoundError))
      | Some _ =>
          match with_suffix (output_chunks_path args) (str ".tmp") with
          | Raise e => Some (State fs (Raised e))
          | Ok _ => Some (State fs Entering)
          end
      end
  | Entering, Go _ => Some (State (<[temp_file := []]> fs) TempOpen)
  | Entering, Fail e _ => Some (State fs (Handling e))
  | TempOpen, Go _ =>
      Some (State (append_file temp_file header fs) HeaderWritten)
  | HeaderWritten, Go _ =>
      match input_docs args with
      | Some docs => Some (State fs (Looping docs 0 0 true))
      | None => Some (State fs (Handling FileNotFoundError))
      end
  | Looping [] idx _ _, Go _ => Some (State fs (LoopDone idx))
  | Looping (doc :: rest) idx processed first_chunk, Go fuel =>
      if limit_reached processed then Some (State fs (LoopDone idx))
      else
        match process_single_component py_repr json_dump fuel doc idx
                first_chunk with
        | None => None
        | Some (written, Ok chunks_written) =>
            Some (State (append_file temp_file written fs)
                    (if 0 <? chunks_written
                     then Looping rest (idx + chunks_written) (processed + 1)
                            false
                     else Looping rest idx (processed + 1) first_chunk))
        | Some (written, Raise e) =>
            Some (State (append_file temp_file written fs) (Handling e))
        end
  | LoopDone idx, Go _ =>
      Some (State (append_file temp_file footer fs) (FooterWritten idx))
  | FooterWritten idx, Go _ =>
      match fs !! temp_file with
      | Some content =>
          Some (State (<[output_chunks_path args := content]>
                         (delete temp_file fs))
                  (Completed idx))
      | None => Some (State fs (Handling FileNotFoundError))
      end
  | Handling e, Go _ => Some (State (delete temp_file fs) (Raised e))
  | (TempOpen | HeaderWritten | Looping _ _ _ _ | LoopDone _), Fail e partial =>
      Some (State (append_file temp_file partial fs) (Handling e))
  | FooterWritten _, Fail e _ => Some (State fs (Handling e))
  | _, _ => None
  end.

(** A run: the events one after the other. *)
Fixpoint run (events : list event) (s : state) : option state :=
  match events with
  | [] => Some s
  | ev :: rest =>
      match next ev s with
      | Some s' => run rest s'
      | None => None
      end
  end.





End Processor.

(** ** A call for examples *)

(** The library parts, fixed for closed examples: a [repr] and a
    [json.dump] that write nothing. *)
Definition no_repr (v : pyval) : pystr := [].
Definition no_dump (v : pyval) : pystr * option exn := ([], None).

(** A collection of one document whose name is a number, to be written to
    [build-index/component_chunks.json], which holds an earlier output. *)
Definition example_call : call :=
  Call (Some [PDict [(str "name", PInt 5)]])
       (str "build-index/component_chunks.json") None.

Definition example_files : filesystem :=
  <[str "build-index/component_chunks.json" := str "[]"]> ∅.

(** The statements of a run without I/O errors, one document long. *)
Definition example_events : list event :=
  [Go 0; Go 0; Go 0; Go 0; Go 0; Go 0; Go 0; Go 0].

(* ===================================================================== *)
(** * Part XIV.  The in-memory collection processor
      (src/bckup/latest/ingest_components.py, [create_chunks])            *)
(* ===================================================================== *)

(** [components[:max_components]] under [if max_components:]: [None] and 0
    leave the collection whole, a negative number drops from the end. *)
Definition limit_components (components : list pyval)
    (max_components : option Z) : list pyval :=
  match max_components with
  | Some n => if n =? 0 then components else py_take components n
  | None => components
  end.

Definition is_dict (v : pyval) : bool :=
  match v with
  | PDict _ => true
  | _ => false
  end.

(** [component.get('id', '')] for an item of the collection. *)
Definition component_id_of (component : pyval) : pyval :=
  match component with
  | PDict members => py_get members "id" (PStr [])
  | _ => PNone
  end.

Definition is_basic_info (c : chunk) : bool :=
  match ck_chunk_type c with
  | BasicInfo => true
  | _ => false
  end.

Section CollectionProcessor.

Variable py_repr : pyval -> pystr.

(** The [for i, component in enumerate(components)] loop.  An exception
    of the mapper is printed and the component passed over.  For an item
    that is not a dict, [component.get] raises [AttributeError] in the
    mapper and again in the handler, which ends the call before anything
    is written. *)
Fixpoint create_chunks_loop (components : list pyval)
    (all_chunks : list chunk) : result (list chunk) :=
  match components with
  | [] => Ok all_chunks
  | component :: rest =>
      match component with
      | PDict members =>
          match extract_component_chunks py_repr members with
          | Ok component_chunks =>
              create_chunks_loop rest (all_chunks ++ component_chunks)
          | Raise _ => create_chunks_loop rest all_chunks
          end
      | _ => Raise AttributeError
      end
  end.

(** [create_chunks(max_components)] on the array [json.load] returned, as
    far as its loop goes: the list [all_chunks] that is handed to
    [json.dump], or the exception that ended the loop.  The write that
    follows (the [mkdir], the [open] and the [json.dump] of the list, which
    can raise on their own: an [OSError], a [UnicodeEncodeError] for a
    string that UTF-8 cannot encode) and the statistics printed after it
    are not part of the definition. *)
Definition create_chunks (components : list pyval)
    (max_components : option Z) : result (list chunk) :=
  create_chunks_loop (limit_components components max_components) [].

End CollectionProcessor.

(** The fragments the mapper makes of one document, as the loop of
    [create_chunks] takes them: none when the mapper raises. *)
Definition fragments_of (py_repr : pyval -> pystr) (component : pyval)
    : list chunk :=
  match component with
  | PDict members =>
      match extract_component_chunks py_repr members with
      | Ok component_chunks => component_chunks
      | Raise _ => []
      end
  | _ => []
  end.

(** The ids of the code fragments of a snippet cut in [n] parts. *)
Definition code_part_ids (prefix : pystr) (n : nat) : list pystr :=
  map (fun i => prefix ++ str "_code_" ++ str_of_int (Z.of_nat i)) (seq 0 n).

(** ** The suffixes of fragment ids *)

Definition is_digit (c : ascii) : bool :=
  let n := N_of_ascii c in ((48 <=? n) && (n <=? 57))%N.

(** What the mapper appends to a document's id to name a fragment. *)
Inductive id_suffix : pystr -> Prop :=
| suffix_basic : id_suffix (str "_basic")
| suffix_props : id_suffix (str "_props")
| suffix_code : id_suffix (str "_code")
| suffix_part (i : nat) :
    id_suffix (str "_code_" ++ str_of_int (Z.of_nat i)).

(* ===================================================================== *)
(** * Part XV.  The index builder
      (src/bckup/latest/index_components.py, [build_index])               *)
(* ===================================================================== *)

(** [range(start, stop, step)] as the list of its values: [ValueError]
    for a step of zero. *)
Definition py_range (start stop step : Z) : result (list Z) :=
  if step =? 0 then Raise ValueError
  else
    let count :=
      if 0 <? step then (stop - start + step - 1) / step
      else (start - stop - step - 1) / (- step) in
    Ok (map (fun k => start + Z.of_nat k * step) (seq 0 (Z.to_nat count))).

(** [v[key]] for a string key: [KeyError] on a dict without the key,
    [TypeError] on what is not a dict. *)
Definition py_getitem (v : pyval) (key : string) : result pyval :=
  match v with
  | PDict members =>
      match dict_get members (str key) with
      | Some x => Ok x
      | None => Raise KeyError
      end
  | _ => Raise TypeError
  end.

(** [v.items()]: [AttributeError] on what is not a dict. *)
Definition py_items (v : pyval) : result (list (pystr * pyval)) :=
  match v with
  | PDict members => Ok members
  | _ => Raise AttributeError
  end.

(** The three lists the builder fills, and the arguments of one
    [collection.add(documents=..., metadatas=..., ids=...)]. *)
Record add_args : Type := AddArgs {
  documents : list pyval;
  metadatas : list (list (pystr * pyval));
  ids : list pystr
}.

(** The [for i, chunk in enumerate(chunks)] loop: the text, the metadata
    (every item of the chunk but the text) and the id [chunk_<i>]. *)
Fixpoint prepare_documents (items : list (Z * pyval)) (acc : add_args)
    : result add_args :=
  match items with
  | [] => Ok acc
  | (i, chunk) :: rest =>
      chunk_text <- py_getitem chunk "text" ;;
      members <- py_items chunk ;;
      let metadata :=
        List.filter (fun kv => negb (str_eqb (fst kv) (str "text")))
          members in
      prepare_documents rest
        {| documents := documents acc ++ [chunk_text];
           metadatas := metadatas acc ++ [metadata];
           ids := ids acc ++ [str "chunk_" ++ str_of_int i] |}
  end.

(** The [for i in range(0, len(texts), batch_size)] loop: the arguments
    of the calls of [collection.add], in order. *)
Definition add_batches (all : add_args) (batch_size : Z)
    : result (list add_args) :=
  starts <- py_range 0 (py_len (documents all)) batch_size ;;
  Ok (map (fun i =>
             let batch_end :=
               Z.min (i + batch_size) (py_len (documents all)) in
             {| documents := py_slice (documents all) i batch_end;
                metadatas := py_slice (metadatas all) i batch_end;
                ids := py_slice (ids all) i batch_end |})
          starts).

(** [build_index(batch_size)] on the chunks [json.load] returned: the
    calls of [collection.add] it makes. *)
Definition build_index (chunks : list pyval) (batch_size : Z)
    : result (list add_args) :=
  all <- prepare_documents (enumerate_from 0 chunks) (AddArgs [] [] []) ;;
  add_batches all batch_size.

(** A chunk as the builder needs it: an object with a text. *)
Definition has_text (chunk : pyval) : bool :=
  match py_getitem chunk "text" with
  | Ok _ => true
  | Raise _ => false
  end.

(** The metadata kept of a chunk: every item but the text. *)
Definition metadata_of (chunk : pyval) (metadata : list (pystr * pyval))
    : Prop :=
  forall key,
    dict_get metadata key
    = if str_eqb key (str "text") then None
      else match chunk with
           | PDict members => dict_get members key
           | _ => None
           end.

(* ===================================================================== *)
(** * Part XVI.  More vocabulary for the parts above                      *)
(* ===================================================================== *)

(** A flush happens only when the next document does not fit: each batch
    but the last, with the first document of the batch after it, is
    accounted above the bound. *)
Fixpoint tightly_packed (max_size_bytes : Z) (batches : list (list pyval))
    : Prop :=
  match batches with
  | [] => True
  | batch :: rest =>
      match rest with
      | (doc :: _) :: _ =>
          max_size_bytes < accounted_size batch + dumps_len 2 2 doc
      | _ => True
      end /\ tightly_packed max_size_bytes rest
  end.

(** How many elements [l[:n]] keeps of a list of length [L]: a negative
    [n] drops that many from the end. *)
Definition take_count (n L : Z) : Z :=
  if n <? 0 then Z.max 0 (L + n) else Z.min n L.

(** src/bckup/query_cli.py, [query]: from the search result [(D[0], I[0])]
    and the metadata list to the rows that are printed; the message
    "No matches found." is printed when there is no row. *)
Definition query_rows (chunks : list hit) (found : list (Q * Z))
    (per_component : Z) : result (list row) :=
  hits <- collect_hits chunks found ;; aggregate hits per_component.

(** The hit made of a score and the metadata at an index. *)
Definition scored (meta : hit) (s : Q) (h : hit) : Prop :=
  component_id h = component_id meta /\
  component_name h = component_name meta /\
  file h = file meta /\
  chunk_id h = chunk_id meta /\
  text h = text meta /\
  score h = s.

(** The only whitespace in the text is the plain space. *)
Definition spaces_only (s : pystr) : Prop :=
  Forall (fun c => isspace c = true -> c = " "%char) s.

(** What the temporary file holds while [minimal_ingest] runs, given that
    no document ever yields a fragment: the header alone until the footer
    is written, with the running count [idx] at zero. *)
Definition empty_body (args : call) (s : state) : Prop :=
  match control s with
  | Called | Entering | Handling _ | Raised _ => True
  | TempOpen => files s !! temp_file args = Some []
  | HeaderWritten => files s !! temp_file args = Some header
  | Looping _ idx _ _ | LoopDone idx =>
      files s !! temp_file args = Some header /\ idx = 0
  | FooterWritten idx =>
      files s !! temp_file args = Some (header ++ footer) /\ idx = 0
  | Completed idx =>
      files s !! output_chunks_path args = Some (header ++ footer) /\ idx = 0
  end.



(* ===================================================================== *)
(** * Proofs: Python primitives                                           *)
(* ===================================================================== *)

Lemma lstrip_length (s : pystr) : (length (lstrip s) <= length s)%nat.
Proof.
  induction s as [|c s IH]; simpl; [lia|].
  destruct (isspace c); simpl; lia.
Qed.

Lemma strip_length (s : pystr) : py_len (strip s) <= py_len s.
Proof.
  unfold py_len, strip, rstrip.
  rewrite length_rev.
  pose proof (lstrip_length (rev (lstrip s))) as H1.
  pose proof (lstrip_length s) as H2.
  rewrite length_rev in H1. lia.
Qed.

Lemma py_slice_length {A : Type} (l : list A) (a b : Z) :
  0 <= a <= b -> py_len (py_slice l a b) <= b - a.
Proof.
  intros Hab. unfold py_slice, py_len, slice_bound.
  pose proof (firstn_le_length
    (Z.to_nat ((if b <? 0 then Z.max 0 (b + Z.of_nat (length l))
                else Z.min b (Z.of_nat (length l))) -
               (if a <? 0 then Z.max 0 (a + Z.of_nat (length l))
                else Z.min a (Z.of_nat (length l)))))
    (skipn (Z.to_nat (if a <? 0 then Z.max 0 (a + Z.of_nat (length l))
                      else Z.min a (Z.of_nat (length l)))) l)) as Hle.
  destruct (Z.ltb_spec a 0), (Z.ltb_spec b 0); lia.
Qed.

(** Inside the text a slice is [firstn] of [skipn]. *)
Lemma py_slice_inside {A : Type} (l : list A) (a b : Z) :
  0 <= a <= b -> b <= py_len l ->
  py_slice l a b = firstn (Z.to_nat (b - a)) (skipn (Z.to_nat a) l).
Proof.
  intros Hab Hb. unfold py_slice, slice_bound.
  destruct (Z.ltb_spec a 0), (Z.ltb_spec b 0); try lia.
  rewrite !Z.min_l by lia. reflexivity.
Qed.

(* ===================================================================== *)
(** * Proofs: the character-window chunker                                *)
(* ===================================================================== *)

(** The loop appends to what it was given, one fragment per window. *)
Lemma chunk_loop_windows (text : pystr) (max_chars overlap : Z) :
  forall fuel start chunks out,
    chunk_loop fuel text max_chars overlap start chunks = Some out ->
    exists spans,
      windows (py_len text) max_chars overlap start spans /\
      out = chunks ++ map (fragment_of text) spans.
Proof.
  induction fuel as [|fuel IH]; intros start chunks out Hrun; [discriminate|].
  simpl in Hrun.
  destruct (Z.ltb_spec start (py_len text)) as [Hlt|Hge].
  - apply IH in Hrun as (spans & Hw & ->).
    exists ((start, Z.min (py_len text) (start + max_chars)) :: spans).
    split.
    + apply windows_next; [exact Hlt|].
      destruct (Z.ltb_spec
        (Z.min (py_len text) (start + max_chars) - overlap) 0) as [Hn|Hn].
      * rewrite Z.max_l by lia. exact Hw.
      * rewrite Z.max_r by lia. exact Hw.
    + rewrite <- app_assoc. reflexivity.
  - injection Hrun as <-. exists []. split.
    + apply windows_exit. exact Hge.
    + rewrite app_nil_r. reflexivity.
Qed.

(** Having covered more only helps. *)
Lemma gapless_weaken (L : Z) (spans : list (Z * Z)) (from from' : Z) :
  from <= from' -> gapless from L spans -> gapless from' L spans.
Proof.
  destruct spans as [|[a b] rest]; simpl; intros; lia || intuition lia.
Qed.

(** Every span of a gapless cover is a proper interval of the text. *)
Lemma gapless_ordered (L : Z) (spans : list (Z * Z)) :
  forall from, gapless from L spans ->
  Forall (fun sp => 0 <= fst sp < snd sp) spans.
Proof.
  induction spans as [|[a b] rest IH]; intros from Hg; [constructor|].
  simpl in Hg. constructor; [simpl; lia|]. apply (IH b). tauto.
Qed.

(** With a valid configuration the windows leave no gap and none is wider
    than [max_chars]. *)
Lemma windows_gapless (L max_chars overlap : Z) :
  0 <= overlap < max_chars ->
  forall start spans,
    windows L max_chars overlap start spans ->
    0 <= start ->
    gapless start L spans /\
    Forall (fun sp => snd sp - fst sp <= max_chars) spans.
Proof.
  intros Hcfg start spans Hw.
  induction Hw as [start Hge|start rest Hlt Hw IH]; intros H0.
  - split; [exact Hge|constructor].
  - destruct IH as [Hg Hall]; [lia|].
    split.
    + simpl. repeat split; try lia.
      eapply gapless_weaken; [|exact Hg]. lia.
    + constructor; [simpl; lia|exact Hall].
Qed.

(** With no overlap the windows put end to end are the text itself. *)
Lemma windows_concat (text : pystr) (max_chars : Z) :
  1 <= max_chars ->
  forall start spans,
    windows (py_len text) max_chars 0 start spans ->
    0 <= start ->
    concat (map (span_of text) spans) = skipn (Z.to_nat start) text.
Proof.
  intros Hmax start spans Hw.
  induction Hw as [start Hge|start rest Hlt Hw IH]; intros H0.
  - simpl. symmetry. apply skipn_all2. unfold py_len in Hge. lia.
  - simpl. rewrite IH by lia.
    unfold span_of; simpl fst; simpl snd.
    rewrite py_slice_inside by lia.
    set (b := Z.min (py_len text) (start + max_chars)).
    replace (Z.max 0 (b - 0)) with b by lia.
    replace (Z.to_nat b) with (Z.to_nat (b - start) + Z.to_nat start)%nat
      by lia.
    rewrite <- skipn_skipn. apply firstn_skipn.
Qed.

(** With no overlap the loop returns within [L - start] rounds. *)
Lemma chunk_loop_returns (text : pystr) (max_chars : Z) :
  1 <= max_chars ->
  forall (n : nat) start chunks,
    0 <= start -> py_len text - start <= Z.of_nat n ->
    exists out, chunk_loop (S n) text max_chars 0 start chunks = Some out.
Proof.
  intros Hmax. induction n as [|n IH]; intros start chunks H0 Hn.
  - exists chunks. simpl.
    destruct (Z.ltb_spec start (py_len text)); [lia|reflexivity].
  - change (chunk_loop (S (S n)) text max_chars 0 start chunks) with
      (if start <? py_len text then
         chunk_loop (S n) text max_chars 0
           (if Z.min (py_len text) (start + max_chars) - 0 <? 0 then 0
            else Z.min (py_len text) (start + max_chars) - 0)
           (chunks ++ [strip (py_slice text start
                          (Z.min (py_len text) (start + max_chars)))])
       else Some chunks).
    destruct (Z.ltb_spec start (py_len text)) as [Hlt|Hge];
      [|eexists; reflexivity].
    destruct (Z.ltb_spec
      (Z.min (py_len text) (start + max_chars) - 0) 0); [lia|].
    apply IH; lia.
Qed.

(** With a positive overlap the loop condition never becomes false:
    [start] is reset to [end - overlap], and [end] is at most [L]. *)
Lemma chunk_loop_diverges (text : pystr) (max_chars overlap : Z) :
  0 < overlap ->
  forall fuel start chunks,
    0 <= start < py_len text ->
    chunk_loop fuel text max_chars overlap start chunks = None.
Proof.
  intros Hov. induction fuel as [|fuel IH]; intros start chunks Hs;
    [reflexivity|].
  simpl. destruct (Z.ltb_spec start (py_len text)) as [_|Hge]; [|lia].
  apply IH.
  destruct (Z.ltb_spec
    (Z.min (py_len text) (start + max_chars) - overlap) 0); lia.
Qed.

Lemma chunk_text_diverges (t : pystr) (max_chars overlap : Z) :
  0 < overlap -> strip t <> [] ->
  forall fuel, chunk_text fuel t max_chars overlap = None.
Proof.
  intros Hov Hne fuel. unfold chunk_text.
  destruct (strip t) as [|c s] eqn:Hs; [congruence|].
  simpl negb. cbv iota.
  apply chunk_loop_diverges; [exact Hov|].
  unfold py_len; simpl; lia.
Qed.

(** What [chunk_text] returns, when it returns. *)
Lemma chunk_text_partial (t : pystr) (max_chars overlap : Z) :
  0 <= overlap < max_chars ->
  forall fuel frags,
    chunk_text fuel t max_chars overlap = Some frags ->
    exists spans,
      frags = map (fragment_of (strip t)) spans /\
      windows (py_len (strip t)) max_chars overlap 0 spans /\
      gapless 0 (py_len (strip t)) spans /\
      Forall (fun sp => snd sp - fst sp <= max_chars) spans /\
      Forall (fun f => py_len f <= max_chars) frags.
Proof.
  intros Hcfg fuel frags Hrun. unfold chunk_text in Hrun.
  destruct (strip t) as [|c s] eqn:Hs.
  - simpl in Hrun. injection Hrun as <-. exists [].
    assert (HL : py_len (@nil ascii) <= 0) by (unfold py_len; simpl; lia).
    split; [reflexivity|]. split; [apply windows_exit; exact HL|].
    split; [exact HL|]. split; constructor.
  - simpl negb in Hrun. cbv iota in Hrun.
    apply chunk_loop_windows in Hrun as (spans & Hw & ->).
    destruct (windows_gapless _ _ _ Hcfg _ _ Hw) as [Hg Hwide]; [lia|].
    exists spans. simpl. repeat split; auto.
    apply Forall_map.
    apply gapless_ordered in Hg.
    rewrite Forall_forall in *. intros [a b] Hin.
    specialize (Hg _ Hin). specialize (Hwide _ Hin). simpl in Hg, Hwide.
    unfold fragment_of, span_of. simpl fst; simpl snd.
    pose proof (strip_length (py_slice (c :: s) a b)).
    pose proof (py_slice_length (c :: s) a b). lia.
Qed.

(** C1 (amended).  For every text and every valid [(max_size, overlap)]:
    whatever the chunker returns is the list of trimmed windows of the
    TRIMMED text [strip t], the windows cover it from its first to its last
    character without a gap, and no window or fragment is longer than
    [max_size]; with [overlap = 0] the chunker does return, and its windows
    put end to end are exactly [strip t]. *)
Theorem chunk_text_covers_stripped_text (t : pystr) (max_size overlap : Z) :
  0 <= overlap < max_size ->
  (forall fuel frags,
     chunk_text fuel t max_size overlap = Some frags ->
     exists spans,
       frags = map (fragment_of (strip t)) spans /\
       gapless 0 (py_len (strip t)) spans /\
       Forall (fun sp => snd sp - fst sp <= max_size) spans /\
       Forall (fun f => py_len f <= max_size) frags) /\
  (overlap = 0 ->
   exists frags spans,
     chunk_text (S (length t)) t max_size overlap = Some frags /\
     frags = map (fragment_of (strip t)) spans /\
     concat (map (span_of (strip t)) spans) = strip t /\
     Forall (fun f => py_len f <= max_size) frags).
Proof.
  intros Hcfg. split.
  - intros fuel frags Hrun.
    destruct (chunk_text_partial t max_size overlap Hcfg fuel frags Hrun)
      as (spans & Hf & _ & Hg & Hw & Hl).
    exists spans. auto.
  - intros ->.
    assert (Hret : exists frags,
              chunk_text (S (length t)) t max_size 0 = Some frags).
    { unfold chunk_text. destruct (strip t) as [|c s] eqn:Hs.
      - eexists; reflexivity.
      - simpl negb. cbv iota. apply chunk_loop_returns; [lia|lia|].
        pose proof (strip_length t) as Hle. rewrite Hs in Hle.
        unfold py_len in *. lia. }
    destruct Hret as [frags Hrun]. exists frags.
    destruct (chunk_text_partial t max_size 0 Hcfg _ _ Hrun)
      as (spans & Hf & Hw & _ & _ & Hl).
    exists spans. repeat split; auto.
    rewrite (windows_concat (strip t) max_size) with (start := 0);
      [reflexivity|lia|exact Hw|lia].
Qed.

Lemma chunk_text_covers_stripped_text_witness :
  (forall fuel frags,
     chunk_text fuel (str "  hello world ") 4 0 = Some frags ->
     exists spans,
       frags = map (fragment_of (strip (str "  hello world "))) spans /\
       gapless 0 (py_len (strip (str "  hello world "))) spans /\
       Forall (fun sp => snd sp - fst sp <= 4) spans /\
       Forall (fun f => py_len f <= 4) frags) /\
  (0 = 0 ->
   exists frags spans,
     chunk_text (S (length (str "  hello world "))) (str "  hello world ") 4 0
       = Some frags /\
     frags = map (fragment_of (strip (str "  hello world "))) spans /\
     concat (map (span_of (strip (str "  hello world "))) spans)
       = strip (str "  hello world ") /\
     Forall (fun f => py_len f <= 4) frags).
Proof.
  apply (chunk_text_covers_stripped_text (str "  hello world ") 4 0). lia.
Defined.

(** The run on that text: three windows of "hello world". *)
Example chunk_text_hello_world :
  chunk_text 4 (str "  hello world ") 4 0
  = Some [str "hell"; str "o wo"; str "rld"].
Proof. vm_compute. reflexivity. Qed.

(** C1 (as stated) fails: a text of one space is chunked into no fragment
    at all, so no choice of spans, one per fragment, gives the space back. *)
Lemma chunk_text_drops_outer_whitespace :
  ~ (exists fuel frags,
       chunk_text fuel (str " ") 5 0 = Some frags /\
       reconstructs (str " ") frags).
Proof.
  intros (fuel & frags & Hrun & spans & Hf & Hc).
  assert (Hnil : frags = []).
  { unfold chunk_text in Hrun. vm_compute in Hrun.
    injection Hrun as <-. reflexivity. }
  rewrite Hnil in Hf. symmetry in Hf. apply map_eq_nil in Hf.
  rewrite Hf in Hc. simpl in Hc. discriminate Hc.
Qed.

(** C2.  The default call [chunk_text("a")] ([max_chars=600, overlap=50])
    never leaves its loop: no amount of fuel gives a result. *)
Theorem chunk_text_default_never_returns :
  forall fuel, chunk_text fuel (str "a") 600 50 = None.
Proof.
  intros fuel. apply chunk_text_diverges; [lia|].
  vm_compute. discriminate.
Qed.

(* ===================================================================== *)
(** * Proofs: the stable sort                                             *)
(* ===================================================================== *)

Section StableSort.
Context {A : Type} (key : A -> Q).

Lemma insert_by_perm (x : A) (l : list A) :
  Permutation (insert_by key x l) (x :: l).
Proof.
  induction l as [|y l IH]; simpl; [reflexivity|].
  destruct (Qle_bool (key x) (key y)); [reflexivity|].
  rewrite IH. apply perm_swap.
Qed.

Lemma py_sorted_perm (l : list A) : Permutation (py_sorted key l) l.
Proof.
  induction l as [|x l IH]; simpl; [reflexivity|].
  rewrite insert_by_perm. apply perm_skip. exact IH.
Qed.

Lemma py_sorted_length (l : list A) : length (py_sorted key l) = length l.
Proof. apply Permutation_length, py_sorted_perm. Qed.

Lemma py_sorted_In (l : list A) (a : A) : In a (py_sorted key l) <-> In a l.
Proof.
  split; apply Permutation_in; [|symmetry]; apply py_sorted_perm.
Qed.

Definition ascending (l : list A) : Prop :=
  StronglySorted (fun a b => (key a <= key b)%Q) l.

Lemma insert_by_ascending (x : A) (l : list A) :
  ascending l -> ascending (insert_by key x l).
Proof.
  unfold ascending. induction 1 as [|y l Hs IH Hy]; simpl.
  - repeat constructor.
  - destruct (Qle_bool (key x) (key y)) eqn:Hle.
    + apply Qle_bool_iff in Hle.
      constructor; [constructor; assumption|].
      constructor; [exact Hle|].
      rewrite List.Forall_forall in *. intros z Hz.
      eapply Qle_trans; [exact Hle|]. apply Hy, Hz.
    + constructor; [exact IH|].
      rewrite List.Forall_forall in *. intros z Hz.
      apply (Permutation_in _ (insert_by_perm x l)) in Hz.
      destruct Hz as [<-|Hz]; [|apply Hy, Hz].
      destruct (Qlt_le_dec (key y) (key x)) as [Hlt|Hge].
      * apply Qlt_le_weak, Hlt.
      * apply Qle_bool_iff in Hge. congruence.
Qed.

Lemma py_sorted_ascending (l : list A) : ascending (py_sorted key l).
Proof.
  induction l as [|x l IH]; simpl; [constructor|].
  apply insert_by_ascending, IH.
Qed.

(** Stability: a predicate that selects elements of one key only sees them
    in their original order. *)
Lemma insert_by_filter (p : A -> bool) (x : A) (l : list A) :
  (forall a b, p a = true -> p b = true -> (key a == key b)%Q) ->
  List.filter p (insert_by key x l) = List.filter p (x :: l).
Proof.
  intros Hp. induction l as [|y l IH]; [reflexivity|].
  simpl insert_by. destruct (Qle_bool (key x) (key y)) eqn:Hle;
    [reflexivity|].
  simpl List.filter in *. rewrite IH.
  destruct (p x) eqn:Hx, (p y) eqn:Hy; try reflexivity.
  exfalso. specialize (Hp x y Hx Hy).
  assert (Qle_bool (key x) (key y) = true)
    by (apply Qle_bool_iff; rewrite Hp; apply Qle_refl).
  congruence.
Qed.

Lemma py_sorted_stable (p : A -> bool) (l : list A) :
  (forall a b, p a = true -> p b = true -> (key a == key b)%Q) ->
  List.filter p (py_sorted key l) = List.filter p l.
Proof.
  intros Hp. induction l as [|x l IH]; [reflexivity|].
  simpl py_sorted. rewrite insert_by_filter by exact Hp.
  simpl. rewrite IH. reflexivity.
Qed.

End StableSort.

(** Sorting by the negated value: descending in the value, ties in the
    original order. *)
Lemma py_sorted_descending {A : Type} (f : A -> Q) (l : list A) :
  descending f (py_sorted (fun x => - f x)%Q l).
Proof.
  pose proof (py_sorted_ascending (fun x => - f x)%Q l) as H.
  unfold ascending, descending in *.
  induction H as [|a l' Hs IH Ha]; constructor; [exact IH|].
  rewrite List.Forall_forall in *. intros b Hb. specialize (Ha b Hb).
  simpl in Ha. apply Qopp_le_compat in Ha.
  rewrite !Qopp_involutive in Ha. exact Ha.
Qed.

Lemma py_sorted_ties {A : Type} (f : A -> Q) (l : list A) :
  ties_in_order_of f l (py_sorted (fun x => - f x)%Q l).
Proof.
  intros q. apply py_sorted_stable. intros a b Ha Hb.
  apply Qeq_bool_iff in Ha, Hb. rewrite Ha, Hb. reflexivity.
Qed.

(** The head of a descending list is a maximum. *)
Lemma descending_head_max {A : Type} (f : A -> Q) (a : A) (l : list A) :
  descending f (a :: l) -> forall b, In b (a :: l) -> (f b <= f a)%Q.
Proof.
  intros Hd b [<-|Hb]; [apply Qle_refl|].
  inversion Hd as [|? ? _ Hall]; subst.
  rewrite List.Forall_forall in Hall. apply Hall, Hb.
Qed.

(* ===================================================================== *)
(** * Proofs: the retrieval aggregator                                    *)
(* ===================================================================== *)

Lemma str_eqb_eq (a b : pystr) : str_eqb a b = true <-> a = b.
Proof.
  revert b. induction a as [|x a IH]; intros [|y b]; simpl;
    try (split; [discriminate|congruence]); [tauto|].
  rewrite andb_true_iff, Ascii.eqb_eq, IH.
  split; [intros [-> ->]; reflexivity|intros [= -> ->]; auto].
Qed.

Lemma str_eqb_refl (a : pystr) : str_eqb a a = true.
Proof. apply str_eqb_eq. reflexivity. Qed.

Lemma str_eqb_neq (a b : pystr) : str_eqb a b = false <-> a <> b.
Proof.
  rewrite <- str_eqb_eq. destruct (str_eqb a b); split; congruence.
Qed.

Lemma existsb_str_eqb (c : pystr) (seen : list pystr) :
  existsb (str_eqb c) seen = true <-> In c seen.
Proof.
  rewrite existsb_exists. split.
  - intros (k & Hk & Heq). apply str_eqb_eq in Heq. subst. exact Hk.
  - intros Hin. exists c. split; [exact Hin|apply str_eqb_refl].
Qed.

(** ** [hits_of] *)

Lemma hits_of_cons_same (h : hit) (rest : list hit) :
  hits_of (component_id h) (h :: rest) = h :: hits_of (component_id h) rest.
Proof. unfold hits_of. simpl. rewrite str_eqb_refl. reflexivity. Qed.

Lemma hits_of_cons_other (c : pystr) (h : hit) (rest : list hit) :
  c <> component_id h -> hits_of c (h :: rest) = hits_of c rest.
Proof.
  intros Hne. unfold hits_of. simpl.
  destruct (str_eqb (component_id h) c) eqn:He; [|reflexivity].
  apply str_eqb_eq in He. congruence.
Qed.

Lemma hits_of_In (c : pystr) (hits : list hit) (h : hit) :
  In h (hits_of c hits) <-> In h hits /\ component_id h = c.
Proof. unfold hits_of. rewrite filter_In, str_eqb_eq. reflexivity. Qed.

(** ** [setdefault_append] *)

Lemma setdefault_append_fresh (cid : pystr) (h : hit)
    (g : list (pystr * list hit)) :
  ~ In cid (map fst g) -> setdefault_append cid h g = g ++ [(cid, [h])].
Proof.
  induction g as [|[k hs] g IH]; simpl; intros Hnot; [reflexivity|].
  destruct (str_eqb k cid) eqn:He.
  - apply str_eqb_eq in He. tauto.
  - rewrite IH by tauto. reflexivity.
Qed.

Lemma append_at_absent (cid : pystr) (h : hit) (g : list (pystr * list hit)) :
  ~ In cid (map fst g) -> map (append_at cid h) g = g.
Proof.
  induction g as [|[k hs] g IH]; simpl; intros Hnot; [reflexivity|].
  rewrite IH by tauto. unfold append_at. simpl.
  destruct (str_eqb k cid) eqn:He; [|reflexivity].
  apply str_eqb_eq in He. tauto.
Qed.

Lemma setdefault_append_known (cid : pystr) (h : hit)
    (g : list (pystr * list hit)) :
  List.NoDup (map fst g) -> In cid (map fst g) ->
  setdefault_append cid h g = map (append_at cid h) g.
Proof.
  induction g as [|[k hs] g IH]; simpl; intros Hnd Hin; [tauto|].
  inversion Hnd as [|? ? Hk Hnd']; subst.
  unfold append_at at 1. simpl.
  destruct (str_eqb k cid) eqn:He.
  - apply str_eqb_eq in He. subst k.
    rewrite append_at_absent by exact Hk. reflexivity.
  - apply str_eqb_neq in He. rewrite IH; [reflexivity|exact Hnd'|].
    destruct Hin; [congruence|assumption].
Qed.

Lemma append_at_keys (cid : pystr) (h : hit) (g : list (pystr * list hit)) :
  map fst (map (append_at cid h) g) = map fst g.
Proof.
  rewrite map_map. apply map_ext. intros [k hs]. unfold append_at. simpl.
  destruct (str_eqb k cid); reflexivity.
Qed.

(** ** [discovery_order] *)

Lemma discovery_order_In (hits : list hit) :
  forall seen c,
    In c (discovery_order hits seen) <->
    In c (map component_id hits) /\ ~ In c seen.
Proof.
  induction hits as [|h rest IH]; intros seen c; simpl; [tauto|].
  destruct (existsb (str_eqb (component_id h)) seen) eqn:He.
  - apply existsb_str_eqb in He. rewrite IH.
    split; [tauto|]. intros [[<-|Hin] Hnot]; tauto.
  - assert (Hnew : ~ In (component_id h) seen).
    { rewrite <- existsb_str_eqb. congruence. }
    simpl. rewrite IH, in_app_iff. simpl.
    destruct (decide (component_id h = c)) as [Heq|Hne].
    + rewrite Heq in *. tauto.
    + split; [intros [?|[? ?]]; [congruence|tauto]|tauto].
Qed.

Lemma discovery_order_NoDup (hits : list hit) :
  forall seen, List.NoDup (discovery_order hits seen).
Proof.
  induction hits as [|h rest IH]; intros seen; simpl; [constructor|].
  destruct (existsb (str_eqb (component_id h)) seen); [apply IH|].
  constructor; [|apply IH].
  rewrite discovery_order_In, in_app_iff. simpl. tauto.
Qed.

(** ** The grouping loop *)

Lemma extend_groups_skip (g : list (pystr * list hit)) (h : hit)
    (rest : list hit) :
  ~ In (component_id h) (map fst g) ->
  extend_groups g (h :: rest) = extend_groups g rest.
Proof.
  intros Hnot. unfold extend_groups. apply map_ext_in.
  intros [k hs] Hin. cbn [fst snd].
  rewrite hits_of_cons_other; [reflexivity|].
  intros ->. apply Hnot. apply (in_map fst) in Hin. exact Hin.
Qed.

Lemma fresh_groups_skip (cids : list pystr) (h : hit) (rest : list hit) :
  ~ In (component_id h) cids ->
  fresh_groups cids (h :: rest) = fresh_groups cids rest.
Proof.
  intros Hnot. unfold fresh_groups. apply map_ext_in.
  intros c Hin. rewrite hits_of_cons_other; [reflexivity|].
  intros ->. tauto.
Qed.

Lemma extend_groups_append_at (g : list (pystr * list hit)) (h : hit)
    (rest : list hit) :
  extend_groups (map (append_at (component_id h) h) g) rest
  = extend_groups g (h :: rest).
Proof.
  unfold extend_groups. rewrite map_map. apply map_ext.
  intros [k hs]. unfold append_at. cbn [fst snd].
  destruct (str_eqb k (component_id h)) eqn:He; cbn [fst snd].
  - apply str_eqb_eq in He. subst k.
    rewrite hits_of_cons_same, <- app_assoc. reflexivity.
  - apply str_eqb_neq in He. rewrite hits_of_cons_other by exact He.
    reflexivity.
Qed.

Lemma group_fold (hits : list hit) :
  forall g, List.NoDup (map fst g) ->
    fold_left group_step hits g
    = extend_groups g hits
      ++ fresh_groups (discovery_order hits (map fst g)) hits.
Proof.
  induction hits as [|h rest IH]; intros g Hnd.
  - simpl. rewrite app_nil_r. unfold extend_groups.
    rewrite <- (map_id g) at 1. apply map_ext.
    intros [k hs]. simpl. rewrite app_nil_r. reflexivity.
  - simpl fold_left. simpl discovery_order. unfold group_step at 2.
    destruct (existsb (str_eqb (component_id h)) (map fst g)) eqn:He.
    + apply existsb_str_eqb in He.
      rewrite setdefault_append_known by assumption.
      rewrite IH by (rewrite append_at_keys; exact Hnd).
      rewrite append_at_keys, extend_groups_append_at.
      f_equal. symmetry. apply fresh_groups_skip.
      rewrite discovery_order_In. tauto.
    + assert (Hnew : ~ In (component_id h) (map fst g)).
      { rewrite <- existsb_str_eqb. congruence. }
      rewrite setdefault_append_fresh by exact Hnew.
      rewrite IH.
      2:{ rewrite map_app. simpl. apply List.NoDup_app.
          - exact Hnd.
          - repeat constructor. simpl. tauto.
          - intros c Hc [<-|[]]. tauto. }
      rewrite map_app. cbn [map].
      unfold extend_groups at 1. rewrite map_app. cbn [map].
      fold (extend_groups g rest).
      rewrite <- app_assoc. cbn [app].
      rewrite extend_groups_skip by exact Hnew.
      f_equal. unfold fresh_groups at 2. cbn [map].
      rewrite hits_of_cons_same. f_equal.
      apply map_ext_in. intros c Hc.
      rewrite hits_of_cons_other; [reflexivity|].
      apply discovery_order_In in Hc. rewrite in_app_iff in Hc. simpl in Hc.
      intros ->. tauto.
Qed.

(** The dict built by the grouping loop: one entry per component, in the
    order of first arrival, holding that component's hits in arrival
    order. *)
Lemma group_hits_spec (hits : list hit) :
  group_hits hits = fresh_groups (discovery_order hits []) hits.
Proof.
  unfold group_hits. change (fold_left _ hits []) with
    (fold_left group_step hits []).
  rewrite group_fold by constructor. reflexivity.
Qed.

(** ** Rows *)

Lemma for_each_Forall2 {A B : Type} (f : A -> result B) (l : list A) :
  forall bs, for_each f l = Ok bs -> Forall2 (fun a b => f a = Ok b) l bs.
Proof.
  induction l as [|a l IH]; simpl; intros bs Hrun.
  - injection Hrun as <-. constructor.
  - destruct (f a) as [b|e] eqn:Hfa; [|discriminate]. simpl in Hrun.
    destruct (for_each f l) as [bs'|e]; [|discriminate]. simpl in Hrun.
    injection Hrun as <-. constructor; [exact Hfa|apply IH; reflexivity].
Qed.

Lemma for_each_total {A B : Type} (f : A -> result B) (l : list A) :
  (forall a, In a l -> exists b, f a = Ok b) ->
  exists bs, for_each f l = Ok bs.
Proof.
  induction l as [|a l IH]; simpl; intros Hall; [eexists; reflexivity|].
  destruct (Hall a) as [b ->]; [tauto|].
  destruct IH as [bs ->]; [intros; apply Hall; tauto|].
  eexists; reflexivity.
Qed.

Lemma py_take_firstn {A : Type} (l : list A) (n : Z) :
  0 <= n -> py_take l n = firstn (Z.to_nat n) l.
Proof.
  intros Hn. unfold py_take, py_slice, slice_bound.
  destruct (Z.ltb_spec 0 0); [lia|]. destruct (Z.ltb_spec n 0); [lia|].
  assert (H0L : Z.min 0 (py_len l) = 0) by (unfold py_len; lia).
  rewrite H0L. change (Z.to_nat 0) with O. rewrite skipn_O.
  rewrite Z.sub_0_r. unfold py_len.
  destruct (Z.le_ge_cases n (Z.of_nat (length l))) as [Hle|Hge].
  - rewrite Z.min_l by lia. reflexivity.
  - rewrite Z.min_r by lia. rewrite Nat2Z.id.
    rewrite !firstn_all2 by lia. reflexivity.
Qed.

(** A non-empty group makes a row, and the row is as [row_of_group] says. *)
Lemma make_row_group (hits : list hit) (per_component : Z) (cid : pystr) :
  0 <= per_component ->
  hits_of cid hits <> [] ->
  exists r,
    make_row per_component (cid, hits_of cid hits) = Ok r /\
    row_component_id r = cid /\
    row_of_group hits per_component r.
Proof.
  intros Hpc Hne. unfold make_row.
  pose proof (py_sorted_perm (fun x => - score x)%Q (hits_of cid hits)) as Hp.
  pose proof (py_sorted_descending score (hits_of cid hits)) as Hd.
  pose proof (py_sorted_ties score (hits_of cid hits)) as Ht.
  destruct (py_sorted (fun x => - score x)%Q (hits_of cid hits))
    as [|h0 others] eqn:Hs.
  - apply Permutation_nil in Hp. congruence.
  - eexists. split; [reflexivity|]. split; [reflexivity|].
    exists h0, others. cbn [row_component_id best_score row_component_name
                            row_file top_chunks].
    repeat split; auto.
    + intros h Hh. apply (descending_head_max score h0 others Hd).
      apply (Permutation_in _ (Permutation_sym Hp)), Hh.
    + apply py_take_firstn, Hpc.
Qed.

(** Every discovered component has a hit. *)
Lemma discovered_has_hits (hits : list hit) (cid : pystr) :
  In cid (discovery_order hits []) -> hits_of cid hits <> [].
Proof.
  intros Hin. apply discovery_order_In in Hin as [Hin _].
  apply in_map_iff in Hin as (h & Hc & Hh).
  intros Hnil. assert (Hmem : In h (hits_of cid hits))
    by (apply hits_of_In; auto).
  rewrite Hnil in Hmem. exact Hmem.
Qed.

(** The rows before the final sort: one per component, in discovery
    order. *)
Lemma rows_in_discovery_order (hits : list hit) (per_component : Z) :
  0 <= per_component ->
  exists rows0,
    for_each (make_row per_component) (group_hits hits) = Ok rows0 /\
    map row_component_id rows0 = discovery_order hits [] /\
    Forall (row_of_group hits per_component) rows0.
Proof.
  intros Hpc. rewrite group_hits_spec.
  pose proof (discovered_has_hits hits) as Hne.
  induction (discovery_order hits []) as [|cid cids IH].
  - exists []. repeat split; constructor.
  - destruct IH as (rows0 & Hrun & Hids & Hall);
      [intros; apply Hne; right; assumption|].
    destruct (make_row_group hits per_component cid Hpc) as (r & Hr & Hc & Hg);
      [apply Hne; left; reflexivity|].
    exists (r :: rows0). unfold fresh_groups in *. cbn [map for_each].
    rewrite Hr. cbn [bind]. rewrite Hrun. cbn [bind].
    repeat split; [congruence|constructor; assumption].
Qed.

(** The aggregator as a whole. *)
Lemma aggregate_core (hits : list hit) (per_component : Z) :
  0 <= per_component ->
  exists rows rows0,
    aggregate hits per_component = Ok rows /\
    map row_component_id rows0 = discovery_order hits [] /\
    Forall (row_of_group hits per_component) rows0 /\
    Permutation rows rows0 /\
    descending best_score rows /\
    ties_in_order_of best_score rows0 rows.
Proof.
  intros Hpc.
  destruct (rows_in_discovery_order hits per_component Hpc)
    as (rows0 & Hrun & Hids & Hall).
  exists (py_sorted (fun x => - best_score x)%Q rows0), rows0.
  unfold aggregate. rewrite Hrun. cbn [bind].
  repeat split; auto.
  - apply py_sorted_perm.
  - apply py_sorted_descending.
  - apply py_sorted_ties.
Qed.

(** C3.  For every list of hits and [per_component >= 1] the aggregator
    returns rows that are: one per component id, made in the order the
    components' first hits arrive ([rows0]); each holding the first
    [per_component] of its component's hits sorted by descending score,
    with [best_score] the maximum of the group; and returned in descending
    [best_score], rows with equal [best_score] staying in discovery order.
    On the specification's example the result is
    [{A, 0.9, [(A,0.9)]}; {B, 0.5, [(B,0.5)]}]. *)
Theorem aggregate_groups_sorts_and_ranks (hits : list hit)
    (per_component : Z) :
  1 <= per_component ->
  (exists rows rows0,
     aggregate hits per_component = Ok rows /\
     map row_component_id rows0 = discovery_order hits [] /\
     Forall (row_of_group hits per_component) rows0 /\
     Permutation rows rows0 /\
     descending best_score rows /\
     ties_in_order_of best_score rows0 rows) /\
  aggregate example_hits 1 = Ok example_rows.
Proof.
  intros Hpc. split.
  - apply aggregate_core. lia.
  - vm_compute. reflexivity.
Qed.

Lemma aggregate_groups_sorts_and_ranks_witness :
  (exists rows rows0,
     aggregate example_hits 1 = Ok rows /\
     map row_component_id rows0 = discovery_order example_hits [] /\
     Forall (row_of_group example_hits 1) rows0 /\
     Permutation rows rows0 /\
     descending best_score rows /\
     ties_in_order_of best_score rows0 rows) /\
  aggregate example_hits 1 = Ok example_rows.
Proof.
  apply (aggregate_groups_sorts_and_ranks example_hits 1). lia.
Defined.

(** The invariants of one row, in terms of the input hits alone. *)
Lemma row_of_group_invariants (hits : list hit) (per_component : Z) (r : row) :
  1 <= per_component ->
  row_of_group hits per_component r ->
  top_chunks r <> [] /\
  Forall (fun h => component_id h = row_component_id r) (top_chunks r) /\
  (forall h, In h hits -> component_id h = row_component_id r ->
             (score h <= best_score r)%Q) /\
  (exists h, In h hits /\ component_id h = row_component_id r /\
             score h = best_score r).
Proof.
  intros Hpc (h0 & others & Hperm & _ & _ & Hbest & _ & _ & Hmax & Htop).
  assert (Hmem : forall h, In h (h0 :: others) ->
                           In h hits /\ component_id h = row_component_id r).
  { intros h Hh. apply hits_of_In. apply (Permutation_in _ Hperm), Hh. }
  repeat split.
  - rewrite Htop. destruct (Z.to_nat per_component) eqn:Hn; [lia|].
    simpl. discriminate.
  - rewrite Htop. apply List.Forall_forall. intros h Hh.
    apply Hmem.
    rewrite <- (firstn_skipn (Z.to_nat per_component) (h0 :: others)).
    apply in_or_app. left. exact Hh.
  - intros h Hh Hc. apply Hmax. apply hits_of_In. auto.
  - exists h0. destruct (Hmem h0) as [Hin Hc]; [left; reflexivity|].
    repeat split; auto.
Qed.

(** The discovered components are the distinct component ids. *)
Lemma discovery_order_count (hits : list hit) :
  length (discovery_order hits [])
  = length (nodup pystr_eq_dec (map component_id hits)).
Proof.
  apply Permutation_length, Permutation.NoDup_Permutation.
  - apply discovery_order_NoDup.
  - apply NoDup_nodup.
  - intros c. rewrite discovery_order_In, nodup_In. simpl. tauto.
Qed.

(** C10.  For every list of hits and [per_component >= 1]: every returned
    row has a non-empty [top_chunks], all of whose chunks carry the row's
    [component_id]; the row's [best_score] is the maximum score among the
    input hits of that component; and there are as many rows as distinct
    component ids among the hits. *)
Theorem aggregate_rows_invariants (hits : list hit) (per_component : Z) :
  1 <= per_component ->
  exists rows,
    aggregate hits per_component = Ok rows /\
    Forall (fun r =>
      top_chunks r <> [] /\
      Forall (fun h => component_id h = row_component_id r) (top_chunks r) /\
      (forall h, In h hits -> component_id h = row_component_id r ->
                 (score h <= best_score r)%Q) /\
      (exists h, In h hits /\ component_id h = row_component_id r /\
                 score h = best_score r)) rows /\
    length rows = length (nodup pystr_eq_dec (map component_id hits)).
Proof.
  intros Hpc.
  destruct (aggregate_core hits per_component)
    as (rows & rows0 & Hrun & Hids & Hall & Hperm & _ & _); [lia|].
  exists rows. split; [exact Hrun|]. split.
  - apply List.Forall_forall. intros r Hr.
    apply row_of_group_invariants with (per_component := per_component);
      [exact Hpc|].
    rewrite List.Forall_forall in Hall. apply Hall.
    apply (Permutation_in _ Hperm), Hr.
  - rewrite (Permutation_length Hperm), <- discovery_order_count, <- Hids.
    rewrite length_map. reflexivity.
Qed.

Lemma aggregate_rows_invariants_witness :
  exists rows,
    aggregate example_hits 2 = Ok rows /\
    Forall (fun r =>
      top_chunks r <> [] /\
      Forall (fun h => component_id h = row_component_id r) (top_chunks r) /\
      (forall h, In h example_hits -> component_id h = row_component_id r ->
                 (score h <= best_score r)%Q) /\
      (exists h, In h example_hits /\ component_id h = row_component_id r /\
                 score h = best_score r)) rows /\
    length rows
    = length (nodup pystr_eq_dec (map component_id example_hits)).
Proof.
  apply (aggregate_rows_invariants example_hits 2). lia.
Defined.

(** With two chunks per component the example keeps both hits of A, the
    better one first. *)
Example aggregate_example_two_per_component :
  aggregate example_hits 2
  = Ok [ Row (str "A") (str "Alpha") (str "src/Alpha.tsx") (9 # 10)
           [hit_A1; hit_A2];
         Row (str "B") (str "Beta") (str "src/Beta.tsx") (5 # 10) [hit_B1] ].
Proof. vm_compute. reflexivity. Qed.

(** An empty hit list gives an empty result, not an error. *)
Example aggregate_no_hits (per_component : Z) :
  aggregate [] per_component = Ok [].
Proof. reflexivity. Qed.

(* ===================================================================== *)
(** * Proofs: JSON sizes                                                  *)
(* ===================================================================== *)

(** Induction over a JSON value and the values nested in it. *)
Lemma pyval_ind (P : pyval -> Prop) :
  P PNone ->
  (forall b, P (PBool b)) ->
  (forall n, P (PInt n)) ->
  (forall q, P (PFloat q)) ->
  (forall s, P (PStr s)) ->
  (forall items, Forall P items -> P (PList items)) ->
  (forall members, Forall (fun kv => P (snd kv)) members ->
                   P (PDict members)) ->
  forall v, P v.
Proof.
  intros HN HB HI HF HS HL HD. fix IH 1.
  intros [ |b|n|q|s|items|members].
  - exact HN.
  - apply HB.
  - apply HI.
  - apply HF.
  - apply HS.
  - apply HL. revert items. fix IHl 1.
    intros [|x l]; constructor; [apply IH|apply IHl].
  - apply HD. revert members. fix IHm 1.
    intros [|[k x] m]; constructor; [apply IH|apply IHm].
Qed.



Lemma joined_len_total (sep : Z) (sizes : list Z) :
  sizes <> [] ->
  joined_len sep sizes = total sizes + sep * (py_len sizes - 1).
Proof.
  induction sizes as [|n [|m rest] IH]; intros Hne; [congruence| |].
  - unfold py_len. simpl. lia.
  - change (joined_len sep (n :: m :: rest))
      with (n + sep + joined_len sep (m :: rest)).
    rewrite IH by discriminate.
    unfold py_len. simpl length. simpl total. lia.
Qed.

Lemma joined_len_mono (sep sep' : Z) (sizes sizes' : list Z) :
  sep <= sep' -> Forall2 Z.le sizes sizes' ->
  joined_len sep sizes <= joined_len sep' sizes'.
Proof.
  intros Hsep Hall. induction Hall as [|n n' rest rest' Hn Hrest IH];
    [reflexivity|].
  destruct Hrest as [|m m' rest rest' Hm Hrest]; [simpl; lia|].
  change (joined_len sep (n :: m :: rest))
    with (n + sep + joined_len sep (m :: rest)).
  change (joined_len sep' (n' :: m' :: rest'))
    with (n' + sep' + joined_len sep' (m' :: rest')).
  lia.
Qed.



(** The compact separators never make a dump longer. *)
Lemma dumps_len_compact_le (v : pyval) : dumps_len 1 1 v <= dumps_len 2 2 v.
Proof.
  induction v as [ |b|n|q|s|items IH|members IH] using pyval_ind;
    simpl; try lia.
  - assert (joined_len 1 (map (dumps_len 1 1) items)
            <= joined_len 2 (map (dumps_len 2 2) items)); [|lia].
    apply joined_len_mono; [lia|].
    induction IH; simpl; constructor; auto.
  - assert (joined_len 1
              (map (fun kv : pystr * pyval =>
                      let '(k, x) := kv in json_str_len k + 1 + dumps_len 1 1 x)
                   members)
            <= joined_len 2
              (map (fun kv : pystr * pyval =>
                      let '(k, x) := kv in json_str_len k + 2 + dumps_len 2 2 x)
                   members)); [|lia].
    apply joined_len_mono; [lia|].
    induction IH as [|[k x] m Hx Hm IHm]; simpl; constructor; auto.
    simpl in Hx. lia.
Qed.

(* ===================================================================== *)
(** * Proofs: the size-bounded partitioner                                *)
(* ===================================================================== *)

Lemma total_app (xs ys : list Z) : total (xs ++ ys) = total xs + total ys.
Proof. unfold total. induction xs as [|x xs IH]; simpl; lia. Qed.

Lemma accounted_size_snoc (batch : list pyval) (doc : pyval) :
  accounted_size (batch ++ [doc]) = accounted_size batch + dumps_len 2 2 doc.
Proof.
  unfold accounted_size. rewrite map_app, total_app. simpl. lia.
Qed.





(** Documents that are two bytes shorter under the compact separators, as
    every object with two members is, keep the file within the accounted
    size. *)
Lemma file_size_within_accounted (batch : list pyval) :
  batch <> [] ->
  Forall (fun d => dumps_len 1 1 d + 2 <= dumps_len 2 2 d) batch ->
  file_size batch <= accounted_size batch.
Proof.
  intros Hne Hall. unfold file_size, accounted_size. simpl.
  rewrite joined_len_total by (destruct batch; [congruence|discriminate]).
  assert (Hle : total (map (dumps_len 1 1) batch) + 2 * py_len batch
                <= total (map (dumps_len 2 2) batch)).
  { clear Hne. unfold total, py_len.
    induction Hall as [|d batch Hd Hall IH]; simpl length; simpl; lia. }
  assert (1 <= py_len batch)
    by (destruct batch; [congruence|unfold py_len; simpl; lia]).
  unfold py_len in *. rewrite length_map. lia.
Qed.



(** With a bound of zero every document is larger than the bound and gets
    a file of its own. *)
Example split_file_by_size_singletons :
  split_file_by_size [doc_c1; doc_c2] 0
  = ([(1, [doc_c1]); (2, [doc_c2])], None).
Proof. vm_compute. reflexivity. Qed.

(** A [Decimal] stops the run with [TypeError]; files already written
    remain. *)
Example split_file_by_size_decimal :
  split_file_by_size
    [doc_c1; PDict [(str "ratio", PFloat (3 # 2))]; doc_c2] 0
  = ([], Some TypeError).
Proof. vm_compute. reflexivity. Qed.






(* ===================================================================== *)
(** * Proofs: trimming                                                    *)
(* ===================================================================== *)

Lemma lstrip_head_clean (s : pystr) : head_clean (lstrip s) = true.
Proof.
  induction s as [|c s IH]; [reflexivity|]. simpl.
  destruct (isspace c) eqn:Hc; [exact IH|]. simpl. rewrite Hc. reflexivity.
Qed.

Lemma lstrip_fixed (s : pystr) : head_clean s = true -> lstrip s = s.
Proof.
  destruct s as [|c s]; [reflexivity|]. simpl.
  destruct (isspace c); [discriminate|reflexivity].
Qed.

Lemma tail_clean_snoc (s : pystr) (c : ascii) :
  tail_clean (s ++ [c]) = negb (isspace c).
Proof.
  induction s as [|d s IH]; [reflexivity|].
  change ((d :: s) ++ [c]) with (d :: (s ++ [c])).
  cbn [tail_clean]. destruct (s ++ [c]) eqn:Hs; [|exact IH].
  destruct s; discriminate.
Qed.

Lemma tail_clean_rev (s : pystr) : tail_clean (rev s) = head_clean s.
Proof. destruct s as [|c s]; [reflexivity|]. simpl. apply tail_clean_snoc. Qed.

Lemma head_clean_rev (s : pystr) : head_clean (rev s) = tail_clean s.
Proof. rewrite <- tail_clean_rev, rev_involutive. reflexivity. Qed.

Lemma rstrip_tail_clean (s : pystr) : tail_clean (rstrip s) = true.
Proof. unfold rstrip. rewrite tail_clean_rev. apply lstrip_head_clean. Qed.

Lemma rstrip_fixed (s : pystr) : tail_clean s = true -> rstrip s = s.
Proof.
  intros Hs. unfold rstrip. rewrite lstrip_fixed; [apply rev_involutive|].
  rewrite head_clean_rev. exact Hs.
Qed.

(** Trimming on the left keeps a clean end. *)
Lemma lstrip_tail_clean (s : pystr) :
  tail_clean s = true -> tail_clean (lstrip s) = true.
Proof.
  induction s as [|c s IH]; [reflexivity|]. intros Hs. simpl lstrip.
  destruct (isspace c) eqn:Hc; [|exact Hs].
  apply IH. cbn [tail_clean] in Hs. destruct s; [|exact Hs].
  rewrite Hc in Hs. discriminate.
Qed.

Lemma lstrip_nonempty (s : pystr) :
  tail_clean s = true -> s <> [] -> lstrip s <> [].
Proof.
  induction s as [|c s IH]; [congruence|]. intros Hs _. simpl lstrip.
  destruct (isspace c) eqn:Hc; [|discriminate].
  cbn [tail_clean] in Hs. destruct s as [|d s].
  - rewrite Hc in Hs. discriminate.
  - apply IH; [exact Hs|discriminate].
Qed.

(** Trimming on the right keeps a clean start. *)
Lemma rstrip_head_clean (s : pystr) :
  head_clean s = true -> head_clean (rstrip s) = true.
Proof.
  intros Hs. unfold rstrip. rewrite head_clean_rev.
  apply lstrip_tail_clean. rewrite tail_clean_rev. exact Hs.
Qed.

Lemma strip_clean (s : pystr) :
  head_clean (strip s) = true /\ tail_clean (strip s) = true.
Proof.
  unfold strip. split.
  - apply rstrip_head_clean, lstrip_head_clean.
  - apply rstrip_tail_clean.
Qed.

Lemma strip_fixed (s : pystr) :
  head_clean s = true -> tail_clean s = true -> strip s = s.
Proof.
  intros Hh Ht. unfold strip. rewrite lstrip_fixed by exact Hh.
  apply rstrip_fixed, Ht.
Qed.

Lemma strip_idempotent (s : pystr) : strip (strip s) = strip s.
Proof. destruct (strip_clean s). apply strip_fixed; assumption. Qed.

(** What [lstrip] leaves is what remains after its own length is cut. *)
Lemma lstrip_skipn (s : pystr) :
  skipn (length s - length (lstrip s)) s = lstrip s.
Proof.
  induction s as [|c s IH]; [reflexivity|]. simpl lstrip.
  destruct (isspace c).
  - pose proof (lstrip_length s).
    replace (length (c :: s) - length (lstrip s))%nat
      with (S (length s - length (lstrip s))) by (simpl; lia).
    exact IH.
  - rewrite Nat.sub_diag. reflexivity.
Qed.

(* ===================================================================== *)
(** * Proofs: regular expressions                                         *)
(* ===================================================================== *)

(** Passing over [n] characters of a match, then scanning on. *)
Lemma sub_from_skip (r : regex) (repl : pystr) :
  forall n s, (n <= length s)%nat ->
    sub_from r repl s n = sub_from r repl (skipn n s) O.
Proof.
  induction n as [|n IH]; intros s Hn; [reflexivity|].
  destruct s as [|c s]; [simpl in Hn; lia|]. simpl skipn.
  rewrite <- IH by (simpl in Hn; lia). reflexivity.
Qed.

Lemma split_from_skip (r : regex) :
  forall n s cur, split_from r s n cur = split_from r (skipn n s) O cur.
Proof.
  induction n as [|n IH]; intros s cur; [reflexivity|].
  destruct s as [|c s]; [reflexivity|]. simpl skipn. rewrite <- IH.
  reflexivity.
Qed.

(** ** Matches consume text *)

Lemma greedy_shrinks (p : ascii -> bool) (d : nat)
    (k : pystr -> option pystr) :
  shrinks_by d k -> shrinks_by d (greedy p k).
Proof.
  intros Hk s. induction s as [|c s IH]; intros rest; simpl.
  - apply Hk.
  - destruct (p c); [|apply Hk].
    destruct (greedy p k s) as [rest'|] eqn:Hg.
    + intros [= <-]. specialize (IH _ eq_refl). simpl. lia.
    + apply Hk.
Qed.

Lemma lazy_shrinks (p : ascii -> bool) (d : nat)
    (k : pystr -> option pystr) :
  shrinks_by d k -> shrinks_by d (lazy p k).
Proof.
  intros Hk s. induction s as [|c s IH]; intros rest; simpl.
  - destruct (k []) eqn:Hnil; [|discriminate].
    intros [= <-]. apply (Hk _ _ Hnil).
  - destruct (k (c :: s)) eqn:Hcons.
    + intros [= <-]. apply (Hk _ _ Hcons).
    + destruct (p c); [|discriminate].
      intros Hl. specialize (IH _ Hl). simpl. lia.
Qed.

Lemma class_shrinks (p : ascii -> bool) (d : nat)
    (k : pystr -> option pystr) :
  shrinks_by d k -> shrinks_by (S d) (rmatch (RClass p) k).
Proof.
  intros Hk [|c s] rest; simpl; [discriminate|].
  destruct (p c); [|discriminate].
  intros Hrest. specialize (Hk _ _ Hrest). lia.
Qed.

Lemma shrinks_by_weaken (d : nat) (k : pystr -> option pystr) :
  shrinks_by (S d) k -> shrinks_by d k.
Proof.
  intros Hk s rest Hrest. specialize (Hk _ _ Hrest). lia.
Qed.

Lemma rmatch_shrinks (r : regex) :
  forall d k, shrinks_by d k -> shrinks_by d (rmatch r k).
Proof.
  induction r as [p|r1 IH1 r2 IH2|r1 IH1|p|p|p]; intros d k Hk.
  - apply shrinks_by_weaken, class_shrinks, Hk.
  - simpl. apply IH1, IH2, Hk.
  - intros s rest. simpl.
    destruct (rmatch r1 k s) eqn:Hr1.
    + intros [= <-]. apply (IH1 _ _ Hk _ _ Hr1).
    + apply Hk.
  - intros [|c s] rest; simpl; [discriminate|].
    destruct (p c); [|discriminate].
    intros Hg. apply (greedy_shrinks p d k Hk) in Hg. lia.
  - apply greedy_shrinks, Hk.
  - apply lazy_shrinks, Hk.
Qed.

Lemma rmatch_consumes (r : regex) :
  consuming r = true ->
  forall d k, shrinks_by d k -> shrinks_by (S d) (rmatch r k).
Proof.
  induction r as [p|r1 IH1 r2 IH2|r1 IH1|p|p|p]; simpl; intros Hr d k Hk;
    try discriminate.
  - apply class_shrinks, Hk.
  - destruct (consuming r1).
    + apply IH1; [reflexivity|]. apply rmatch_shrinks, Hk.
    + apply rmatch_shrinks, IH2; [exact Hr|exact Hk].
  - intros [|c s] rest; simpl; [discriminate|].
    destruct (p c); [|discriminate].
    intros Hg. apply (greedy_shrinks p d k Hk) in Hg. lia.
Qed.

(** A match of a consuming pattern leaves strictly less text. *)
Lemma consuming_match_shrinks (r : regex) (s rest : pystr) :
  consuming r = true -> match_at r s = Some rest ->
  (length rest < length s)%nat.
Proof.
  intros Hr Hm.
  assert (Hsome : shrinks_by 0 Some).
  { intros s' rest' [= <-]. lia. }
  pose proof (rmatch_consumes r Hr 0%nat Some Hsome s rest Hm). lia.
Qed.

(** The six patterns of the repository consume text on every match. *)
Lemma repository_patterns_consume :
  forallb consuming
    [re_whitespace; re_import; re_export; re_react_annotation;
     re_react_generic; re_statement_end] = true.
Proof. reflexivity. Qed.

(** A text in which the pattern occurs nowhere is left as it is. *)
Lemma re_sub_no_match (r : regex) (repl s : pystr) :
  re_search r s = false -> re_sub r repl s = s.
Proof.
  unfold re_sub. induction s as [|c s IH]; simpl; intros Hs.
  - destruct (match_at r []); [discriminate|reflexivity].
  - destruct (match_at r (c :: s)); [discriminate|].
    rewrite IH by exact Hs. reflexivity.
Qed.

(** A greedy run with nothing to satisfy afterwards takes the whole run. *)
Lemma greedy_isspace (s : pystr) : greedy isspace Some s = Some (lstrip s).
Proof.
  induction s as [|c s IH]; [reflexivity|]. simpl.
  destruct (isspace c); [rewrite IH|]; reflexivity.
Qed.

Lemma match_at_whitespace (s : pystr) :
  match_at re_whitespace s
  = match s with
    | c :: s' => if isspace c then Some (lstrip s') else None
    | [] => None
    end.
Proof.
  destruct s as [|c s]; [reflexivity|]. unfold match_at. simpl.
  destruct (isspace c); [apply greedy_isspace|reflexivity].
Qed.

(** The two equations of [re.sub(r'\s+', ' ', _)]. *)
Lemma collapse_space (c : ascii) (s : pystr) :
  isspace c = true ->
  re_sub re_whitespace (str " ") (c :: s)
  = " "%char :: re_sub re_whitespace (str " ") (lstrip s).
Proof.
  intros Hc. unfold re_sub. cbn [sub_from].
  rewrite match_at_whitespace, Hc.
  pose proof (lstrip_length s).
  replace (length (c :: s) - length (lstrip s))%nat
    with (S (length s - length (lstrip s))) by (simpl; lia).
  rewrite sub_from_skip by lia. rewrite lstrip_skipn. reflexivity.
Qed.

Lemma collapse_other (c : ascii) (s : pystr) :
  isspace c = false ->
  re_sub re_whitespace (str " ") (c :: s)
  = c :: re_sub re_whitespace (str " ") s.
Proof.
  intros Hc. unfold re_sub. cbn [sub_from].
  rewrite match_at_whitespace, Hc. reflexivity.
Qed.

(* ===================================================================== *)
(** * Proofs: the text normalizer                                         *)
(* ===================================================================== *)

(** Collapsing keeps the text empty or not, and clean at its start or
    not. *)
Lemma collapse_head (t : pystr) :
  head_clean (re_sub re_whitespace (str " ") t) = head_clean t /\
  truthy (re_sub re_whitespace (str " ") t) = truthy t.
Proof.
  destruct t as [|c t]; [split; reflexivity|].
  destruct (isspace c) eqn:Hc.
  - rewrite collapse_space by exact Hc. cbn [head_clean truthy].
    rewrite Hc. split; reflexivity.
  - rewrite collapse_other by exact Hc. cbn [head_clean truthy].
    rewrite Hc. split; reflexivity.
Qed.

(** After collapsing, a text with a clean end is single-spaced. *)
Lemma collapse_single_spaced :
  forall (n : nat) (t : pystr),
    (length t <= n)%nat -> tail_clean t = true ->
    single_spaced (re_sub re_whitespace (str " ") t) = true.
Proof.
  induction n as [|n IH]; intros t Hlen Ht.
  - destruct t; [reflexivity|simpl in Hlen; lia].
  - destruct t as [|c t]; [reflexivity|].
    assert (Ht' : tail_clean t = true).
    { cbn [tail_clean] in Ht. destruct t; [reflexivity|exact Ht]. }
    destruct (isspace c) eqn:Hc.
    + assert (Hne : t <> []).
      { intros ->. simpl in Ht. rewrite Hc in Ht. discriminate. }
      rewrite collapse_space by exact Hc.
      destruct (collapse_head (lstrip t)) as [Hh Htr].
      change (single_spaced (" "%char
                :: re_sub re_whitespace (str " ") (lstrip t)))
        with (truthy (re_sub re_whitespace (str " ") (lstrip t))
              && head_clean (re_sub re_whitespace (str " ") (lstrip t))
              && single_spaced (re_sub re_whitespace (str " ") (lstrip t))).
      rewrite Hh, Htr, lstrip_head_clean.
      rewrite IH.
      * pose proof (lstrip_nonempty t Ht' Hne).
        destruct (lstrip t); [congruence|reflexivity].
      * pose proof (lstrip_length t). simpl in Hlen. lia.
      * apply lstrip_tail_clean, Ht'.
    + rewrite collapse_other by exact Hc. cbn [single_spaced]. rewrite Hc.
      apply IH; [simpl in Hlen; lia|exact Ht'].
Qed.

(** Collapsing leaves a single-spaced text as it is. *)
Lemma collapse_fixed (y : pystr) :
  single_spaced y = true -> re_sub re_whitespace (str " ") y = y.
Proof.
  induction y as [|c y IH]; [reflexivity|]. cbn [single_spaced].
  destruct (isspace c) eqn:Hc; intros Hy.
  - apply andb_true_iff in Hy as [Hy Hs].
    apply andb_true_iff in Hy as [Hy Hh].
    apply andb_true_iff in Hy as [Heq _].
    apply Ascii.eqb_eq in Heq. subst c.
    rewrite collapse_space by exact Hc.
    rewrite lstrip_fixed by exact Hh. rewrite IH by exact Hs. reflexivity.
  - rewrite collapse_other by exact Hc. rewrite IH by exact Hy. reflexivity.
Qed.

Lemma single_spaced_tail_clean (y : pystr) :
  single_spaced y = true -> tail_clean y = true.
Proof.
  induction y as [|c y IH]; [reflexivity|]. cbn [single_spaced tail_clean].
  destruct (isspace c) eqn:Hc; intros Hy.
  - apply andb_true_iff in Hy as [Hy Hs].
    apply andb_true_iff in Hy as [Hy _].
    apply andb_true_iff in Hy as [_ Htr].
    destruct y; [discriminate|]. apply IH, Hs.
  - destruct y; [reflexivity|]. apply IH, Hy.
Qed.

(** The whitespace-normal form: what the first statement of [clean_text]
    produces is trimmed and single-spaced, and both steps leave it alone. *)
Lemma collapse_whitespace_normal (x : pystr) :
  let y := collapse_whitespace x in
  strip y = y /\ collapse_whitespace y = y.
Proof.
  unfold collapse_whitespace.
  destruct (strip_clean x) as [Hh Ht].
  destruct (collapse_head (strip x)) as [Hh' _].
  pose proof (collapse_single_spaced _ (strip x) (Nat.le_refl _) Ht) as Hs.
  assert (Hfix : strip (re_sub re_whitespace (str " ") (strip x))
                 = re_sub re_whitespace (str " ") (strip x)).
  { apply strip_fixed; [congruence|].
    apply single_spaced_tail_clean, Hs. }
  cbv zeta. split; [exact Hfix|].
  rewrite Hfix. apply collapse_fixed, Hs.
Qed.

Lemma remove_artifacts_fixed (y : pystr) :
  artifact_free y = true -> remove_artifacts y = y.
Proof.
  unfold artifact_free, remove_artifacts. intros H.
  apply andb_true_iff in H as [H H4].
  apply andb_true_iff in H as [H H3].
  apply andb_true_iff in H as [H1 H2].
  apply negb_true_iff in H1, H2, H3, H4.
  rewrite (re_sub_no_match re_import) by exact H1.
  rewrite (re_sub_no_match re_export) by exact H2.
  rewrite (re_sub_no_match re_react_annotation) by exact H3.
  apply re_sub_no_match, H4.
Qed.

(** Without artifacts, cleaning is whitespace normalization, and cleaning
    the result changes nothing. *)
Lemma clean_str_artifact_free (x : pystr) :
  artifact_free (collapse_whitespace x) = true ->
  clean_str x = collapse_whitespace x /\
  clean_str (collapse_whitespace x) = collapse_whitespace x.
Proof.
  intros Hfree.
  destruct (collapse_whitespace_normal x) as [Hstrip Hcollapse].
  cbv zeta in Hstrip, Hcollapse.
  unfold clean_str. split.
  - rewrite remove_artifacts_fixed by exact Hfree. exact Hstrip.
  - rewrite Hcollapse. rewrite remove_artifacts_fixed by exact Hfree.
    exact Hstrip.
Qed.

Lemma clean_text_str (s : pystr) :
  clean_text (PStr s) = Ok (if truthy s then clean_str s else []).
Proof. unfold clean_text. simpl. destruct s; reflexivity. Qed.

(** Removing matches never lengthens the text. *)
Lemma sub_from_length (r : regex) (s : pystr) :
  forall skip, (length (sub_from r [] s skip) <= length s)%nat.
Proof.
  induction s as [|c s IH]; intros [|n]; cbn [sub_from].
  - destruct (match_at r []); simpl; lia.
  - simpl; lia.
  - destruct (match_at r (c :: s)) as [rest|].
    + destruct (length (c :: s) - length rest)%nat;
        cbn [app length]; [specialize (IH O)|specialize (IH n)]; lia.
    + cbn [length]. specialize (IH O). lia.
  - cbn [length]. specialize (IH n). lia.
Qed.

(** Where a consuming pattern occurs, removing it shortens the text. *)
Lemma re_sub_shortens (r : regex) (s : pystr) :
  consuming r = true -> re_search r s = true ->
  (length (re_sub r [] s) < length s)%nat.
Proof.
  intros Hr. unfold re_sub.
  induction s as [|c s IH]; cbn [re_search sub_from]; intros Hs.
  - destruct (match_at r []) as [rest|] eqn:Hm; [|discriminate].
    apply (consuming_match_shrinks r _ _ Hr) in Hm. simpl in Hm. lia.
  - destruct (match_at r (c :: s)) as [rest|] eqn:Hm.
    + apply (consuming_match_shrinks r _ _ Hr) in Hm.
      destruct (length (c :: s) - length rest)%nat as [|n] eqn:Hd;
        [lia|].
      cbn [app length]. pose proof (sub_from_length r s n). lia.
    + cbn [length]. specialize (IH Hs). lia.
Qed.

(** A removal that keeps the length found nothing to remove. *)
Lemma re_sub_same_length (r : regex) (s : pystr) :
  consuming r = true ->
  length (re_sub r [] s) = length s ->
  re_search r s = false /\ re_sub r [] s = s.
Proof.
  intros Hr Hlen.
  destruct (re_search r s) eqn:Hs.
  - pose proof (re_sub_shortens r s Hr Hs). lia.
  - split; [reflexivity|apply re_sub_no_match, Hs].
Qed.

Lemma lstrip_same_length (s : pystr) :
  length (lstrip s) = length s -> lstrip s = s.
Proof.
  destruct s as [|c s]; [reflexivity|]. cbn [lstrip].
  destruct (isspace c); [|reflexivity].
  intros Hlen. pose proof (lstrip_length s). simpl in Hlen. lia.
Qed.

Lemma strip_length_nat (s : pystr) : (length (strip s) <= length s)%nat.
Proof. pose proof (strip_length s). unfold py_len in *. lia. Qed.

Lemma strip_same_length (s : pystr) :
  length (strip s) = length s -> strip s = s.
Proof.
  unfold strip, rstrip. rewrite length_rev. intros Hlen.
  pose proof (lstrip_length (rev (lstrip s))) as H1.
  pose proof (lstrip_length s) as H2. rewrite length_rev in H1.
  assert (Hl : lstrip s = s) by (apply lstrip_same_length; lia).
  rewrite Hl in *.
  rewrite lstrip_same_length by (rewrite length_rev; lia).
  apply rev_involutive.
Qed.

(** Collapsing whitespace never lengthens the text. *)
Lemma collapse_length :
  forall (n : nat) (t : pystr),
    (length t <= n)%nat ->
    (length (re_sub re_whitespace (str " ") t) <= length t)%nat.
Proof.
  induction n as [|n IH]; intros t Hlen.
  - destruct t; [simpl; lia|simpl in Hlen; lia].
  - destruct t as [|c t]; [simpl; lia|].
    destruct (isspace c) eqn:Hc.
    + rewrite collapse_space by exact Hc.
      pose proof (lstrip_length t) as Hl.
      specialize (IH (lstrip t)). cbn [length] in *. lia.
    + rewrite collapse_other by exact Hc.
      specialize (IH t). cbn [length] in *. lia.
Qed.

Lemma remove_artifacts_length (t : pystr) :
  (length (remove_artifacts t) <= length t)%nat.
Proof.
  unfold remove_artifacts, re_sub. cbv zeta.
  pose proof (sub_from_length re_import t O).
  pose proof (sub_from_length re_export (sub_from re_import [] t O) O).
  pose proof (sub_from_length re_react_annotation
                (sub_from re_export [] (sub_from re_import [] t O) O) O).
  pose proof (sub_from_length re_react_generic
                (sub_from re_react_annotation []
                   (sub_from re_export [] (sub_from re_import [] t O) O) O)
                O).
  lia.
Qed.

(** The four removals keep the length only of a text without artifacts. *)
Lemma remove_artifacts_same_length (t : pystr) :
  length (remove_artifacts t) = length t ->
  artifact_free t = true /\ remove_artifacts t = t.
Proof.
  unfold remove_artifacts. cbv zeta. intros Hlen.
  pose proof (sub_from_length re_import t O) as H1.
  pose proof (sub_from_length re_export (re_sub re_import [] t) O) as H2.
  pose proof (sub_from_length re_react_annotation
                (re_sub re_export [] (re_sub re_import [] t)) O) as H3.
  pose proof (sub_from_length re_react_generic
                (re_sub re_react_annotation []
                   (re_sub re_export [] (re_sub re_import [] t))) O) as H4.
  fold (re_sub re_import [] t) in H1.
  fold (re_sub re_export [] (re_sub re_import [] t)) in H2.
  fold (re_sub re_react_annotation []
          (re_sub re_export [] (re_sub re_import [] t))) in H3.
  fold (re_sub re_react_generic []
          (re_sub re_react_annotation []
             (re_sub re_export [] (re_sub re_import [] t)))) in H4.
  destruct (re_sub_same_length re_import t eq_refl) as [S1 E1]; [lia|].
  rewrite E1 in *.
  destruct (re_sub_same_length re_export t eq_refl) as [S2 E2]; [lia|].
  rewrite E2 in *.
  destruct (re_sub_same_length re_react_annotation t eq_refl) as [S3 E3];
    [lia|].
  rewrite E3 in *.
  destruct (re_sub_same_length re_react_generic t eq_refl) as [S4 E4];
    [lia|].
  split; [|exact E4].
  unfold artifact_free. rewrite S1, S2, S3, S4. reflexivity.
Qed.

(** A text that cleaning leaves alone is in normal form. *)
Lemma clean_str_fixed_normal (y : pystr) :
  clean_str y = y -> single_spaced y = true /\ artifact_free y = true.
Proof.
  unfold clean_str. cbv zeta. intros Hfix.
  pose proof (strip_length_nat (remove_artifacts (collapse_whitespace y)))
    as H1.
  pose proof (remove_artifacts_length (collapse_whitespace y)) as H2.
  pose proof (collapse_length _ (strip y) (Nat.le_refl _)) as H3.
  fold (collapse_whitespace y) in H3.
  pose proof (strip_length_nat y) as H4.
  rewrite Hfix in H1.
  destruct (remove_artifacts_same_length (collapse_whitespace y))
    as [Hfree Hkeep]; [lia|].
  rewrite Hkeep in Hfix.
  destruct (collapse_whitespace_normal y) as [Hstrip _].
  cbv zeta in Hstrip. rewrite Hstrip in Hfix.
  rewrite <- Hfix. split; [|exact Hfree].
  unfold collapse_whitespace.
  apply (collapse_single_spaced _ (strip y) (Nat.le_refl _)).
  apply strip_clean.
Qed.

(** What cleaning returns, cleaning leaves alone when it is in normal
    form. *)
Lemma clean_str_normal_fixed (y : pystr) :
  strip y = y -> single_spaced y = true -> artifact_free y = true ->
  clean_str y = y.
Proof.
  intros Hstrip Hs Hfree. unfold clean_str, collapse_whitespace. cbv zeta.
  rewrite Hstrip, (collapse_fixed y Hs).
  rewrite remove_artifacts_fixed by exact Hfree. exact Hstrip.
Qed.

Lemma clean_str_stripped (s : pystr) : strip (clean_str s) = clean_str s.
Proof. unfold clean_str. apply strip_idempotent. Qed.

(** A second cleaning of a cleaned text changes nothing exactly when the
    cleaned text is in normal form. *)
Lemma clean_str_twice_iff (s : pystr) :
  clean_str (clean_str s) = clean_str s
  <-> single_spaced (clean_str s) = true
      /\ artifact_free (clean_str s) = true.
Proof.
  split.
  - apply clean_str_fixed_normal.
  - intros [Hs Hfree].
    apply clean_str_normal_fixed; [apply clean_str_stripped| |]; assumption.
Qed.

(** Text in whose whitespace-normal form no pattern occurs is cleaned to
    a normal form. *)
Lemma plain_text_normal (s : pystr) :
  artifact_free (collapse_whitespace s) = true ->
  single_spaced (clean_str s) = true /\ artifact_free (clean_str s) = true.
Proof.
  intros Hfree.
  destruct (clean_str_artifact_free s Hfree) as [-> _].
  split; [|exact Hfree].
  unfold collapse_whitespace.
  apply (collapse_single_spaced _ (strip s) (Nat.le_refl _)).
  apply strip_clean.
Qed.

(** C4 (amended).  [clean_text] is total on strings and [None]: it returns
    a string and raises nothing, and [None] and the empty string give the
    empty string.  A second call returns the same string exactly when the
    string the first call returned is in normal form: single-spaced, and
    with none of the four removal patterns in it. *)
Theorem clean_text_total_and_idempotent_where_normal (x : option pystr) :
  exists out,
    clean_text (of_optional x) = Ok out /\
    (x = None \/ x = Some [] -> out = []) /\
    (clean_twice (of_optional x) = clean_text (of_optional x)
     <-> single_spaced out = true /\ artifact_free out = true).
Proof.
  destruct x as [[|c s]|].
  - exists []. split; [reflexivity|]. split; [reflexivity|].
    split; [intros _; split; reflexivity|reflexivity].
  - exists (clean_str (c :: s)). split; [reflexivity|].
    split; [intros [H|H]; discriminate H|].
    unfold clean_twice. cbn [of_optional].
    rewrite (clean_text_str (c :: s)). cbn [truthy bind].
    rewrite clean_text_str.
    destruct (clean_str (c :: s)) as [|d out] eqn:Hout.
    + split; [intros _; split; reflexivity|reflexivity].
    + cbn [truthy]. rewrite <- Hout.
      rewrite <- clean_str_twice_iff. split; [|congruence].
      intros [= Heq]. exact Heq.
  - exists []. split; [reflexivity|]. split; [reflexivity|].
    split; [intros _; split; reflexivity|reflexivity].
Qed.

Lemma clean_text_total_and_idempotent_where_normal_witness :
  clean_text (PStr (str "export default  Button ")) = Ok (str "Button") /\
  clean_twice (PStr (str "export default  Button "))
  = clean_text (PStr (str "export default  Button ")).
Proof.
  split; [vm_compute; reflexivity|].
  destruct (clean_text_total_and_idempotent_where_normal
              (Some (str "export default  Button ")))
    as (out & Hout & _ & Hnormal).
  apply Hnormal.
  assert (Heq : out = str "Button")
    by (vm_compute in Hout; injection Hout as <-; reflexivity).
  rewrite Heq. split; vm_compute; reflexivity.
Defined.

Example clean_text_plain :
  clean_text (PStr (str "  A   clickable  button "))
  = Ok (str "A clickable button").
Proof. vm_compute. reflexivity. Qed.

Example clean_text_removes_artifacts :
  clean_text (PStr (str "import x from 'y'; const a: React.FC<P> = b"))
  = Ok (str "const a<P> = b").
Proof. vm_compute. reflexivity. Qed.

(** C4 (as stated) fails: removing ": React.FC" leaves two spaces behind,
    which a second call collapses. *)
Lemma clean_text_not_idempotent :
  clean_text (PStr (str "a : React.FC b")) = Ok (str "a  b") /\
  clean_twice (PStr (str "a : React.FC b")) = Ok (str "a b") /\
  clean_twice (PStr (str "a : React.FC b"))
  <> clean_text (PStr (str "a : React.FC b")).
Proof.
  vm_compute. repeat split; try reflexivity. discriminate.
Qed.

(** A removal can also uncover a new occurrence of a pattern. *)
Example clean_text_uncovers_export :
  clean_text (PStr (str "exexport port x")) = Ok (str "export x") /\
  clean_twice (PStr (str "exexport port x")) = Ok (str "x").
Proof. vm_compute. split; reflexivity. Qed.

(** A truthy value that is not a string has no [strip]. *)
Example clean_text_not_a_string :
  clean_text (PInt 5) = Raise AttributeError.
Proof. reflexivity. Qed.

(* ===================================================================== *)
(** * Proofs: the statement-aware splitter                                *)
(* ===================================================================== *)

Lemma py_join_snoc (sep : pystr) (g : list pystr) (s : pystr) :
  g <> [] -> py_join sep (g ++ [s]) = py_join sep g ++ sep ++ s.
Proof.
  induction g as [|a g IH]; [congruence|]. intros _.
  destruct g as [|b g]; [reflexivity|].
  change (py_join sep ((a :: b :: g) ++ [s]))
    with (a ++ sep ++ py_join sep ((b :: g) ++ [s])).
  rewrite IH by discriminate.
  change (py_join sep (a :: b :: g)) with (a ++ sep ++ py_join sep (b :: g)).
  rewrite <- !app_assoc. reflexivity.
Qed.

Lemma head_clean_app (a b : pystr) :
  a <> [] -> head_clean (a ++ b) = head_clean a.
Proof. destruct a; [congruence|reflexivity]. Qed.

Lemma tail_clean_app (a b : pystr) :
  b <> [] -> tail_clean (a ++ b) = tail_clean b.
Proof.
  intros Hb. induction a as [|c a IH]; [reflexivity|].
  change ((c :: a) ++ b) with (c :: (a ++ b)). cbn [tail_clean].
  destruct (a ++ b) eqn:Hab; [|exact IH].
  destruct a; [simpl in Hab; congruence|discriminate].
Qed.

Lemma strip_clean_statement (s : pystr) :
  truthy (strip s) = true -> clean_statement (strip s).
Proof.
  intros Hs. destruct (strip_clean s) as [Hh Ht].
  repeat split; auto. destruct (strip s); [discriminate|discriminate].
Qed.

(** Statements joined by single spaces are again a trimmed, non-empty
    text. *)
Lemma py_join_clean (g : list pystr) :
  g <> [] -> Forall clean_statement g ->
  clean_statement (py_join (str " ") g).
Proof.
  induction g as [|a g IH]; [congruence|]. intros _ Hall.
  inversion Hall as [|? ? Ha Hg]; subst.
  destruct g as [|b g]; [exact Ha|].
  destruct (IH ltac:(discriminate) Hg) as (Hne & Hh & Ht).
  destruct Ha as (Hane & Hah & Hat).
  change (py_join (str " ") (a :: b :: g))
    with (a ++ str " " ++ py_join (str " ") (b :: g)).
  repeat split.
  - destruct a; [congruence|discriminate].
  - rewrite head_clean_app by exact Hane. exact Hah.
  - rewrite tail_clean_app by discriminate.
    change (str " " ++ py_join (str " ") (b :: g))
      with ([" "%char] ++ py_join (str " ") (b :: g)).
    rewrite tail_clean_app by exact Hne. exact Ht.
Qed.

Lemma py_join_strip (g : list pystr) :
  g <> [] -> Forall clean_statement g ->
  strip (py_join (str " ") g) = py_join (str " ") g.
Proof.
  intros Hne Hall. destruct (py_join_clean g Hne Hall) as (_ & Hh & Ht).
  apply strip_fixed; assumption.
Qed.

Lemma py_join_truthy (g : list pystr) :
  Forall clean_statement g -> truthy (py_join (str " ") g) = truthy g.
Proof.
  intros Hall. destruct g as [|a g]; [reflexivity|].
  destruct (py_join_clean (a :: g) ltac:(discriminate) Hall) as (Hne & _).
  destruct (py_join (str " ") (a :: g)); [congruence|reflexivity].
Qed.

(** The joined text is at least as long as its statements together. *)
Lemma py_join_length (g : list pystr) :
  total (map py_len g) <= py_len (py_join (str " ") g).
Proof.
  induction g as [|a g IH]; [reflexivity|].
  destruct g as [|b g].
  - simpl. unfold total. simpl. lia.
  - change (py_join (str " ") (a :: b :: g))
      with (a ++ str " " ++ py_join (str " ") (b :: g)).
    change (total (map py_len (a :: b :: g)))
      with (py_len a + total (map py_len (b :: g))).
    unfold py_len in *. rewrite !length_app. simpl length in *. lia.
Qed.

Lemma total_snoc (xs : list Z) (x : Z) : total (xs ++ [x]) = total xs + x.
Proof. rewrite total_app. unfold total. simpl. lia. Qed.

(** The loop, from a state in which [current_chunk] joins the group [g]:
    it appends one fragment per group, the groups are made of the
    statements in order, and each is a single statement or fits. *)
Lemma split_code_loop_groups (max_length : Z) :
  forall sentences g chunks,
    Forall clean_statement g ->
    (g = [] \/ joined_group max_length g) ->
    exists groups,
      split_code_loop max_length sentences (py_join (str " ") g) chunks
      = chunks ++ map (py_join (str " ")) groups /\
      concat groups = g ++ List.filter truthy (map strip sentences) /\
      Forall (joined_group max_length) groups.
Proof.
  induction sentences as [|sent rest IH]; intros g chunks Hclean Hg.
  - cbn [split_code_loop]. rewrite py_join_truthy by exact Hclean.
    destruct g as [|a g].
    + exists []. simpl. rewrite app_nil_r. repeat split. constructor.
    + exists [a :: g]. cbn [truthy map concat List.filter].
      rewrite py_join_strip by (discriminate || exact Hclean).
      rewrite !app_nil_r. repeat split.
      constructor; [|constructor].
      destruct Hg as [Hg|Hg]; [discriminate|exact Hg].
  - cbn [split_code_loop map List.filter]. cbv zeta.
    destruct (truthy (strip sent)) eqn:Hs; cbn [negb].
    2:{ apply IH; assumption. }
    pose proof (strip_clean_statement sent Hs) as Hstmt.
    rewrite py_join_truthy by exact Hclean.
    destruct ((max_length <? py_len (py_join (str " ") g)
                             + py_len (strip sent)) && truthy g) eqn:Hflush.
    + apply andb_true_iff in Hflush as [_ Hne].
      assert (Hgne : g <> []) by (destruct g; [discriminate|discriminate]).
      destruct Hg as [Hg|Hg]; [congruence|].
      destruct (IH [strip sent]
                  (chunks ++ [strip (py_join (str " ") g)]))
        as (groups & Hrun & Hcat & Hall).
      { constructor; [exact Hstmt|constructor]. }
      { right. repeat split; [discriminate| |left; reflexivity].
        constructor; [exact Hstmt|constructor]. }
      exists (g :: groups). cbn [py_join] in Hrun. rewrite Hrun.
      rewrite py_join_strip by assumption.
      rewrite <- app_assoc. cbn [map concat app]. rewrite Hcat.
      repeat split. constructor; assumption.
    + destruct (truthy g) eqn:Hne.
      * assert (Hgne : g <> []) by (destruct g; [discriminate|discriminate]).
        rewrite andb_true_r in Hflush. apply Z.ltb_ge in Hflush.
        destruct (IH (g ++ [strip sent]) chunks)
          as (groups & Hrun & Hcat & Hall).
        { apply Forall_app; split;
            [exact Hclean|constructor; [exact Hstmt|constructor]]. }
        { right. repeat split.
          - destruct g; discriminate.
          - apply Forall_app; split;
              [exact Hclean|constructor; [exact Hstmt|constructor]].
          - right. split.
            + rewrite map_app. cbn [map]. rewrite total_snoc.
              pose proof (py_join_length g). lia.
            + rewrite py_join_snoc by exact Hgne.
              unfold py_len in *. rewrite !length_app.
              change (length (str " ")) with 1%nat. lia. }
        exists groups. rewrite py_join_snoc in Hrun by exact Hgne.
        rewrite Hrun, Hcat, <- app_assoc. repeat split. exact Hall.
      * assert (Hnil : g = []) by (destruct g; [reflexivity|discriminate]).
        subst g.
        destruct (IH [strip sent] chunks) as (groups & Hrun & Hcat & Hall).
        { constructor; [exact Hstmt|constructor]. }
        { right. repeat split; [discriminate| |left; reflexivity].
          constructor; [exact Hstmt|constructor]. }
        exists groups. cbn [py_join] in Hrun. rewrite Hrun, Hcat.
        repeat split. exact Hall.
Qed.

Lemma joined_group_statement_group (max_length : Z) (g : list pystr) :
  joined_group max_length g -> statement_group max_length g.
Proof.
  intros (Hne & Hclean & [Hone|[Hfit _]]); repeat split; auto.
Qed.

(** ** The pieces between delimiters *)

Lemma match_at_statement_end (s : pystr) :
  match_at re_statement_end s
  = match s with
    | c :: s' => if is_delimiter c then Some (lstrip s') else None
    | [] => None
    end.
Proof.
  destruct s as [|c s]; [reflexivity|]. unfold match_at. simpl.
  destruct (is_delimiter c); [apply greedy_isspace|reflexivity].
Qed.

(** No piece [re.split] returns holds a delimiter. *)
Lemma split_from_delimiter_free :
  forall (n : nat) (s cur : pystr),
    (length s <= n)%nat -> delimiter_free cur ->
    Forall delimiter_free (split_from re_statement_end s O cur).
Proof.
  induction n as [|n IH]; intros s cur Hlen Hcur.
  - destruct s; [|simpl in Hlen; lia]. repeat constructor. exact Hcur.
  - destruct s as [|c s]; [repeat constructor; exact Hcur|].
    cbn [split_from]. rewrite match_at_statement_end.
    destruct (is_delimiter c) eqn:Hc.
    + pose proof (lstrip_length s).
      replace (length (c :: s) - length (lstrip s))%nat
        with (S (length s - length (lstrip s))) by (simpl; lia).
      rewrite split_from_skip, lstrip_skipn.
      constructor; [exact Hcur|].
      apply IH; [simpl in Hlen; lia|constructor].
    + apply IH; [simpl in Hlen; lia|].
      apply Forall_app. split; [exact Hcur|]. repeat constructor. exact Hc.
Qed.

Lemma lstrip_delimiter_free (s : pystr) :
  delimiter_free s -> delimiter_free (lstrip s).
Proof.
  induction 1 as [|c s Hc Hs IH]; [constructor|]. simpl.
  destruct (isspace c); [exact IH|constructor; assumption].
Qed.

Lemma strip_delimiter_free (s : pystr) :
  delimiter_free s -> delimiter_free (strip s).
Proof.
  intros Hs. unfold strip, rstrip, delimiter_free.
  apply List.Forall_rev. apply lstrip_delimiter_free.
  apply List.Forall_rev. apply lstrip_delimiter_free. exact Hs.
Qed.

Lemma statements_delimiter_free (code : pystr) :
  Forall delimiter_free (statements code).
Proof.
  unfold statements, re_split.
  pose proof (split_from_delimiter_free _ code [] (Nat.le_refl _)
                ltac:(constructor)) as Hpieces.
  apply List.Forall_forall. intros s Hs.
  apply filter_In in Hs as [Hs _]. apply in_map_iff in Hs as (p & <- & Hp).
  apply strip_delimiter_free.
  rewrite List.Forall_forall in Hpieces. apply Hpieces, Hp.
Qed.

Lemma py_join_delimiter_free (g : list pystr) :
  Forall delimiter_free g -> delimiter_free (py_join (str " ") g).
Proof.
  induction 1 as [|a g Ha Hg IH]; [constructor|].
  destruct g as [|b g]; [exact Ha|].
  change (py_join (str " ") (a :: b :: g))
    with (a ++ str " " ++ py_join (str " ") (b :: g)).
  apply Forall_app. split; [exact Ha|].
  apply Forall_app. split; [repeat constructor|exact IH].
Qed.

(** C7 (amended).  Text no longer than [max_size] is returned whole.
    Longer text is cut at the delimiters only: the fragments are runs of
    consecutive statements (the trimmed, non-empty pieces between
    delimiters) joined by single spaces, no fragment holds a delimiter, and
    a fragment joins several statements only when their lengths add up to
    at most [max_size].  There is no fall-back to character windows: a
    statement longer than [max_size] is a fragment of its own. *)
Theorem split_code_groups_statements (code : pystr) (max_size : Z) :
  (py_len code <= max_size -> split_code code max_size = [code]) /\
  (max_size < py_len code ->
   exists groups : list (list pystr),
     split_code code max_size = map (py_join (str " ")) groups /\
     concat groups = statements code /\
     Forall (statement_group max_size) groups /\
     Forall delimiter_free (split_code code max_size)).
Proof.
  unfold split_code. split; intros Hlen.
  - apply Z.leb_le in Hlen. rewrite Hlen. reflexivity.
  - apply Z.leb_gt in Hlen. rewrite Hlen.
    destruct (split_code_loop_groups max_size
                (re_split re_statement_end code) [] [])
      as (groups & Hrun & Hcat & Hall); [constructor|left; reflexivity|].
    change (py_join (str " ") []) with (@nil ascii) in Hrun.
    exists groups. rewrite Hrun. simpl app in *.
    fold (statements code) in Hcat.
    repeat split; try assumption.
    + eapply List.Forall_impl; [|exact Hall].
      apply joined_group_statement_group.
    + apply Forall_map. apply List.Forall_forall. intros g Hg.
      apply py_join_delimiter_free. apply List.Forall_forall. intros s Hs.
      pose proof (statements_delimiter_free code) as Hfree.
      rewrite List.Forall_forall in Hfree. apply Hfree.
      rewrite <- Hcat. apply in_concat. exists g. split; assumption.
Qed.

Lemma split_code_groups_statements_witness :
  max_size_example < py_len code_example /\
  exists groups : list (list pystr),
    split_code code_example max_size_example
      = map (py_join (str " ")) groups /\
    concat groups = statements code_example /\
    Forall (statement_group max_size_example) groups /\
    Forall delimiter_free (split_code code_example max_size_example).
Proof.
  assert (Hlen : max_size_example < py_len code_example)
    by (vm_compute; reflexivity).
  split; [exact Hlen|].
  apply (split_code_groups_statements code_example max_size_example), Hlen.
Defined.

Example split_code_example :
  split_code code_example max_size_example
  = [str "const a = 1"; str "function f()"; str "return a b x"].
Proof. vm_compute. reflexivity. Qed.

(** C7 (as stated) fails: a text without a delimiter is one statement and
    comes back whole, twelve characters against a limit of five. *)
Lemma split_code_no_fallback :
  split_code (str "aaaaaaaaaaaa") 5 = [str "aaaaaaaaaaaa"] /\
  ~ Forall (fun f => py_len f <= 5) (split_code (str "aaaaaaaaaaaa") 5).
Proof.
  split; [vm_compute; reflexivity|].
  intros Hall. vm_compute in Hall.
  inversion Hall as [|? ? Hlen _]. apply Hlen. reflexivity.
Qed.

(** The limit is tested before the joining space is added: two statements
    of two and three characters pass the test for a limit of five and make
    a fragment of six. *)
Example split_code_joining_space :
  split_code (str "ab;cde") 5 = [str "ab cde"].
Proof. vm_compute. reflexivity. Qed.

(* ===================================================================== *)
(** * Proofs: the document-to-fragments mapper                            *)
(* ===================================================================== *)

Section MapperFacts.
Variable py_repr : pyval -> pystr.

(** A part that contributes no fragment. *)
Ltac no_chunks :=
  exists []; split; [reflexivity|];
  split; [constructor|intros; reflexivity || discriminate].

(** Cleaning an optional text raises nothing. *)
Lemma clean_text_optional (d : list (pystr * pyval)) (key : string) :
  optional_text (dict_get d (str key)) ->
  exists out, clean_text (py_get d key PNone) = Ok out.
Proof.
  unfold py_get. destruct (dict_get d (str key)) as [[ | | | |s| | ]|];
    simpl; try contradiction; intros _; try (eexists; reflexivity).
  rewrite clean_text_str. eexists; reflexivity.
Qed.

(** The description part of a text: present at most when the field is. *)
Lemma description_part_total (d : list (pystr * pyval)) (label : string) :
  optional_text (dict_get d (str "description")) ->
  exists part,
    (if py_truthy (py_get d "description" PNone) then
       desc <- clean_text (py_get d "description" PNone) ;;
       Ok (if truthy desc then [str label ++ desc] else [])
     else Ok []) = Ok part /\
    (dict_get d (str "description") = None -> part = []).
Proof.
  intros Hopt. destruct (clean_text_optional d "description" Hopt) as [out Hout].
  rewrite Hout. cbn [bind].
  destruct (py_truthy (py_get d "description" PNone)) eqn:Htruthy.
  - eexists. split; [reflexivity|]. intros Habsent.
    unfold py_get in Htruthy. rewrite Habsent in Htruthy. discriminate.
  - exists []. split; [reflexivity|reflexivity].
Qed.

Lemma format_prop_total (prop_name : pystr) (members : list (pystr * pyval)) :
  optional_text (dict_get members (str "description")) ->
  exists line, format_prop py_repr prop_name members = Ok line.
Proof.
  intros Hopt. unfold format_prop.
  destruct (description_part_total members "description: " Hopt)
    as (part & -> & _).
  eexists. reflexivity.
Qed.

Lemma format_props_lines_total (props : list (pystr * pyval)) :
  Forall prop_typed props ->
  exists lines, format_props_lines py_repr props = Ok lines.
Proof.
  induction 1 as [|[prop_name prop_info] rest Hprop Hrest IH];
    [eexists; reflexivity|].
  destruct IH as [lines Hlines]. cbn [format_props_lines].
  unfold prop_typed in Hprop. simpl in Hprop.
  destruct prop_info as [ | | | | | |members];
    try (exists lines; exact Hlines).
  destruct (format_prop_total prop_name members Hprop) as [line ->].
  rewrite Hlines. eexists. reflexivity.
Qed.

(** The props part: at most one fragment, of type [props], and none when
    the document has no [props]. *)
Lemma props_chunks_total (doc : list (pystr * pyval))
    (component_id component_name file_path : pyval) :
  match dict_get doc (str "props") with
  | Some (PDict props) => Forall prop_typed props
  | _ => True
  end ->
  exists chunks,
    match py_get doc "props" PNone with
    | PDict props =>
        if truthy props then
          props_info <- format_props_info py_repr props component_name ;;
          Ok (if truthy props_info then
                [ {| ck_chunk_id := py_str py_repr component_id ++ str "_props";
                     ck_component_id := component_id;
                     ck_component_name := component_name;
                     ck_file := file_path;
                     ck_chunk_type := Props;
                     ck_text := props_info |} ]
              else [])
        else Ok []
    | _ => Ok []
    end = Ok chunks /\
    Forall (fun c => ck_chunk_type c = Props) chunks /\
    (dict_get doc (str "props") = None -> chunks = []).
Proof.
  intros Htyped. unfold py_get.
  destruct (dict_get doc (str "props")) as [v|];
    [|no_chunks].
  destruct v as [ | | | | | |props];
    try (no_chunks).
  destruct (truthy props) eqn:Hprops;
    [|no_chunks].
  unfold format_props_info. rewrite Hprops. cbn [negb].
  destruct (format_props_lines_total props Htyped) as [lines ->].
  cbn [bind]. eexists. split; [reflexivity|]. split; [|discriminate].
  match goal with |- Forall _ (if ?b then _ else _) => destruct b end;
    repeat constructor.
Qed.

(** The code part: fragments of type [code] only, and none when the
    document has no [raw]. *)
Lemma code_chunks_total (doc : list (pystr * pyval))
    (component_id component_name file_path : pyval) :
  optional_text (dict_get doc (str "raw")) ->
  exists chunks,
    (if py_truthy (py_get doc "raw" PNone) then
       process_code_snippet py_repr (py_get doc "raw" PNone) component_id
         component_name file_path
     else Ok []) = Ok chunks /\
    Forall (fun c => ck_chunk_type c = Code) chunks /\
    (dict_get doc (str "raw") = None -> chunks = []).
Proof.
  intros Hopt. unfold py_get.
  destruct (dict_get doc (str "raw")) as [v|];
    [|no_chunks].
  destruct v as [ | | | |raw| | ]; try contradiction;
    try (no_chunks).
  destruct (py_truthy (PStr raw)) eqn:Hraw;
    [|no_chunks].
  unfold process_code_snippet. rewrite Hraw. cbn [negb].
  destruct (py_len (strip raw) <? 50);
    [no_chunks|].
  destruct (py_len (clean_code_for_search raw) <=? 600).
  - eexists. split; [reflexivity|]. split; [|discriminate].
    repeat constructor.
  - eexists. split; [reflexivity|]. split; [|discriminate].
    apply Forall_map. apply List.Forall_forall. intros [i c] _. reflexivity.
Qed.

(** The location part. *)
Lemma location_part_total (doc : list (pystr * pyval)) :
  optional_text (dict_get doc (str "file")) ->
  exists part,
    (if py_truthy (py_get doc "file" (PStr [])) then
       match py_get doc "file" (PStr []) with
       | PStr path => Ok [str "Location: " ++ relevant_path path]
       | _ => Raise AttributeError
       end
     else Ok []) = Ok part.
Proof.
  intros Hopt. unfold py_get.
  destruct (dict_get doc (str "file")) as [[ | | | |path| | ]|];
    try contradiction; simpl; try (eexists; reflexivity).
  destruct (truthy path); eexists; reflexivity.
Qed.

(** The mapper on a Document of the data model. *)
Lemma extract_component_chunks_typed (doc : list (pystr * pyval)) :
  document_typed doc ->
  exists (description_part location_part : list pystr) (rest : list chunk),
    extract_component_chunks py_repr doc
    = Ok ({| ck_chunk_id :=
               py_str py_repr (py_get doc "id" (PStr [])) ++ str "_basic";
             ck_component_id := py_get doc "id" (PStr []);
             ck_component_name := py_get doc "name" (PStr (str "Unknown"));
             ck_file := py_get doc "file" (PStr []);
             ck_chunk_type := BasicInfo;
             ck_text :=
               py_join (str " | ")
                 ([str "Component: "
                   ++ py_str py_repr
                        (py_get doc "name" (PStr (str "Unknown")))]
                  ++ description_part ++ location_part) |} :: rest) /\
    (dict_get doc (str "description") = None -> description_part = []) /\
    Forall (fun c => ck_chunk_type c = Props \/ ck_chunk_type c = Code) rest /\
    (dict_get doc (str "props") = None ->
     Forall (fun c => ck_chunk_type c <> Props) rest) /\
    (dict_get doc (str "raw") = None ->
     Forall (fun c => ck_chunk_type c <> Code) rest).
Proof.
  intros (Hdesc & Hfile & Hraw & Hprops).
  unfold extract_component_chunks.
  destruct (description_part_total doc "Description: " Hdesc)
    as (description_part & -> & Hnodesc).
  destruct (location_part_total doc Hfile) as (location_part & ->).
  destruct (props_chunks_total doc (py_get doc "id" (PStr []))
              (py_get doc "name" (PStr (str "Unknown")))
              (py_get doc "file" (PStr [])) Hprops)
    as (props_chunks & -> & Hpk & Hnoprops).
  destruct (code_chunks_total doc (py_get doc "id" (PStr []))
              (py_get doc "name" (PStr (str "Unknown")))
              (py_get doc "file" (PStr [])) Hraw)
    as (code_chunks & -> & Hck & Hnoraw).
  cbn [bind app].
  exists description_part, location_part, (props_chunks ++ code_chunks).
  split; [reflexivity|]. split; [exact Hnodesc|].
  assert (Hp : Forall (fun c => ck_chunk_type c <> Code) props_chunks).
  { eapply List.Forall_impl; [|exact Hpk]. intros c ->. discriminate. }
  assert (Hc : Forall (fun c => ck_chunk_type c <> Props) code_chunks).
  { eapply List.Forall_impl; [|exact Hck]. intros c ->. discriminate. }
  repeat split.
  - apply Forall_app. split.
    + eapply List.Forall_impl; [|exact Hpk]. auto.
    + eapply List.Forall_impl; [|exact Hck]. auto.
  - intros Habsent. rewrite (Hnoprops Habsent). exact Hc.
  - intros Habsent. rewrite (Hnoraw Habsent), app_nil_r. exact Hp.
Qed.

End MapperFacts.



(** A document with nothing but an id maps to its basic fragment alone. *)
Example extract_component_chunks_id_only (py_repr : pyval -> pystr) :
  extract_component_chunks py_repr [(str "id", PStr (str "c7"))]
  = Ok [ {| ck_chunk_id := str "c7_basic";
            ck_component_id := PStr (str "c7");
            ck_component_name := PStr (str "Unknown");
            ck_file := PStr [];
            ck_chunk_type := BasicInfo;
            ck_text := str "Component: Unknown" |} ].
Proof. vm_compute. reflexivity. Qed.

(** Outside the data model: a description that is a number has no
    [strip]. *)
Example extract_component_chunks_ill_typed (py_repr : pyval -> pystr) :
  extract_component_chunks py_repr [(str "description", PInt 5)]
  = Raise AttributeError.
Proof. reflexivity. Qed.

(** C9.  The Button document of the specification maps to exactly two
    fragments: a [basic_info] fragment whose text contains "Button" and
    "clickable button", and a [props] fragment whose text contains
    "onClick" and "required". *)
Theorem extract_component_chunks_button (py_repr : pyval -> pystr) :
  exists basic props_chunk,
    extract_component_chunks py_repr button_doc = Ok [basic; props_chunk] /\
    ck_chunk_type basic = BasicInfo /\
    ck_text basic = str "Component: Button | Description: A clickable button" /\
    contains (str "Button") (ck_text basic) = true /\
    contains (str "clickable button") (ck_text basic) = true /\
    ck_chunk_type props_chunk = Props /\
    ck_text props_chunk
    = str "Button component props: | onClick - type: func - required" /\
    contains (str "onClick") (ck_text props_chunk) = true /\
    contains (str "required") (ck_text props_chunk) = true.
Proof.
  eexists. eexists. split; [vm_compute; reflexivity|].
  cbn [ck_chunk_type ck_text]. repeat split; vm_compute; reflexivity.
Qed.

(* ===================================================================== *)
(** * Proofs: the reach of the chunker's loop                             *)
(* ===================================================================== *)

Lemma strip_starts_clean (c : ascii) (s : pystr) :
  isspace c = false -> strip (c :: s) <> [].
Proof.
  intros Hc. unfold strip. rewrite lstrip_fixed by (simpl; rewrite Hc; reflexivity).
  unfold rstrip. intros Hnil.
  apply (f_equal (@rev ascii)) in Hnil. rewrite rev_involutive in Hnil.
  simpl rev at 2 in Hnil. revert Hnil.
  apply lstrip_nonempty.
  - rewrite tail_clean_rev. simpl. rewrite Hc. reflexivity.
  - simpl. destruct (rev s); discriminate.
Qed.

Section WriterFacts.

Variable py_repr : pyval -> pystr.
Variable json_dump : pyval -> pystr * option exn.

(** [big_text] always starts with "Component: ". *)
Lemma build_text_starts (doc : list (pystr * pyval)) (name : pyval)
    (big_text : pystr) :
  build_text py_repr doc = Ok (name, big_text) ->
  exists rest, big_text = "C"%char :: rest.
Proof.
  unfold build_text. intros Hbuild.
  repeat match type of Hbuild with
         | bind ?r _ = _ =>
             destruct r; cbn [bind] in Hbuild; [|discriminate Hbuild]
         end.
  injection Hbuild as _ <-.
  match goal with
  | |- exists rest, match ?others with _ => _ end = _ => destruct others
  end; eexists; reflexivity.
Qed.

(** The chunker's loop is entered for every document whose text can be
    built, so the [try] block ends only by an exception, having written
    nothing. *)
Lemma process_try_never_writes (fuel : nat) (doc : list (pystr * pyval))
    (start_idx : Z) (first_chunk : bool) (out : pystr * Z * option exn) :
  process_try py_repr json_dump fuel doc start_idx first_chunk = Some out ->
  exists e, build_text py_repr doc = Raise e /\ out = ([], 0, Some e).
Proof.
  unfold process_try.
  destruct (build_text py_repr doc) as [[name big_text]|e] eqn:Hbuild.
  - destruct (build_text_starts doc name big_text Hbuild) as [rest ->].
    rewrite chunk_text_diverges; [discriminate|lia|].
    apply strip_starts_clean. reflexivity.
  - intros [= <-]. exists e. split; reflexivity.
Qed.

(** Hence [process_single_component] never reports a fragment. *)
Lemma process_single_component_writes_nothing (fuel : nat) (doc : pyval)
    (start_idx : Z) (first_chunk : bool) (written : pystr)
    (outcome : result Z) :
  process_single_component py_repr json_dump fuel doc start_idx first_chunk
  = Some (written, outcome) ->
  written = [] /\ (outcome = Ok 0 \/ outcome = Raise AttributeError).
Proof.
  unfold process_single_component.
  destruct doc as [ | | | | | |members];
    try (intros [= <- <-]; split; [reflexivity|right; reflexivity]).
  destruct (process_try py_repr json_dump fuel members start_idx first_chunk)
    as [[[w n] err]|] eqn:Htry; [|discriminate].
  destruct (process_try_never_writes _ _ _ _ _ Htry) as (e & _ & Hout).
  injection Hout as -> -> _. intros [= <- <-].
  split; [reflexivity|left; reflexivity].
Qed.

End WriterFacts.

(** A document of the data model sends [process_single_component] into
    the chunker's loop for good. *)
Example process_single_component_never_returns (fuel : nat) :
  process_single_component no_repr no_dump fuel
    (PDict [(str "id", PStr (str "c1")); (str "name", PStr (str "Button"))])
    0 true
  = None.
Proof.
  unfold process_single_component, process_try.
  replace (build_text no_repr
             [(str "id", PStr (str "c1")); (str "name", PStr (str "Button"))])
    with (@Ok (pyval * pystr) (PStr (str "Button"), str "Component: Button"))
    by (vm_compute; reflexivity).
  rewrite chunk_text_diverges; [reflexivity|lia|].
  vm_compute. discriminate.
Qed.

(* ===================================================================== *)
(** * Proofs: the streaming collection processor                          *)
(* ===================================================================== *)

Lemma append_file_same (p : list ascii) (text : pystr) (fs : filesystem) :
  append_file p text fs !! p = Some (default [] (fs !! p) ++ text).
Proof. unfold append_file. apply lookup_insert_eq. Qed.


Section ProcessorFacts.

Variable py_repr : pyval -> pystr.
Variable json_dump : pyval -> pystr * option exn.
Variable args : call.
Variable before : filesystem.

Hypothesis distinct : temp_file args <> output_chunks_path args.






End ProcessorFacts.

Section EmptyOutput.

Variable py_repr : pyval -> pystr.
Variable json_dump : pyval -> pystr * option exn.
Variable args : call.

Lemma next_empty_body (ev : event) (s s' : state) :
  empty_body args s ->
  next py_repr json_dump args ev s = Some s' ->
  empty_body args s'.
Proof.
  destruct s as [fs ph]. unfold empty_body. cbn [files control].
  intros Hs Hnext.
  destruct ph as [ | | | |pending idx processed first_chunk|idx|idx|idx|e|e];
    destruct ev as [fuel|e' partial];
    cbn [next files control] in Hnext; try discriminate.
  - destruct (input_docs args);
      [destruct (with_suffix _ _)|]; injection Hnext as <-; exact I.
  - injection Hnext as <-. cbn [files control]. apply lookup_insert_eq.
  - injection Hnext as <-. exact I.
  - injection Hnext as <-. cbn [files control].
    rewrite append_file_same, Hs. reflexivity.
  - injection Hnext as <-. exact I.
  - destruct (input_docs args); injection Hnext as <-; cbn [files control];
      [split; [exact Hs|reflexivity]|exact I].
  - injection Hnext as <-. exact I.
  - destruct Hs as [Htemp ->].
    destruct pending as [|doc rest].
    { injection Hnext as <-. cbn [files control]. split; [exact Htemp|reflexivity]. }
    destruct (limit_reached args processed).
    { injection Hnext as <-. cbn [files control]. split; [exact Htemp|reflexivity]. }
    destruct (process_single_component py_repr json_dump fuel doc 0
                first_chunk) as [[written outcome]|] eqn:Hdoc; [|discriminate].
    destruct (process_single_component_writes_nothing _ _ _ _ _ _ _ _ Hdoc)
      as [-> [-> | ->]]; injection Hnext as <-; cbn [files control];
      [|exact I].
    cbn [Z.ltb Z.compare]. split; [|reflexivity].
    rewrite append_file_same, Htemp.
    change (default [] (Some header)) with header.
    rewrite app_nil_r. reflexivity.
  - destruct pending; injection Hnext as <-; exact I.
  - destruct Hs as [Htemp ->]. injection Hnext as <-. cbn [files control].
    split; [|reflexivity]. rewrite append_file_same, Htemp. reflexivity.
  - injection Hnext as <-. exact I.
  - destruct Hs as [Htemp ->]. rewrite Htemp in Hnext.
    injection Hnext as <-. cbn [files control].
    split; [apply lookup_insert_eq|reflexivity].
  - injection Hnext as <-. exact I.
  - injection Hnext as <-. exact I.
Qed.

Lemma run_empty_body (events : list event) :
  forall s s',
    empty_body args s ->
    run py_repr json_dump args events s = Some s' ->
    empty_body args s'.
Proof.
  induction events as [|ev events IH]; intros s s' Hs Hrun;
    cbn [run] in Hrun.
  - injection Hrun as <-. exact Hs.
  - destruct (next py_repr json_dump args ev s) as [s1|] eqn:Hnext;
      [|discriminate].
    eapply IH; [|exact Hrun]. eapply next_empty_body; eassumption.
Qed.

End EmptyOutput.

Section FailureFacts.

Variable py_repr : pyval -> pystr.
Variable json_dump : pyval -> pystr * option exn.
Variable args : call.








End FailureFacts.




(** An error that does reach the handler: a collection item that is not an
    object.  The temporary file is removed, the earlier output stays, and
    the call raises the [AttributeError]. *)
Example minimal_ingest_reraises :
  let args := Call (Some [PStr (str "not an object")])
                (str "build-index/component_chunks.json") None in
  let final := run no_repr no_dump args
                 [Go 0; Go 0; Go 0; Go 0; Go 0; Go 0]
                 (State example_files Called) in
  option_map control final = Some (Raised AttributeError) /\
  option_map (fun s => files s !! temp_file args) final = Some None /\
  option_map (fun s => files s !! output_chunks_path args) final
    = Some (Some (str "[]")).
Proof.
  repeat split; vm_compute; reflexivity.
Qed.

(** An I/O error while the footer is written. *)
Example minimal_ingest_write_error :
  let args := Call (Some []) (str "build-index/component_chunks.json") None in
  let final := run no_repr no_dump args
                 [Go 0; Go 0; Go 0; Go 0; Go 0;
                  Fail OSError ["010"%char]; Go 0]
                 (State example_files Called) in
  option_map control final = Some (Raised OSError) /\
  option_map (fun s => files s !! temp_file args) final = Some None /\
  option_map (fun s => files s !! output_chunks_path args) final
    = Some (Some (str "[]")).
Proof.
  repeat split; vm_compute; reflexivity.
Qed.

(* ===================================================================== *)
(** * Further properties of the code                                      *)
(* ===================================================================== *)

(** X1.  With any positive overlap, and whatever the window width, the
    character-window chunker never returns on a text that holds a
    character other than whitespace. *)
Theorem chunk_text_never_returns_with_overlap (t : pystr)
    (max_chars overlap : Z) (fuel : nat) :
  0 < overlap -> strip t <> [] ->
  chunk_text fuel t max_chars overlap = None.
Proof.
  intros Hov Hne. apply chunk_text_diverges; assumption.
Qed.

Lemma chunk_text_never_returns_with_overlap_witness :
  chunk_text 1000 (str "Component: Button") 500 30 = None.
Proof.
  apply chunk_text_never_returns_with_overlap;
    [lia|vm_compute; discriminate].
Defined.

(** X2.  [process_single_component] never writes a fragment: it does not
    return, or it returns 0 having written nothing (the text could not be
    built and the error was printed), or the document is not an object and
    [AttributeError] leaves the handler. *)
Theorem process_single_component_yields_no_fragment
    (py_repr : pyval -> pystr) (json_dump : pyval -> pystr * option exn)
    (fuel : nat) (doc : pyval) (start_idx : Z) (first_chunk : bool) :
  let outcome :=
    process_single_component py_repr json_dump fuel doc start_idx
      first_chunk in
  outcome = None \/ outcome = Some ([], Ok 0)
  \/ outcome = Some ([], Raise AttributeError).
Proof.
  cbv zeta.
  destruct (process_single_component py_repr json_dump fuel doc start_idx
              first_chunk) as [[written outcome]|] eqn:Hrun;
    [|left; reflexivity].
  right.
  destruct (process_single_component_writes_nothing _ _ _ _ _ _ _ _ Hrun)
    as [-> [-> | ->]]; [left|right]; reflexivity.
Qed.

(** Two members make an object at least two bytes shorter under the
    compact separators: the first key separator and the item separator. *)
Lemma dumps_len_two_members (a b : pystr * pyval)
    (rest : list (pystr * pyval)) :
  dumps_len 1 1 (PDict (a :: b :: rest)) + 2
  <= dumps_len 2 2 (PDict (a :: b :: rest)).
Proof.
  pose proof (dumps_len_compact_le (PDict (b :: rest))) as Hrest.
  pose proof (dumps_len_compact_le (snd a)) as Ha.
  destruct a as [ka va]. cbn [snd] in Ha.
  cbn [dumps_len map] in *.
  change (joined_len 1 (?x :: ?y :: ?l))
    with (x + 1 + joined_len 1 (y :: l)).
  change (joined_len 2 (?x :: ?y :: ?l))
    with (x + 2 + joined_len 2 (y :: l)).
  lia.
Qed.

(** X3.  When every document is an object with two members or more, the
    file written for a batch is no longer than the size the partitioner
    accounted for it. *)
Theorem file_of_objects_within_accounted (batch : list pyval) :
  batch <> [] ->
  Forall (fun d => exists a b rest, d = PDict (a :: b :: rest)) batch ->
  file_size batch <= accounted_size batch.
Proof.
  intros Hne Hall. apply file_size_within_accounted; [exact Hne|].
  eapply List.Forall_impl; [|exact Hall].
  intros d (a & b & rest & ->). apply dumps_len_two_members.
Qed.

Lemma file_of_objects_within_accounted_witness :
  file_size [doc_c1; doc_c2] <= accounted_size [doc_c1; doc_c2].
Proof.
  apply file_of_objects_within_accounted; [discriminate|].
  repeat constructor; do 3 eexists; reflexivity.
Defined.

(** X4.  Every match of one of the six patterns of the repository takes
    at least one character, so [re.sub] and [re.split] never meet an empty
    match. *)
Theorem repository_patterns_never_match_empty (r : regex)
    (s rest : pystr) :
  In r [re_whitespace; re_import; re_export; re_react_annotation;
        re_react_generic; re_statement_end] ->
  match_at r s = Some rest ->
  (length rest < length s)%nat.
Proof.
  intros Hin. apply consuming_match_shrinks.
  pose proof repository_patterns_consume as Hall.
  rewrite forallb_forall in Hall. apply Hall, Hin.
Qed.

Lemma repository_patterns_never_match_empty_witness :
  (length (str "x") < length (str ";  x"))%nat.
Proof.
  apply (repository_patterns_never_match_empty re_statement_end).
  - do 5 right. left. reflexivity.
  - vm_compute. reflexivity.
Defined.

(** X5.  Every fragment of the statement-aware splitter is one whole
    statement of the text, of whatever length, or is at most
    [max_length + 1] characters long: the limit is tested before the
    joining space is added. *)
Theorem split_code_fragment_bound (code : pystr) (max_length : Z) :
  Forall (fun f => In f (statements code) \/ py_len f <= max_length + 1)
    (split_code code max_length).
Proof.
  unfold split_code. destruct (py_len code <=? max_length) eqn:Hlen.
  - apply Z.leb_le in Hlen. constructor; [right; lia|constructor].
  - destruct (split_code_loop_groups max_length
                (re_split re_statement_end code) [] [])
      as (groups & Hrun & Hcat & Hall); [constructor|left; reflexivity|].
    change (py_join (str " ") []) with (@nil ascii) in Hrun.
    rewrite Hrun. simpl app in *. fold (statements code) in Hcat.
    apply Forall_map. apply List.Forall_forall. intros g Hg.
    rewrite List.Forall_forall in Hall.
    destruct (Hall g Hg) as (_ & _ & [Hone|[_ Hfit]]);
      [left|right; exact Hfit].
    destruct g as [|a [|b g']]; try discriminate Hone.
    rewrite <- Hcat. apply in_concat. exists [a].
    split; [exact Hg|left; reflexivity].
Qed.

(* ===================================================================== *)
(** * More on the character-window chunker                                *)
(* ===================================================================== *)

(** The loop leaves when the window advances: [overlap <= 0] and
    [overlap < max_chars]. *)
Lemma chunk_loop_advances (text : pystr) (max_chars overlap : Z) :
  overlap <= 0 -> overlap < max_chars ->
  forall (n : nat) start chunks,
    0 <= start -> py_len text - start <= Z.of_nat n ->
    exists out,
      chunk_loop (S n) text max_chars overlap start chunks = Some out.
Proof.
  intros Hov Hstep. induction n as [|n IH]; intros start chunks H0 Hn.
  - exists chunks. simpl.
    destruct (Z.ltb_spec start (py_len text)); [lia|reflexivity].
  - change (chunk_loop (S (S n)) text max_chars overlap start chunks) with
      (if start <? py_len text then
         chunk_loop (S n) text max_chars overlap
           (if Z.min (py_len text) (start + max_chars) - overlap <? 0 then 0
            else Z.min (py_len text) (start + max_chars) - overlap)
           (chunks ++ [strip (py_slice text start
                          (Z.min (py_len text) (start + max_chars)))])
       else Some chunks).
    destruct (Z.ltb_spec start (py_len text)) as [Hlt|Hge];
      [|eexists; reflexivity].
    destruct (Z.ltb_spec
      (Z.min (py_len text) (start + max_chars) - overlap) 0); [lia|].
    apply IH; lia.
Qed.

(** It stays for ever when the window cannot advance: [max_chars] is at
    most [overlap]. *)
Lemma chunk_loop_stalls (text : pystr) (max_chars overlap : Z) :
  max_chars <= overlap -> overlap <= 0 ->
  forall fuel start chunks,
    0 <= start < py_len text ->
    chunk_loop fuel text max_chars overlap start chunks = None.
Proof.
  intros Hmax Hov. induction fuel as [|fuel IH]; intros start chunks Hs;
    [reflexivity|].
  simpl. destruct (Z.ltb_spec start (py_len text)) as [_|Hge]; [|lia].
  apply IH.
  destruct (Z.ltb_spec
    (Z.min (py_len text) (start + max_chars) - overlap) 0); lia.
Qed.

(** X6.  When [chunk_text] returns: on a blank text (whatever the window),
    and otherwise exactly when the window advances, that is when
    [overlap <= 0] and [overlap < max_chars].  In every other case the
    loop runs for ever. *)
Theorem chunk_text_returns_iff (t : pystr) (max_chars overlap : Z) :
  (exists fuel out, chunk_text fuel t max_chars overlap = Some out)
  <-> strip t = [] \/ (overlap <= 0 /\ overlap < max_chars).
Proof.
  unfold chunk_text. split.
  - intros (fuel & out & Hrun).
    destruct (strip t) as [|c s] eqn:Hs; [left; reflexivity|right].
    cbn [truthy negb] in Hrun.
    assert (Hstart : 0 <= 0 < py_len (c :: s))
      by (unfold py_len; simpl length; lia).
    destruct (Z.le_gt_cases overlap 0) as [Hov|Hov].
    + split; [exact Hov|].
      destruct (Z.lt_ge_cases overlap max_chars) as [Hlt|Hge];
        [exact Hlt|].
      rewrite chunk_loop_stalls in Hrun by (assumption || lia).
      discriminate.
    + rewrite chunk_loop_diverges in Hrun by (assumption || lia).
      discriminate.
  - intros [Hblank|[Hov Hstep]].
    + exists O, []. rewrite Hblank. reflexivity.
    + destruct (strip t) as [|c s] eqn:Hs; [exists O, []; reflexivity|].
      cbn [truthy negb].
      destruct (chunk_loop_advances (c :: s) max_chars overlap Hov Hstep
                  (length (c :: s)) 0 []) as [out Hout];
        [lia|unfold py_len; lia|].
      exists (S (length (c :: s))), out. exact Hout.
Qed.

(** X7.  With no overlap, a text that fits the window after trimming
    gives one fragment: the trimmed text. *)
Theorem chunk_text_short_text (t : pystr) (max_chars overlap : Z) :
  overlap <= 0 -> strip t <> [] -> py_len (strip t) <= max_chars ->
  chunk_text 2 t max_chars overlap = Some [strip t].
Proof.
  intros Hov Hne Hfit. unfold chunk_text.
  destruct (strip t) as [|c s] eqn:Hs; [congruence|].
  cbn [truthy negb chunk_loop].
  assert (Hpos : 0 < py_len (c :: s)) by (unfold py_len; simpl length; lia).
  destruct (Z.ltb_spec 0 (py_len (c :: s))) as [_|]; [|lia].
  replace (Z.min (py_len (c :: s)) (0 + max_chars)) with (py_len (c :: s))
    by lia.
  destruct (Z.ltb_spec (py_len (c :: s) - overlap) 0); [lia|].
  destruct (Z.ltb_spec (py_len (c :: s) - overlap) (py_len (c :: s)));
    [lia|].
  cbn [app]. do 2 f_equal.
  assert (Hwhole : py_slice (c :: s) 0 (py_len (c :: s)) = c :: s).
  { rewrite py_slice_inside by lia.
    change (Z.to_nat 0) with O. rewrite skipn_O, Z.sub_0_r.
    unfold py_len. rewrite Nat2Z.id. apply firstn_all. }
  rewrite Hwhole, <- Hs. apply strip_idempotent.
Qed.

Lemma chunk_text_short_text_witness :
  chunk_text 2 (str "  A clickable button ") 600 0
  = Some [strip (str "  A clickable button ")].
Proof.
  apply chunk_text_short_text; [lia|vm_compute; discriminate|].
  vm_compute. discriminate.
Defined.

(* ===================================================================== *)
(** * More on the size-bounded partitioner                                *)
(* ===================================================================== *)

(** The loop packs tightly, and the first file it adds starts with the
    pending batch. *)
Lemma split_loop_packed (max_size_bytes : Z) (docs : list pyval) :
  forallb serializable docs = true ->
  forall part_num current_batch current_size written,
    current_size = accounted_size current_batch ->
    exists new,
      split_loop max_size_bytes docs part_num current_batch current_size
        written = (written ++ new, None) /\
      tightly_packed max_size_bytes (map snd new) /\
      (current_batch <> [] ->
       exists more rest, map snd new = (current_batch ++ more) :: rest).
Proof.
  induction docs as [|doc rest IH];
    intros Hser part_num batch size written Hsize.
  - simpl. destruct batch as [|d batch].
    + exists []. rewrite app_nil_r. repeat split. congruence.
    + exists [(part_num, d :: batch)]. simpl. repeat split.
      intros _. exists [], []. rewrite app_nil_r. reflexivity.
  - simpl in Hser. apply andb_true_iff in Hser as [Hdoc Hrest].
    cbn [split_loop]. unfold json_dumps_len. rewrite Hdoc.
    destruct ((max_size_bytes <? size + dumps_len 2 2 doc) && truthy batch)
      eqn:Hflush.
    + apply andb_true_iff in Hflush as [Hover Hne].
      apply Z.ltb_lt in Hover.
      destruct (IH Hrest (part_num + 1) ([] ++ [doc])
                  (0 + dumps_len 2 2 doc)
                  (written ++ [(part_num, batch)]))
        as (new & Hrun & Hpacked & Hfirst).
      { unfold accounted_size, total. simpl. lia. }
      destruct Hfirst as (more & others & Hnew); [discriminate|].
      exists ((part_num, batch) :: new). rewrite Hrun, <- app_assoc.
      split; [reflexivity|]. cbn [map snd]. split.
      * rewrite Hnew in *. cbn [tightly_packed app] in *.
        split; [lia|exact Hpacked].
      * intros _. exists [], (map snd new). rewrite app_nil_r. reflexivity.
    + destruct (IH Hrest part_num (batch ++ [doc])
                  (size + dumps_len 2 2 doc) written)
        as (new & Hrun & Hpacked & Hfirst).
      { rewrite accounted_size_snoc. lia. }
      exists new. rewrite Hrun. split; [reflexivity|].
      split; [exact Hpacked|]. intros _.
      destruct Hfirst as (more & others & Hnew);
        [destruct batch; discriminate|].
      exists (doc :: more), others. rewrite Hnew, <- app_assoc.
      reflexivity.
Qed.

(** X8.  The partitioner packs greedily: a partition is closed only when
    the next document would take its accounted size over the bound, so
    every partition but the last, together with the first document of the
    partition after it, is accounted above the bound. *)
Theorem split_file_by_size_packs_tightly (docs : list pyval)
    (max_size_mb : Z) :
  forallb serializable docs = true ->
  exists parts,
    split_file_by_size docs max_size_mb = (parts, None) /\
    tightly_packed (max_size_mb * 1024 * 1024) (map snd parts).
Proof.
  intros Hser. unfold split_file_by_size.
  destruct (split_loop_packed (max_size_mb * 1024 * 1024) docs Hser
              1 [] 0 []) as (parts & Hrun & Hpacked & _); [reflexivity|].
  exists parts. split; assumption.
Qed.

Lemma split_file_by_size_packs_tightly_witness :
  exists parts,
    split_file_by_size [doc_c1; doc_c2] 0 = (parts, None) /\
    tightly_packed (0 * 1024 * 1024) (map snd parts).
Proof.
  apply (split_file_by_size_packs_tightly [doc_c1; doc_c2] 0).
  reflexivity.
Defined.

(** The loop on documents followed by one [json.dumps] rejects: it raises
    where the loop on the documents alone would make its last flush. *)
Lemma split_loop_rejected (max_size_bytes : Z) (bad : pyval)
    (rest : list pyval) (good : list pyval) :
  serializable bad = false ->
  forallb serializable good = true ->
  forall part_num current_batch current_size written,
    exists new,
      split_loop max_size_bytes good part_num current_batch current_size
        written = (written ++ new, None) /\
      split_loop max_size_bytes (good ++ bad :: rest) part_num current_batch
        current_size written = (written ++ removelast new, Some TypeError) /\
      (current_batch <> [] -> new <> []).
Proof.
  intros Hbad. induction good as [|doc good IH];
    intros Hser part_num batch size written.
  - change ([] ++ bad :: rest) with (bad :: rest).
    cbn [split_loop]. unfold json_dumps_len. rewrite Hbad.
    destruct batch as [|d batch].
    + exists []. cbn [truthy removelast]. rewrite app_nil_r.
      split; [reflexivity|]. split; [reflexivity|congruence].
    + exists [(part_num, d :: batch)]. cbn [truthy removelast].
      rewrite app_nil_r.
      split; [reflexivity|]. split; [reflexivity|discriminate].
  - simpl in Hser. apply andb_true_iff in Hser as [Hdoc Hgood].
    change ((doc :: good) ++ bad :: rest) with (doc :: (good ++ bad :: rest)).
    cbn [split_loop]. unfold json_dumps_len. rewrite Hdoc.
    destruct ((max_size_bytes <? size + dumps_len 2 2 doc) && truthy batch).
    + destruct (IH Hgood (part_num + 1) ([] ++ [doc])
                  (0 + dumps_len 2 2 doc)
                  (written ++ [(part_num, batch)]))
        as (new & Hok & Herr & Hne).
      exists ((part_num, batch) :: new).
      unfold json_dumps_len in *. rewrite Hok, Herr, <- !app_assoc.
      repeat split; [|discriminate].
      cbn [app]. do 3 f_equal.
      destruct new as [|p new]; [exfalso; apply Hne; discriminate + reflexivity|].
      reflexivity.
    + destruct (IH Hgood part_num (batch ++ [doc])
                  (size + dumps_len 2 2 doc) written)
        as (new & Hok & Herr & Hne).
      exists new. unfold json_dumps_len in *. rewrite Hok, Herr.
      repeat split. intros _. apply Hne. destruct batch; discriminate.
Qed.

(** X9.  A document [json.dumps] rejects (one holding a [Decimal]) ends
    the run with [TypeError]: the files written are those of the run on
    the documents before it, except the last, so the batch that was
    pending is never written. *)
Theorem split_file_by_size_rejected_document (good : list pyval)
    (bad : pyval) (rest : list pyval) (max_size_mb : Z) :
  forallb serializable good = true -> serializable bad = false ->
  split_file_by_size (good ++ bad :: rest) max_size_mb
  = (removelast (fst (split_file_by_size good max_size_mb)),
     Some TypeError).
Proof.
  intros Hgood Hbad. unfold split_file_by_size.
  destruct (split_loop_rejected (max_size_mb * 1024 * 1024) bad rest good
              Hbad Hgood 1 [] 0 []) as (new & Hok & Herr & _).
  rewrite Hok, Herr. reflexivity.
Qed.

Lemma split_file_by_size_rejected_document_witness :
  split_file_by_size
    ([doc_c1; doc_c2] ++ PDict [(str "ratio", PFloat (3 # 2))] :: []) 0
  = (removelast (fst (split_file_by_size [doc_c1; doc_c2] 0)),
     Some TypeError).
Proof.
  apply split_file_by_size_rejected_document; reflexivity.
Defined.

Example split_file_by_size_loses_pending_batch :
  split_file_by_size
    ([doc_c1; doc_c2] ++ PDict [(str "ratio", PFloat (3 # 2))] :: []) 0
  = ([(1, [doc_c1])], Some TypeError).
Proof. vm_compute. reflexivity. Qed.

(* ===================================================================== *)
(** * More on the retrieval aggregator                                    *)
(* ===================================================================== *)

Lemma py_take_length {A : Type} (l : list A) (n : Z) :
  py_len (py_take l n) = take_count n (py_len l).
Proof.
  unfold py_take, py_slice, slice_bound, take_count.
  destruct (Z.ltb_spec 0 0); [lia|].
  assert (H0L : Z.min 0 (py_len l) = 0) by (unfold py_len; lia).
  rewrite H0L. change (Z.to_nat 0) with O. rewrite skipn_O, Z.sub_0_r.
  unfold py_len. rewrite length_firstn.
  destruct (Z.ltb_spec n 0); lia.
Qed.

Lemma py_take_In {A : Type} (l : list A) (n : Z) (a : A) :
  In a (py_take l n) -> In a l.
Proof.
  unfold py_take, py_slice. intros Hin.
  set (rest := skipn _ l) in *. set (k := Z.to_nat _) in Hin.
  assert (Hrest : In a rest).
  { rewrite <- (firstn_skipn k rest). apply in_or_app. left. exact Hin. }
  unfold rest in Hrest.
  match type of Hrest with
  | In a (skipn ?m l) =>
      rewrite <- (firstn_skipn m l); apply in_or_app; right; exact Hrest
  end.
Qed.

(** A group with a hit always makes a row. *)
Lemma make_row_total (per_component : Z) (cid : pystr) (hs : list hit) :
  hs <> [] ->
  exists r,
    make_row per_component (cid, hs) = Ok r /\
    row_component_id r = cid /\
    top_chunks r = py_take (py_sorted (fun x => - score x)%Q hs)
                     per_component.
Proof.
  intros Hne. unfold make_row.
  pose proof (py_sorted_perm (fun x => - score x)%Q hs) as Hp.
  destruct (py_sorted (fun x => - score x)%Q hs) as [|h0 others] eqn:Hs.
  - apply Permutation_nil in Hp. congruence.
  - eexists. repeat split.
Qed.

(** Every group that was discovered makes its row. *)
Lemma make_rows_total (hits : list hit) (per_component : Z)
    (cids : list pystr) :
  (forall cid, In cid cids -> hits_of cid hits <> []) ->
  exists rows0,
    for_each (make_row per_component) (fresh_groups cids hits) = Ok rows0 /\
    length rows0 = length cids /\
    Forall (fun r =>
      py_len (top_chunks r)
      = take_count per_component
          (py_len (hits_of (row_component_id r) hits)) /\
      Forall (fun h => In h hits /\ component_id h = row_component_id r)
        (top_chunks r)) rows0.
Proof.
  induction cids as [|cid cids IH]; intros Hne.
  - exists []. split; [reflexivity|]. split; [reflexivity|constructor].
  - destruct IH as (rows0 & Hrun & Hlen & Hall);
      [intros; apply Hne; right; assumption|].
    destruct (make_row_total per_component cid (hits_of cid hits))
      as (r & Hr & Hc & Htop); [apply Hne; left; reflexivity|].
    exists (r :: rows0). unfold fresh_groups in *. cbn [map for_each].
    rewrite Hr. cbn [bind]. rewrite Hrun. cbn [bind].
    split; [reflexivity|]. split; [simpl; congruence|].
    constructor; [|exact Hall].
    rewrite Hc, Htop, py_take_length. unfold py_len.
    rewrite py_sorted_length. split; [reflexivity|].
    apply List.Forall_forall. intros h Hh.
    apply py_take_In, py_sorted_In, hits_of_In in Hh. exact Hh.
Qed.

(** As many rows as there are component ids among the hits. *)
Lemma aggregate_row_count (hits : list hit) (per_component : Z) :
  exists rows,
    aggregate hits per_component = Ok rows /\
    length rows = length (nodup pystr_eq_dec (map component_id hits)).
Proof.
  unfold aggregate. rewrite group_hits_spec, <- discovery_order_count.
  destruct (make_rows_total hits per_component (discovery_order hits [])
              (discovered_has_hits hits)) as (rows0 & -> & Hlen & _).
  cbn [bind]. eexists. split; [reflexivity|].
  rewrite py_sorted_length. exact Hlen.
Qed.

(** X10.  The aggregator never raises, whatever [per_component] is: no
    group is empty, so [hs_sorted[0]] always exists.  Every row holds as
    many chunks as the slice [[:per_component]] keeps of its component's
    hits (none for 0, all but the last ones for a negative number),
    every chunk is one of the input hits of the row's component, and there
    is one row for each distinct component id. *)
Theorem aggregate_never_raises (hits : list hit) (per_component : Z) :
  exists rows,
    aggregate hits per_component = Ok rows /\
    length rows = length (nodup pystr_eq_dec (map component_id hits)) /\
    Forall (fun r =>
      py_len (top_chunks r)
      = take_count per_component
          (py_len (hits_of (row_component_id r) hits)) /\
      Forall (fun h => In h hits /\ component_id h = row_component_id r)
        (top_chunks r)) rows.
Proof.
  unfold aggregate. rewrite group_hits_spec.
  rewrite <- discovery_order_count.
  destruct (make_rows_total hits per_component (discovery_order hits [])
              (discovered_has_hits hits)) as (rows0 & -> & Hlen & Hall).
  cbn [bind].
  eexists. split; [reflexivity|].
  split; [rewrite py_sorted_length; exact Hlen|].
  apply List.Forall_forall. intros r Hr. apply py_sorted_In in Hr.
  rewrite List.Forall_forall in Hall. apply Hall, Hr.
Qed.

(** With [per_component = 0] the rows come out without a chunk. *)
Example aggregate_zero_per_component :
  aggregate example_hits 0
  = Ok [ Row (str "A") (str "Alpha") (str "src/Alpha.tsx") (9 # 10) [];
         Row (str "B") (str "Beta") (str "src/Beta.tsx") (5 # 10) [] ].
Proof. vm_compute. reflexivity. Qed.

(* ===================================================================== *)
(** * The flat-index query (src/bckup/query_cli.py)                       *)
(* ===================================================================== *)

(** X11.  The hits are collected exactly when no index of the search
    result lies past the end of the metadata list (a negative index is
    the store's "no match" and is passed over); otherwise [chunks[idx]]
    raises [IndexError].  The hits come in the order of the search
    result, each with the metadata at its index and its own score. *)
Theorem collect_hits_in_range (chunks : list hit) (found : list (Q * Z)) :
  (Forall (fun m => snd m < py_len chunks) found ->
   exists hits,
     collect_hits chunks found = Ok hits /\
     Forall2 (fun m h =>
                exists meta,
                  nth_error chunks (Z.to_nat (snd m)) = Some meta /\
                  scored meta (fst m) h)
       (List.filter (fun m => negb (snd m <? 0)) found) hits) /\
  (Exists (fun m => py_len chunks <= snd m) found ->
   collect_hits chunks found = Raise IndexError).
Proof.
  unfold collect_hits. split.
  - induction 1 as [|[s idx] found Hidx Hfound IH];
      [exists []; split; [reflexivity|constructor]|].
    destruct IH as (hits & Hrun & Hall). cbn [List.filter snd fst] in *.
    destruct (Z.ltb_spec idx 0) as [Hneg|Hpos]; cbn [negb].
    + exists hits. split; assumption.
    + destruct (nth_error chunks (Z.to_nat idx)) as [meta|] eqn:Hmeta.
      * eexists. cbn [for_each snd fst]. rewrite Hmeta. cbn [bind].
        rewrite Hrun. cbn [bind]. split; [reflexivity|].
        constructor; [|exact Hall].
        exists meta. split; [exact Hmeta|]. repeat split.
      * apply nth_error_None in Hmeta. unfold py_len in Hidx. lia.
  - induction 1 as [[s idx] found Hidx|[s idx] found Hfound IH];
      cbn [List.filter snd fst] in *.
    + pose proof (Zle_0_nat (length chunks)).
      destruct (Z.ltb_spec idx 0) as [Hneg|Hpos];
        [unfold py_len in Hidx; lia|].
      cbn [negb for_each snd].
      assert (Hnone : nth_error chunks (Z.to_nat idx) = None)
        by (apply nth_error_None; unfold py_len in Hidx; lia).
      rewrite Hnone. reflexivity.
    + destruct (Z.ltb_spec idx 0) as [Hneg|Hpos]; cbn [negb];
        [exact IH|].
      cbn [for_each snd].
      destruct (nth_error chunks (Z.to_nat idx)); [|reflexivity].
      cbn [bind]. rewrite IH. reflexivity.
Qed.

Lemma collect_hits_nil (chunks : list hit) (found : list (Q * Z))
    (hits : list hit) :
  collect_hits chunks found = Ok hits ->
  (hits = [] <-> Forall (fun m => snd m < 0) found).
Proof.
  unfold collect_hits. revert hits.
  induction found as [|[s idx] found IH]; intros hits Hrun.
  - injection Hrun as <-. split; [constructor|reflexivity].
  - cbn [List.filter snd] in Hrun.
    destruct (Z.ltb_spec idx 0) as [Hneg|Hpos]; cbn [negb] in Hrun.
    + rewrite (IH hits Hrun). split.
      * intros Hall. constructor; [exact Hneg|exact Hall].
      * intros Hall. inversion Hall; assumption.
    + cbn [for_each snd] in Hrun.
      destruct (nth_error chunks (Z.to_nat idx)); [|discriminate].
      cbn [bind] in Hrun.
      destruct (for_each _ _); [|discriminate].
      injection Hrun as <-. split; [discriminate|].
      intros Hall. inversion Hall as [|? ? Hlt _]. cbn [snd] in Hlt. lia.
Qed.

Lemma collect_hits_no_match (chunks : list hit) (found : list (Q * Z)) :
  Forall (fun m => snd m < 0) found -> collect_hits chunks found = Ok [].
Proof.
  unfold collect_hits.
  induction 1 as [|[s idx] found Hneg _ IH]; [reflexivity|].
  cbn [List.filter snd] in *.
  destruct (Z.ltb_spec idx 0) as [_|Hpos]; [exact IH|lia].
Qed.

(** X12.  [query] finds no row, and prints "No matches found.", exactly
    when the search result holds nothing but the "no match" index. *)
Theorem query_rows_no_matches (chunks : list hit) (found : list (Q * Z))
    (per_component : Z) :
  query_rows chunks found per_component = Ok []
  <-> Forall (fun m => snd m < 0) found.
Proof.
  unfold query_rows. split.
  - intros Hrun.
    destruct (collect_hits chunks found) as [hits|e] eqn:Hhits;
      [|discriminate].
    cbn [bind] in Hrun. apply (collect_hits_nil _ _ _ Hhits).
    destruct (aggregate_row_count hits per_component)
      as (rows & Hrows & Hlen).
    rewrite Hrun in Hrows. injection Hrows as <-.
    destruct hits as [|h hits]; [reflexivity|].
    assert (Hin : In (component_id h)
                    (nodup pystr_eq_dec (map component_id (h :: hits))))
      by (apply nodup_In; left; reflexivity).
    destruct (nodup pystr_eq_dec (map component_id (h :: hits)));
      [contradiction|discriminate Hlen].
  - intros Hall.
    rewrite (collect_hits_no_match chunks found Hall). reflexivity.
Qed.

(** A stale index: the store knows a vector the metadata list lacks. *)
Example query_rows_stale_index :
  query_rows [hit_A1] [(9 # 10, 0); (5 # 10, 1)] 1 = Raise IndexError.
Proof. reflexivity. Qed.

(* ===================================================================== *)
(** * Proofs: the shape of a document's fragments                         *)
(* ===================================================================== *)

Lemma enumerate_from_ids {A : Type} (f : Z -> pystr) (l : list A) :
  forall (k : nat),
    map (fun ic : Z * A => f (fst ic)) (enumerate_from (Z.of_nat k) l)
    = map (fun i => f (Z.of_nat i)) (seq k (length l)).
Proof.
  induction l as [|a l IH]; intros k; [reflexivity|].
  cbn [enumerate_from map length seq fst]. f_equal.
  replace (Z.of_nat k + 1) with (Z.of_nat (S k)) by lia. apply IH.
Qed.

Section ShapeFacts.

Variable py_repr : pyval -> pystr.

(** The code fragments of a snippet: none, one with the suffix [_code], or
    the numbered parts. *)
Lemma process_code_snippet_shape (raw_code component_id component_name
    file_path : pyval) (chunks : list chunk) :
  process_code_snippet py_repr raw_code component_id component_name file_path
  = Ok chunks ->
  Forall (fun c => ck_chunk_type c = Code /\
                   ck_component_id c = component_id) chunks /\
  (map ck_chunk_id chunks = [py_str py_repr component_id ++ str "_code"] \/
   exists n, map ck_chunk_id chunks
             = code_part_ids (py_str py_repr component_id) n).
Proof.
  unfold process_code_snippet.
  destruct (py_truthy raw_code).
  2:{ intros [= <-]. split; [constructor|]. right. exists O. reflexivity. }
  cbn [negb].
  destruct raw_code as [ | | | |raw| | ]; try discriminate.
  destruct (py_len (strip raw) <? 50).
  { intros [= <-]. split; [constructor|]. right. exists O. reflexivity. }
  destruct (py_len (clean_code_for_search raw) <=? 600).
  { intros [= <-]. split; [repeat constructor|]. left. reflexivity. }
  intros [= <-]. split.
  - apply Forall_map. apply List.Forall_forall. intros [i c] _.
    split; reflexivity.
  - right. exists (length (split_code (clean_code_for_search raw) 500)).
    rewrite map_map. unfold code_part_ids.
    rewrite <- (enumerate_from_ids
                  (fun i => py_str py_repr component_id ++ str "_code_"
                            ++ str_of_int i) _ 0).
    apply map_ext. intros [i c]. reflexivity.
Qed.

(** The fragments of one document: the basic one, then at most one for
    the props, then the code fragments; all carry the document's id. *)
Lemma extract_component_chunks_shape (doc : list (pystr * pyval))
    (chunks : list chunk) :
  extract_component_chunks py_repr doc = Ok chunks ->
  let component_id := py_get doc "id" (PStr []) in
  let prefix := py_str py_repr component_id in
  exists basic props_part code_part,
    chunks = basic :: props_part ++ code_part /\
    ck_chunk_type basic = BasicInfo /\
    ck_chunk_id basic = prefix ++ str "_basic" /\
    Forall (fun c => ck_chunk_type c = Props) props_part /\
    (map ck_chunk_id props_part = []
     \/ map ck_chunk_id props_part = [prefix ++ str "_props"]) /\
    Forall (fun c => ck_chunk_type c = Code) code_part /\
    (map ck_chunk_id code_part = [prefix ++ str "_code"] \/
     exists n, map ck_chunk_id code_part = code_part_ids prefix n) /\
    Forall (fun c => ck_component_id c = component_id) chunks.
Proof.
  unfold extract_component_chunks. intros Hrun. cbv zeta.
  repeat match type of Hrun with
         | bind ?r _ = _ =>
             let part := fresh "part" in
             let Hpart := fresh "Hpart" in
             destruct r as [part|] eqn:Hpart;
             cbn [bind] in Hrun; [|discriminate Hrun]
         end.
  assert (Hbasic : exists basic,
            chunks = basic :: part1 ++ part2 /\
            ck_chunk_type basic = BasicInfo /\
            ck_chunk_id basic
            = py_str py_repr (py_get doc "id" (PStr [])) ++ str "_basic" /\
            ck_component_id basic = py_get doc "id" (PStr [])).
  { eexists. injection Hrun as <-. repeat split. }
  clear Hrun. destruct Hbasic as (basic & -> & Htype & Hid & Hcid).
  exists basic, part1, part2.
  split; [reflexivity|]. split; [exact Htype|]. split; [exact Hid|].
  assert (Hprops :
    Forall (fun c => ck_chunk_type c = Props /\
                     ck_component_id c = py_get doc "id" (PStr [])) part1 /\
    (map ck_chunk_id part1 = [] \/
     map ck_chunk_id part1
     = [py_str py_repr (py_get doc "id" (PStr [])) ++ str "_props"])).
  { destruct (py_get doc "props" PNone) as [ | | | | | |props];
      try (injection Hpart1 as <-; split; [constructor|left; reflexivity]).
    destruct (truthy props);
      [|injection Hpart1 as <-; split; [constructor|left; reflexivity]].
    destruct (format_props_info py_repr props _) as [props_info|];
      [|discriminate Hpart1].
    cbn [bind] in Hpart1. injection Hpart1 as <-.
    destruct (truthy props_info);
      [split; [repeat constructor|right; reflexivity]
      |split; [constructor|left; reflexivity]]. }
  assert (Hcode :
    Forall (fun c => ck_chunk_type c = Code /\
                     ck_component_id c = py_get doc "id" (PStr [])) part2 /\
    (map ck_chunk_id part2
     = [py_str py_repr (py_get doc "id" (PStr [])) ++ str "_code"] \/
     exists n, map ck_chunk_id part2
               = code_part_ids
                   (py_str py_repr (py_get doc "id" (PStr []))) n)).
  { destruct (py_truthy (py_get doc "raw" PNone)).
    - apply process_code_snippet_shape in Hpart2. exact Hpart2.
    - injection Hpart2 as <-. split; [constructor|].
      right. exists O. reflexivity. }
  destruct Hprops as [Hp1 Hp2]. destruct Hcode as [Hc1 Hc2].
  split; [eapply List.Forall_impl; [|exact Hp1]; intros c Hc; apply Hc|].
  split; [exact Hp2|].
  split; [eapply List.Forall_impl; [|exact Hc1]; intros c Hc; apply Hc|].
  split; [exact Hc2|].
  constructor; [exact Hcid|]. apply Forall_app. split.
  - eapply List.Forall_impl; [|exact Hp1]. intros c Hc. apply Hc.
  - eapply List.Forall_impl; [|exact Hc1]. intros c Hc. apply Hc.
Qed.

End ShapeFacts.

(* ===================================================================== *)
(** * Proofs: fragment ids                                                *)
(* ===================================================================== *)

Lemma str_inj (s t : string) : str s = str t -> s = t.
Proof.
  intros Heq. unfold str in Heq.
  rewrite <- (string_of_list_ascii_of_string s),
          <- (string_of_list_ascii_of_string t), Heq.
  reflexivity.
Qed.

Lemma to_int_proper (z : Z) :
  Z.to_int z <> Decimal.Pos Decimal.Nil /\
  Z.to_int z <> Decimal.Neg Decimal.Nil.
Proof.
  split; intros Heq; pose proof (DecimalZ.of_to z) as Hz;
    rewrite Heq in Hz; cbn in Hz; subst z; discriminate Heq.
Qed.

(** [str(n)] tells the integers apart. *)
Lemma str_of_int_inj (n m : Z) : str_of_int n = str_of_int m -> n = m.
Proof.
  unfold str_of_int. intros Heq. apply str_inj in Heq.
  destruct (to_int_proper n) as [Hn1 Hn2].
  destruct (to_int_proper m) as [Hm1 Hm2].
  pose proof (NilZero.isi (Z.to_int n) Hn1 Hn2) as Hpn.
  pose proof (NilZero.isi (Z.to_int m) Hm1 Hm2) as Hpm.
  rewrite Heq, Hpm in Hpn. injection Hpn as Hpn.
  rewrite <- (DecimalZ.of_to n), <- (DecimalZ.of_to m), Hpn. reflexivity.
Qed.

Lemma string_of_uint_digits (d : Decimal.uint) :
  Forall (fun c => is_digit c = true) (str (NilEmpty.string_of_uint d)).
Proof.
  induction d; cbn [NilEmpty.string_of_uint str list_ascii_of_string];
    constructor; (reflexivity || exact IHd).
Qed.

(** The digits of a natural number. *)
Lemma str_of_int_digits (i : nat) :
  Forall (fun c => is_digit c = true) (str_of_int (Z.of_nat i)) /\
  str_of_int (Z.of_nat i) <> [].
Proof.
  unfold str_of_int.
  assert (Hpos : exists d, Z.to_int (Z.of_nat i) = Decimal.Pos d /\
                           d <> Decimal.Nil).
  { destruct (Z.of_nat i) as [|p|p] eqn:Hi; [| |lia].
    - eexists. split; [reflexivity|discriminate].
    - eexists. split; [reflexivity|].
      intros Hnil. pose proof (DecimalPos.Unsigned.of_to p) as Hp.
      rewrite Hnil in Hp. discriminate Hp. }
  destruct Hpos as (d & -> & Hd).
  cbn [NilZero.string_of_int]. unfold NilZero.string_of_uint.
  destruct d; try congruence;
    (split; [apply string_of_uint_digits|discriminate]).
Qed.

(** Behind a run of digits, the first character that is none is where
    the run ends. *)
Lemma digits_then_other (x y u v : pystr) (c : ascii) :
  is_digit c = false ->
  Forall (fun d => is_digit d = true) x ->
  Forall (fun d => is_digit d = true) y ->
  x ++ c :: u = y ++ c :: v -> x = y /\ u = v.
Proof.
  intros Hc Hx. revert y.
  induction Hx as [|a x Ha Hx IH]; intros y Hy Heq.
  - destruct Hy as [|b y Hb Hy]; cbn [app] in Heq.
    + injection Heq as ->. split; reflexivity.
    + injection Heq as -> _. congruence.
  - destruct Hy as [|b y Hb Hy]; cbn [app] in Heq.
    + injection Heq as -> _. congruence.
    + injection Heq as -> Heq. destruct (IH y Hy Heq) as [-> ->].
      split; reflexivity.
Qed.

(** The last character of a suffix tells its kind. *)
Lemma id_suffix_rev (s : pystr) :
  id_suffix s ->
  rev s = rev (str "_basic") \/ rev s = rev (str "_props") \/
  rev s = rev (str "_code") \/
  exists i, s = str "_code_" ++ str_of_int (Z.of_nat i) /\
            exists d ds, rev s = d :: ds /\ is_digit d = true.
Proof.
  intros [ | | |i]; [left|right; left|right; right; left|right; right; right];
    try reflexivity.
  exists i. split; [reflexivity|].
  destruct (str_of_int_digits i) as [Hdigits Hne].
  rewrite rev_app_distr.
  apply List.Forall_rev in Hdigits.
  destruct (rev (str_of_int (Z.of_nat i))) as [|d ds] eqn:Hrev.
  - apply (f_equal (@rev ascii)) in Hrev. rewrite rev_involutive in Hrev.
    contradiction.
  - exists d, (ds ++ rev (str "_code_")). split; [reflexivity|].
    inversion Hdigits; assumption.
Qed.

(** A fragment id is read in one way only: the document's id and the
    suffix are determined. *)
Lemma id_suffix_inj (a b s t : pystr) :
  id_suffix s -> id_suffix t -> a ++ s = b ++ t -> a = b /\ s = t.
Proof.
  intros Hs Ht Heq.
  assert (Hrev : rev s ++ rev a = rev t ++ rev b)
    by (rewrite <- !rev_app_distr, Heq; reflexivity).
  assert (Hsame : s = t -> a = b /\ s = t).
  { intros ->. split; [|reflexivity]. apply app_inv_tail in Heq. exact Heq. }
  destruct (id_suffix_rev s Hs) as [Hrs|[Hrs|[Hrs|(i & Hsi & d & ds & Hrs & Hd)]]];
    destruct (id_suffix_rev t Ht) as [Hrt|[Hrt|[Hrt|(j & Htj & e & es & Hrt & He)]]];
    rewrite Hrs, Hrt in Hrev;
    try (apply Hsame; apply (f_equal (@rev ascii)) in Hrs;
         rewrite rev_involutive in Hrs; rewrite Hrs;
         apply (f_equal (@rev ascii)) in Hrt;
         rewrite rev_involutive in Hrt; rewrite Hrt;
         rewrite ?rev_involutive; reflexivity);
    try (cbn in Hrev; discriminate Hrev);
    try (cbn in Hrev; injection Hrev as Hhd _; rewrite Hhd in Hd;
         discriminate Hd);
    try (cbn in Hrev; injection Hrev as Hhd _; rewrite <- Hhd in He;
         discriminate He).
  (* two numbered parts *)
  clear Hrev Hrs Hrt Hd He d ds e es. subst s t. apply Hsame.
  assert (Hrev : rev (str_of_int (Z.of_nat i))
                   ++ "_"%char :: (rev (str "_code") ++ rev a)
                 = rev (str_of_int (Z.of_nat j))
                   ++ "_"%char :: (rev (str "_code") ++ rev b)).
  { apply (f_equal (@rev ascii)) in Heq.
    rewrite !rev_app_distr in Heq.
    change (rev (str "_code_")) with ("_"%char :: rev (str "_code")) in Heq.
    rewrite <- !app_assoc in Heq. exact Heq. }
  apply digits_then_other in Hrev as [Hdigits _];
    [|reflexivity
     |apply List.Forall_rev, str_of_int_digits
     |apply List.Forall_rev, str_of_int_digits].
  apply (f_equal (@rev ascii)) in Hdigits.
  rewrite !rev_involutive in Hdigits. rewrite Hdigits. reflexivity.
Qed.

(** The suffixes of the numbered code parts. *)
Lemma code_part_ids_suffixes (prefix : pystr) (n : nat) :
  code_part_ids prefix n
  = map (app prefix)
      (map (fun i => str "_code_" ++ str_of_int (Z.of_nat i)) (seq 0 n)).
Proof. unfold code_part_ids. rewrite map_map. reflexivity. Qed.

Lemma part_suffixes_NoDup (n : nat) :
  List.NoDup
    (map (fun i => str "_code_" ++ str_of_int (Z.of_nat i)) (seq 0 n)).
Proof.
  apply List.NoDup_map_NoDup_ForallPairs; [|apply seq_NoDup].
  intros i j _ _ Heq. apply app_inv_head, str_of_int_inj in Heq. lia.
Qed.

Lemma part_suffixes_kind (n : nat) (s : pystr) :
  In s (map (fun i => str "_code_" ++ str_of_int (Z.of_nat i)) (seq 0 n)) ->
  id_suffix s /\ s <> str "_basic" /\ s <> str "_props" /\ s <> str "_code".
Proof.
  intros Hin. apply in_map_iff in Hin as (i & <- & _).
  split; [constructor|]. repeat split; discriminate.
Qed.

(** Different suffixes after one prefix give different ids. *)
Lemma prefixed_NoDup (prefix : pystr) (suffixes : list pystr) :
  List.NoDup suffixes -> List.NoDup (map (app prefix) suffixes).
Proof.
  intros Hnodup. apply List.NoDup_map_NoDup_ForallPairs; [|exact Hnodup].
  intros s t _ _ Heq. apply app_inv_head in Heq. exact Heq.
Qed.

Section IdFacts.

Variable py_repr : pyval -> pystr.

(** The ids of a document's fragments are the document's id followed by
    suffixes that differ. *)
Lemma extract_component_chunks_suffixes (doc : list (pystr * pyval))
    (chunks : list chunk) :
  extract_component_chunks py_repr doc = Ok chunks ->
  exists suffixes,
    map ck_chunk_id chunks
    = map (app (py_str py_repr (py_get doc "id" (PStr [])))) suffixes /\
    Forall id_suffix suffixes /\ List.NoDup suffixes.
Proof.
  intros Hrun.
  destruct (extract_component_chunks_shape py_repr doc chunks Hrun)
    as (basic & props_part & code_part & -> & _ & Hbasic & _ & Hprops & _
        & Hcode & _).
  cbv zeta in *. cbn [map]. rewrite map_app, Hbasic.
  set (prefix := py_str py_repr (py_get doc "id" (PStr []))) in *.
  assert (Hp : exists ps,
            map ck_chunk_id props_part = map (app prefix) ps /\
            (ps = [] \/ ps = [str "_props"])).
  { destruct Hprops as [->| ->].
    - exists []. split; [reflexivity|left; reflexivity].
    - exists [str "_props"]. split; [reflexivity|right; reflexivity]. }
  assert (Hc : exists cs,
            map ck_chunk_id code_part = map (app prefix) cs /\
            (cs = [str "_code"] \/
             exists n, cs = map (fun i => str "_code_"
                                          ++ str_of_int (Z.of_nat i))
                              (seq 0 n))).
  { destruct Hcode as [->|[n ->]].
    - exists [str "_code"]. split; [reflexivity|left; reflexivity].
    - eexists. split; [apply code_part_ids_suffixes|right].
      exists n. reflexivity. }
  destruct Hp as (ps & -> & Hps). destruct Hc as (cs & -> & Hcs).
  exists (str "_basic" :: ps ++ cs). cbn [map]. rewrite map_app.
  split; [reflexivity|].
  assert (Hkinds : Forall (fun s => id_suffix s /\ s <> str "_basic"
                                    /\ s <> str "_props") cs /\
                   List.NoDup cs).
  { destruct Hcs as [->|[n ->]].
    - split; [|repeat constructor; intros []].
      repeat constructor; discriminate.
    - split; [|apply part_suffixes_NoDup].
      apply List.Forall_forall. intros s Hs.
      apply part_suffixes_kind in Hs. tauto. }
  destruct Hkinds as [Hkinds Hnodup].
  rewrite List.Forall_forall in Hkinds.
  split.
  - constructor; [constructor|]. apply Forall_app. split.
    + destruct Hps as [->| ->]; repeat constructor.
    + apply List.Forall_forall. intros s Hs. apply Hkinds, Hs.
  - constructor.
    + intros Hin. apply in_app_or in Hin as [Hin|Hin].
      * destruct Hps as [->| ->]; [destruct Hin|].
        destruct Hin as [Hin|[]]. discriminate Hin.
      * apply Hkinds in Hin. tauto.
    + apply List.NoDup_app; [| exact Hnodup|].
      * destruct Hps as [->| ->]; repeat constructor. intros [].
      * intros s Hs Hs'. apply Hkinds in Hs'.
        destruct Hps as [->| ->]; [destruct Hs|].
        destruct Hs as [<-|[]]. tauto.
Qed.

(** X13.  The fragments the mapper makes of one document have ids that
    differ from one another: the document's id followed by [_basic],
    [_props], [_code] or [_code_<i>]. *)
Theorem extract_component_chunks_ids_distinct
    (doc : list (pystr * pyval)) (chunks : list chunk) :
  extract_component_chunks py_repr doc = Ok chunks ->
  List.NoDup (map ck_chunk_id chunks).
Proof.
  intros Hrun.
  destruct (extract_component_chunks_suffixes doc chunks Hrun)
    as (suffixes & -> & _ & Hnodup).
  apply prefixed_NoDup, Hnodup.
Qed.

End IdFacts.

Lemma extract_component_chunks_ids_distinct_witness :
  exists chunks,
    extract_component_chunks no_repr button_doc = Ok chunks /\
    List.NoDup (map ck_chunk_id chunks).
Proof.
  eexists. split; [vm_compute; reflexivity|].
  eapply (extract_component_chunks_ids_distinct no_repr button_doc).
  vm_compute. reflexivity.
Defined.

(* ===================================================================== *)
(** * Proofs: the in-memory collection processor                          *)
(* ===================================================================== *)

Lemma py_take_firstn_any {A : Type} (l : list A) (n : Z) :
  exists k, py_take l n = firstn k l.
Proof.
  unfold py_take, py_slice. eexists.
  replace (slice_bound 0 (py_len l)) with 0; [reflexivity|].
  unfold slice_bound, py_len. cbn. lia.
Qed.

(** What is taken of a collection is a prefix of it. *)
Lemma limit_components_prefix (components : list pyval)
    (max_components : option Z) :
  exists dropped,
    components = limit_components components max_components ++ dropped.
Proof.
  unfold limit_components.
  destruct max_components as [n|]; [destruct (n =? 0)|];
    try (exists []; rewrite app_nil_r; reflexivity).
  destruct (py_take_firstn_any components n) as [k ->].
  exists (skipn k components). symmetry. apply firstn_skipn.
Qed.

Section CollectionFacts.

Variable py_repr : pyval -> pystr.

Lemma create_chunks_loop_fragments (components : list pyval) :
  forallb is_dict components = true ->
  forall all_chunks,
    create_chunks_loop py_repr components all_chunks
    = Ok (all_chunks ++ concat (map (fragments_of py_repr) components)).
Proof.
  induction components as [|component rest IH]; intros Hdicts all_chunks.
  - cbn. rewrite app_nil_r. reflexivity.
  - cbn [forallb] in Hdicts. apply andb_true_iff in Hdicts as [Hdict Hrest].
    destruct component as [ | | | | | |members]; try discriminate Hdict.
    cbn [create_chunks_loop map concat fragments_of].
    destruct (extract_component_chunks py_repr members) as [cs|e].
    + rewrite IH by exact Hrest. rewrite app_assoc. reflexivity.
    + rewrite IH by exact Hrest. reflexivity.
Qed.

Lemma create_chunks_loop_raises (components : list pyval) :
  forallb is_dict components = false ->
  forall all_chunks,
    create_chunks_loop py_repr components all_chunks = Raise AttributeError.
Proof.
  induction components as [|component rest IH]; intros Hdicts all_chunks;
    [discriminate|].
  cbn [forallb] in Hdicts.
  destruct component as [ | | | | | |members]; try reflexivity.
  cbn [is_dict andb] in Hdicts. cbn [create_chunks_loop].
  destruct (extract_component_chunks py_repr members); apply IH, Hdicts.
Qed.

(** On objects only, the handler writes their fragments. *)
Lemma create_chunks_objects (components : list pyval)
    (max_components : option Z) :
  forallb is_dict (limit_components components max_components) = true ->
  create_chunks py_repr components max_components
  = Ok (concat (map (fragments_of py_repr)
                  (limit_components components max_components))).
Proof.
  intros Hdicts. unfold create_chunks.
  rewrite create_chunks_loop_fragments by exact Hdicts. reflexivity.
Qed.

(** X14.  The loop of [create_chunks] ends with an exception exactly when
    an item it processes is not an object: [AttributeError], from the
    handler's own [component.get].  Otherwise the loop completes, and the
    list handed to [json.dump] is the documents' fragments in document
    order, a document whose mapping raised being passed over with no
    fragment.  The statement ends where the list is handed over: the write
    of the list can still raise. *)
Theorem create_chunks_loop_outcome (components : list pyval)
    (max_components : option Z) :
  let taken := limit_components components max_components in
  (forallb is_dict taken = true ->
   create_chunks py_repr components max_components
   = Ok (concat (map (fragments_of py_repr) taken))) /\
  (forallb is_dict taken = false ->
   create_chunks py_repr components max_components = Raise AttributeError).
Proof.
  cbv zeta. split; intros Hdicts.
  - apply create_chunks_objects, Hdicts.
  - unfold create_chunks. apply create_chunks_loop_raises, Hdicts.
Qed.

(** The group of fragments of a Document of the data model. *)
Lemma fragments_of_typed (members : list (pystr * pyval)) :
  document_typed members ->
  exists basic rest,
    fragments_of py_repr (PDict members) = basic :: rest /\
    ck_chunk_type basic = BasicInfo /\
    Forall (fun c => ck_chunk_type c <> BasicInfo) rest /\
    Forall (fun c => ck_component_id c = component_id_of (PDict members))
      (basic :: rest).
Proof.
  intros Htyped. cbn [fragments_of component_id_of].
  destruct (extract_component_chunks_typed py_repr members Htyped)
    as (dp & lp & rest & Hrun & _ & Hkinds & _).
  pose proof (extract_component_chunks_shape py_repr members _ Hrun)
    as (basic & pp & cp & Heq & _ & _ & _ & _ & _ & _ & Hids).
  cbv zeta in Hids. rewrite Hrun.
  eexists. exists rest. split; [reflexivity|]. split; [reflexivity|].
  split; [|exact Hids].
  eapply List.Forall_impl; [|exact Hkinds].
  intros c [Hc|Hc]; rewrite Hc; discriminate.
Qed.

(** X15.  On a collection of Documents of the data model the loop of
    [create_chunks] raises nothing, and the list handed to [json.dump] is
    made of one group of fragments per document, in document order: each
    group starts with the document's only [basic_info] fragment, and all
    its fragments carry the document's id.  The statement ends where the
    list is handed over: the write of the list can still raise. *)
Theorem create_chunks_typed_collection (components : list pyval)
    (max_components : option Z) :
  Forall (fun component =>
            exists members,
              component = PDict members /\ document_typed members)
    components ->
  exists groups,
    create_chunks py_repr components max_components = Ok (concat groups) /\
    Forall2 (fun component group =>
               exists basic rest,
                 group = basic :: rest /\
                 ck_chunk_type basic = BasicInfo /\
                 Forall (fun c => ck_chunk_type c <> BasicInfo) rest /\
                 Forall (fun c => ck_component_id c
                                  = component_id_of component) group)
      (limit_components components max_components) groups.
Proof.
  intros Htyped.
  destruct (limit_components_prefix components max_components)
    as [dropped Hprefix].
  rewrite Hprefix in Htyped. apply Forall_app in Htyped as [Htaken _].
  clear Hprefix dropped.
  set (taken := limit_components components max_components) in *.
  exists (map (fragments_of py_repr) taken). split.
  - apply create_chunks_objects. apply forallb_forall. intros c Hc.
    rewrite List.Forall_forall in Htaken.
    destruct (Htaken c Hc) as (members & -> & _). reflexivity.
  - clearbody taken. induction Htaken as [|c taken Hc Htaken IH];
      [constructor|].
    cbn [map]. constructor; [|exact IH].
    destruct Hc as (members & -> & Hdoc).
    destruct (fragments_of_typed members Hdoc)
      as (basic & rest & Heq & Hbasic & Hrest & Hids).
    exists basic, rest. rewrite Heq. repeat split; assumption.
Qed.

End CollectionFacts.

Lemma create_chunks_typed_collection_witness :
  exists groups,
    create_chunks no_repr [PDict button_doc; doc_c2] (Some 5)
    = Ok (concat groups) /\
    Forall2 (fun component group =>
               exists basic rest,
                 group = basic :: rest /\
                 ck_chunk_type basic = BasicInfo /\
                 Forall (fun c => ck_chunk_type c <> BasicInfo) rest /\
                 Forall (fun c => ck_component_id c
                                  = component_id_of component) group)
      (limit_components [PDict button_doc; doc_c2] (Some 5)) groups.
Proof.
  apply (create_chunks_typed_collection no_repr
           [PDict button_doc; doc_c2] (Some 5)).
  repeat constructor; eexists; (split; [reflexivity|]);
    repeat split; repeat constructor.
Defined.

Section CollectionIds.

Variable py_repr : pyval -> pystr.

(** Every id among a document's fragments is the document's id with a
    suffix, and the ids differ. *)
Lemma fragments_of_ids (component : pyval) :
  List.NoDup (map ck_chunk_id (fragments_of py_repr component)) /\
  forall x,
    In x (map ck_chunk_id (fragments_of py_repr component)) ->
    exists s,
      id_suffix s /\ x = py_str py_repr (component_id_of component) ++ s.
Proof.
  destruct component as [ | | | | | |members];
    try (split; [constructor|intros x []]).
  cbn [fragments_of component_id_of].
  destruct (extract_component_chunks py_repr members) as [chunks|e] eqn:Hrun;
    [|split; [constructor|intros x []]].
  destruct (extract_component_chunks_suffixes py_repr members chunks Hrun)
    as (suffixes & -> & Hkinds & Hnodup).
  split; [apply prefixed_NoDup, Hnodup|].
  intros x Hx. apply in_map_iff in Hx as (s & <- & Hs).
  exists s. split; [|reflexivity].
  rewrite List.Forall_forall in Hkinds. apply Hkinds, Hs.
Qed.

Lemma concat_fragments_ids_distinct (components : list pyval) :
  Forall (fun c => exists id, component_id_of c = PStr id) components ->
  List.NoDup (map component_id_of components) ->
  List.NoDup
    (map ck_chunk_id (concat (map (fragments_of py_repr) components))).
Proof.
  induction components as [|c rest IH]; intros Hstr Hnodup; [constructor|].
  inversion Hstr as [|? ? [id Hid] Hrest]; subst.
  cbn [map] in Hnodup. apply NoDup_cons_iff in Hnodup as [Hfresh Hnodup].
  cbn [map concat]. rewrite map_app.
  destruct (fragments_of_ids c) as [Hown Hshape].
  apply List.NoDup_app; [exact Hown|apply IH; assumption|].
  intros x Hx Hx'. apply Hshape in Hx as (s & Hs & ->).
  rewrite concat_map, map_map in Hx'.
  apply in_concat in Hx' as (ids & Hids & Hx').
  apply in_map_iff in Hids as (c' & <- & Hc').
  destruct (fragments_of_ids c') as [_ Hshape'].
  apply Hshape' in Hx' as (t & Ht & Heq).
  rewrite List.Forall_forall in Hrest. destruct (Hrest c' Hc') as [id' Hid'].
  rewrite Hid, Hid' in Heq. cbn [py_str] in Heq.
  apply id_suffix_inj in Heq as [-> _]; [|assumption|assumption].
  apply Hfresh. rewrite Hid, <- Hid'. apply in_map, Hc'.
Qed.

(** X16.  When the documents are objects whose ids are strings (a missing
    id counts as the empty string) and no two have the same id, all the
    fragments [create_chunks] writes have ids that differ. *)
Theorem create_chunks_ids_distinct (components : list pyval)
    (max_components : option Z) (chunks : list chunk) :
  Forall (fun c => is_dict c = true /\
                   exists id, component_id_of c = PStr id) components ->
  List.NoDup (map component_id_of components) ->
  create_chunks py_repr components max_components = Ok chunks ->
  List.NoDup (map ck_chunk_id chunks).
Proof.
  intros Hstr Hnodup Hrun.
  destruct (limit_components_prefix components max_components)
    as [dropped Hprefix].
  rewrite Hprefix in Hstr, Hnodup.
  apply Forall_app in Hstr as [Hstr _].
  rewrite map_app in Hnodup. apply List.NoDup_app_remove_r in Hnodup.
  rewrite (create_chunks_objects py_repr) in Hrun.
  - injection Hrun as <-. apply concat_fragments_ids_distinct; [|exact Hnodup].
    eapply List.Forall_impl; [|exact Hstr]. intros c [_ Hid]. exact Hid.
  - apply forallb_forall. intros c Hc.
    rewrite List.Forall_forall in Hstr. apply Hstr, Hc.
Qed.

End CollectionIds.

Lemma create_chunks_ids_distinct_witness :
  exists chunks,
    create_chunks no_repr [PDict button_doc; doc_c2] None = Ok chunks /\
    List.NoDup (map ck_chunk_id chunks).
Proof.
  eexists. split; [vm_compute; reflexivity|].
  eapply (create_chunks_ids_distinct no_repr
            [PDict button_doc; doc_c2] None).
  - repeat constructor; eexists; reflexivity.
  - repeat constructor; cbn; intuition discriminate.
  - vm_compute. reflexivity.
Defined.

(** Without ids the fragments of two documents bear the same names. *)
Example create_chunks_missing_ids :
  option_map (map ck_chunk_id)
    (match create_chunks no_repr
             [PDict [(str "name", PStr (str "A"))];
              PDict [(str "name", PStr (str "B"))]] None with
     | Ok chunks => Some chunks
     | Raise _ => None
     end)
  = Some [str "_basic"; str "_basic"].
Proof. vm_compute. reflexivity. Qed.

(* ===================================================================== *)
(** * Proofs: the index builder                                           *)
(* ===================================================================== *)

Lemma firstn_firstn_skipn {A : Type} (l : list A) (x y : nat) :
  firstn x l ++ firstn y (skipn x l) = firstn (x + y) l.
Proof.
  revert l. induction x as [|x IH]; intros l; [reflexivity|].
  destruct l as [|a l]; [rewrite !firstn_nil; reflexivity|].
  cbn [firstn skipn Nat.add app]. rewrite IH. reflexivity.
Qed.

(** Two adjacent slices make one. *)
Lemma py_slice_app {A : Type} (l : list A) (a b c : Z) :
  0 <= a <= b -> b <= c ->
  py_slice l a b ++ py_slice l b c = py_slice l a c.
Proof.
  intros Hab Hbc. unfold py_slice, slice_bound.
  destruct (Z.ltb_spec a 0), (Z.ltb_spec b 0), (Z.ltb_spec c 0); try lia.
  set (L := py_len l).
  assert (HL : 0 <= L) by (unfold L, py_len; lia).
  assert (Hs : skipn (Z.to_nat (Z.min b L)) l
               = skipn (Z.to_nat (Z.min b L - Z.min a L))
                   (skipn (Z.to_nat (Z.min a L)) l))
    by (rewrite skipn_skipn; f_equal; lia).
  rewrite Hs.
  rewrite firstn_firstn_skipn. f_equal. lia.
Qed.

Lemma py_slice_clamp {A : Type} (l : list A) (a b : Z) :
  0 <= b -> py_slice l a (Z.min b (py_len l)) = py_slice l a b.
Proof.
  intros Hb. unfold py_slice, slice_bound.
  assert (HL : 0 <= py_len l) by (unfold py_len; lia).
  destruct (Z.ltb_spec (Z.min b (py_len l)) 0), (Z.ltb_spec b 0); try lia.
  rewrite Z.min_l by lia. reflexivity.
Qed.

Lemma py_slice_len {A : Type} (l : list A) (a b : Z) :
  0 <= a <= b ->
  py_len (py_slice l a b) = Z.min b (py_len l) - Z.min a (py_len l).
Proof.
  intros Hab. unfold py_slice, slice_bound.
  destruct (Z.ltb_spec a 0), (Z.ltb_spec b 0); try lia.
  unfold py_len. rewrite length_firstn, length_skipn. lia.
Qed.

Lemma py_slice_all {A : Type} (l : list A) (b : Z) :
  py_len l <= b -> py_slice l 0 b = l.
Proof.
  intros Hb. assert (HL : 0 <= py_len l) by (unfold py_len; lia).
  rewrite <- (py_slice_clamp l 0 b) by lia. rewrite Z.min_r by exact Hb.
  rewrite py_slice_inside by lia.
  change (Z.to_nat 0) with O. rewrite skipn_O, Z.sub_0_r.
  unfold py_len. rewrite Nat2Z.id. apply firstn_all.
Qed.

(** The batches of a list, one after the other, make a slice of it. *)
Lemma batches_concat {A : Type} (l : list A) (batch_size : Z) :
  1 <= batch_size ->
  forall count k0,
    concat (map (fun i => py_slice l i (Z.min (i + batch_size) (py_len l)))
              (map (fun k => 0 + Z.of_nat k * batch_size) (seq k0 count)))
    = py_slice l (Z.of_nat k0 * batch_size)
        (Z.of_nat (k0 + count) * batch_size).
Proof.
  intros Hbs. induction count as [|count IH]; intros k0.
  - cbn [seq map concat]. rewrite Nat.add_0_r.
    unfold py_slice. rewrite Z.sub_diag. reflexivity.
  - cbn [seq map concat]. rewrite IH.
    rewrite py_slice_clamp by nia.
    replace (0 + Z.of_nat k0 * batch_size + batch_size)
      with (Z.of_nat (S k0) * batch_size) by nia.
    replace (0 + Z.of_nat k0 * batch_size)
      with (Z.of_nat k0 * batch_size) by nia.
    rewrite py_slice_app by nia. f_equal. nia.
Qed.

Lemma py_range_batches (n batch_size : Z) :
  1 <= batch_size ->
  py_range 0 n batch_size
  = Ok (map (fun k => 0 + Z.of_nat k * batch_size)
          (seq 0 (Z.to_nat ((n + batch_size - 1) / batch_size)))).
Proof.
  intros Hbs. unfold py_range.
  destruct (Z.eqb_spec batch_size 0); [lia|].
  destruct (Z.ltb_spec 0 batch_size); [|lia].
  rewrite Z.sub_0_r. reflexivity.
Qed.

(** The batches of the three lists. *)
Lemma add_batches_partition (all : add_args) (batch_size : Z) :
  1 <= batch_size ->
  py_len (metadatas all) = py_len (documents all) ->
  py_len (ids all) = py_len (documents all) ->
  exists batches,
    add_batches all batch_size = Ok batches /\
    concat (map documents batches) = documents all /\
    concat (map metadatas batches) = metadatas all /\
    concat (map ids batches) = ids all /\
    Forall (fun b => 1 <= py_len (documents b) <= batch_size /\
                     py_len (metadatas b) = py_len (documents b) /\
                     py_len (ids b) = py_len (documents b)) batches /\
    py_len batches
    = (py_len (documents all) + batch_size - 1) / batch_size.
Proof.
  intros Hbs Hm Hi. unfold add_batches.
  rewrite py_range_batches by exact Hbs. cbn [bind].
  set (n := py_len (documents all)) in *.
  assert (Hn : 0 <= n) by (unfold n, py_len; lia).
  set (count := Z.to_nat ((n + batch_size - 1) / batch_size)).
  assert (Hcount : 0 <= (n + batch_size - 1) / batch_size)
    by (apply Z.div_pos; lia).
  assert (Hcover : n <= Z.of_nat (0 + count) * batch_size).
  { unfold count. rewrite Nat.add_0_l, Z2Nat.id by exact Hcount.
    pose proof (Z.mul_div_le (n + batch_size - 1) batch_size ltac:(lia)).
    pose proof (Z.mod_pos_bound (n + batch_size - 1) batch_size ltac:(lia)).
    pose proof (Z.div_mod (n + batch_size - 1) batch_size ltac:(lia)).
    nia. }
  eexists. split; [reflexivity|]. rewrite !map_map. cbn [documents metadatas ids].
  split; [|split; [|split; [|split]]].
  - rewrite <- (map_map (fun k => 0 + Z.of_nat k * batch_size)
                  (fun i => py_slice (documents all) i
                              (Z.min (i + batch_size) n))).
    unfold n at 1. rewrite batches_concat by exact Hbs.
    apply py_slice_all. fold n. lia.
  - rewrite <- (map_map (fun k => 0 + Z.of_nat k * batch_size)
                  (fun i => py_slice (metadatas all) i
                              (Z.min (i + batch_size) n))).
    rewrite <- Hm. rewrite batches_concat by exact Hbs.
    apply py_slice_all. rewrite Hm. lia.
  - rewrite <- (map_map (fun k => 0 + Z.of_nat k * batch_size)
                  (fun i => py_slice (ids all) i
                              (Z.min (i + batch_size) n))).
    rewrite <- Hi. rewrite batches_concat by exact Hbs.
    apply py_slice_all. rewrite Hi. lia.
  - apply List.Forall_forall. intros b Hb.
    apply in_map_iff in Hb as (k & <- & Hk). apply in_seq in Hk.
    cbn [documents metadatas ids].
    assert (Hlt : Z.of_nat k * batch_size < n).
    { assert (Hk' : Z.of_nat k + 1 <= (n + batch_size - 1) / batch_size)
        by (unfold count in Hk; lia).
      pose proof (Z.mul_div_le (n + batch_size - 1) batch_size ltac:(lia)).
      nia. }
    rewrite !py_slice_len by lia. rewrite Hm, Hi. fold n. lia.
  - unfold py_len. rewrite length_map, length_seq. fold count.
    unfold count. rewrite Z2Nat.id by exact Hcount. reflexivity.
Qed.

Lemma dict_get_without (members : list (pystr * pyval)) (gone key : pystr) :
  dict_get (List.filter (fun kv => negb (str_eqb (fst kv) gone)) members) key
  = if str_eqb key gone then None else dict_get members key.
Proof.
  induction members as [|[k v] members IH].
  - cbn. destruct (str_eqb key gone); reflexivity.
  - cbn [List.filter fst dict_get].
    destruct (str_eqb k gone) eqn:Hk; cbn [negb dict_get].
    + rewrite IH. destruct (str_eqb key gone) eqn:Hkey; [reflexivity|].
      destruct (str_eqb k key) eqn:Hkk; [|reflexivity].
      apply str_eqb_eq in Hk, Hkk. subst.
      rewrite str_eqb_refl in Hkey. discriminate.
    + destruct (str_eqb k key) eqn:Hkk.
      * apply str_eqb_eq in Hkk. subst. rewrite Hk. reflexivity.
      * exact IH.
Qed.

(** The loop over the chunks, from any point of it. *)
Lemma prepare_documents_from (chunks : list pyval) :
  forallb has_text chunks = true ->
  forall (k : nat) (acc : add_args),
    exists texts metas,
      prepare_documents (enumerate_from (Z.of_nat k) chunks) acc
      = Ok {| documents := documents acc ++ texts;
              metadatas := metadatas acc ++ metas;
              ids := ids acc
                     ++ map (fun i => str "chunk_" ++ str_of_int (Z.of_nat i))
                          (seq k (length chunks)) |} /\
      Forall2 (fun chunk text => py_getitem chunk "text" = Ok text)
        chunks texts /\
      Forall2 metadata_of chunks metas.
Proof.
  induction chunks as [|chunk chunks IH]; intros Htext k acc.
  - exists [], []. cbn. rewrite !app_nil_r. destruct acc.
    repeat split; constructor.
  - cbn [forallb] in Htext. apply andb_true_iff in Htext as [Hchunk Hrest].
    unfold has_text in Hchunk.
    destruct (py_getitem chunk "text") as [text|] eqn:Hget;
      [|discriminate].
    cbn [enumerate_from prepare_documents]. rewrite Hget. cbn [bind].
    destruct chunk as [ | | | | | |members]; try discriminate Hget.
    cbn [py_items bind].
    replace (Z.of_nat k + 1) with (Z.of_nat (S k)) by lia.
    destruct (IH Hrest (S k)
                {| documents := documents acc ++ [text];
                   metadatas := metadatas acc
                     ++ [List.filter
                           (fun kv => negb (str_eqb (fst kv) (str "text")))
                           members];
                   ids := ids acc
                          ++ [str "chunk_" ++ str_of_int (Z.of_nat k)] |})
      as (texts & metas & Hrun & Htexts & Hmetas).
    eexists (text :: texts), (_ :: metas).
    rewrite Hrun. cbn [documents metadatas ids length seq map].
    rewrite <- !app_assoc. split; [reflexivity|].
    split; constructor; try assumption.
    intros key. apply dict_get_without.
Qed.

Lemma forall2_length {A B : Type} (R : A -> B -> Prop) (l : list A)
    (l' : list B) :
  Forall2 R l l' -> length l = length l'.
Proof. induction 1; simpl; congruence. Qed.

(** The whole loop, from the empty lists. *)
Lemma prepare_documents_whole (chunks : list pyval) :
  forallb has_text chunks = true ->
  exists all,
    prepare_documents (enumerate_from 0 chunks) (AddArgs [] [] []) = Ok all /\
    Forall2 (fun chunk text => py_getitem chunk "text" = Ok text)
      chunks (documents all) /\
    Forall2 metadata_of chunks (metadatas all) /\
    ids all = map (fun i => str "chunk_" ++ str_of_int (Z.of_nat i))
                (seq 0 (length chunks)).
Proof.
  intros Htext.
  destruct (prepare_documents_from chunks Htext 0 (AddArgs [] [] []))
    as (texts & metas & Hrun & Htexts & Hmetas).
  eexists. split; [exact Hrun|]. cbn [documents metadatas ids app].
  repeat split; assumption.
Qed.

(** X17.  When every chunk is an object with a text, the builder gives
    the store one text, one metadata and one id per chunk, in the order
    of the chunks: the chunk's text, its other items (the metadata never
    holds the text), and the id [chunk_<i>] of its position; the ids
    differ from one another. *)
Theorem prepare_documents_aligned (chunks : list pyval) :
  forallb has_text chunks = true ->
  exists all,
    prepare_documents (enumerate_from 0 chunks) (AddArgs [] [] []) = Ok all /\
    Forall2 (fun chunk text => py_getitem chunk "text" = Ok text)
      chunks (documents all) /\
    Forall2 metadata_of chunks (metadatas all) /\
    ids all = map (fun i => str "chunk_" ++ str_of_int (Z.of_nat i))
                (seq 0 (length chunks)) /\
    List.NoDup (ids all).
Proof.
  intros Htext.
  destruct (prepare_documents_whole chunks Htext)
    as (all & Hrun & Htexts & Hmetas & Hids).
  exists all. repeat split; try assumption.
  rewrite Hids.
  apply List.NoDup_map_NoDup_ForallPairs; [|apply seq_NoDup].
  intros i j _ _ Heq. apply app_inv_head, str_of_int_inj in Heq. lia.
Qed.

Lemma prepare_documents_aligned_witness :
  exists all,
    prepare_documents
      (enumerate_from 0
         [PDict [(str "chunk_id", PStr (str "c1_basic"));
                 (str "text", PStr (str "Component: Button"))];
          PDict [(str "text", PStr (str "Button component props:"));
                 (str "chunk_type", PStr (str "props"))]])
      (AddArgs [] [] []) = Ok all /\
    Forall2 (fun chunk text => py_getitem chunk "text" = Ok text)
      [PDict [(str "chunk_id", PStr (str "c1_basic"));
              (str "text", PStr (str "Component: Button"))];
       PDict [(str "text", PStr (str "Button component props:"));
              (str "chunk_type", PStr (str "props"))]]
      (documents all) /\
    Forall2 metadata_of
      [PDict [(str "chunk_id", PStr (str "c1_basic"));
              (str "text", PStr (str "Component: Button"))];
       PDict [(str "text", PStr (str "Button component props:"));
              (str "chunk_type", PStr (str "props"))]]
      (metadatas all) /\
    ids all = map (fun i => str "chunk_" ++ str_of_int (Z.of_nat i))
                (seq 0 2) /\
    List.NoDup (ids all).
Proof.
  apply (prepare_documents_aligned
           [PDict [(str "chunk_id", PStr (str "c1_basic"));
                   (str "text", PStr (str "Component: Button"))];
            PDict [(str "text", PStr (str "Button component props:"));
                   (str "chunk_type", PStr (str "props"))]]).
  reflexivity.
Defined.

(** X18.  With a batch size of at least one, and every chunk an object
    with a text, [build_index] hands the store every text, metadata and
    id exactly once and in order: the batches put end to end are the
    three lists; every batch holds between one and [batch_size] entries,
    the same number of texts, metadatas and ids; and there are
    [(n + batch_size - 1) // batch_size] batches, the number printed. *)
Theorem build_index_batches (chunks : list pyval) (batch_size : Z) :
  1 <= batch_size -> forallb has_text chunks = true ->
  exists all batches,
    prepare_documents (enumerate_from 0 chunks) (AddArgs [] [] []) = Ok all /\
    build_index chunks batch_size = Ok batches /\
    concat (map documents batches) = documents all /\
    concat (map metadatas batches) = metadatas all /\
    concat (map ids batches) = ids all /\
    Forall (fun b => 1 <= py_len (documents b) <= batch_size /\
                     py_len (metadatas b) = py_len (documents b) /\
                     py_len (ids b) = py_len (documents b)) batches /\
    py_len batches = (py_len chunks + batch_size - 1) / batch_size.
Proof.
  intros Hbs Htext.
  destruct (prepare_documents_whole chunks Htext)
    as (all & Hrun & Htexts & Hmetas & Hids).
  apply forall2_length in Htexts, Hmetas.
  assert (Hi : length (ids all) = length chunks)
    by (rewrite Hids, length_map, length_seq; reflexivity).
  destruct (add_batches_partition all batch_size Hbs)
    as (batches & Hadd & Hd & Hm & Hids' & Hsizes & Hcount);
    [unfold py_len; lia|unfold py_len; lia|].
  exists all, batches. unfold build_index. rewrite Hrun. cbn [bind].
  repeat split; try assumption.
  rewrite Hcount. unfold py_len. rewrite Htexts. reflexivity.
Qed.

Lemma build_index_batches_witness :
  exists all batches,
    prepare_documents
      (enumerate_from 0
         [PDict [(str "text", PStr (str "a"))];
          PDict [(str "text", PStr (str "b"))];
          PDict [(str "text", PStr (str "c"))]])
      (AddArgs [] [] []) = Ok all /\
    build_index
      [PDict [(str "text", PStr (str "a"))];
       PDict [(str "text", PStr (str "b"))];
       PDict [(str "text", PStr (str "c"))]] 2 = Ok batches /\
    concat (map documents batches) = documents all /\
    concat (map metadatas batches) = metadatas all /\
    concat (map ids batches) = ids all /\
    Forall (fun b => 1 <= py_len (documents b) <= 2 /\
                     py_len (metadatas b) = py_len (documents b) /\
                     py_len (ids b) = py_len (documents b)) batches /\
    py_len batches
    = (py_len [PDict [(str "text", PStr (str "a"))];
               PDict [(str "text", PStr (str "b"))];
               PDict [(str "text", PStr (str "c"))]] + 2 - 1) / 2.
Proof.
  apply (build_index_batches
           [PDict [(str "text", PStr (str "a"))];
            PDict [(str "text", PStr (str "b"))];
            PDict [(str "text", PStr (str "c"))]] 2); [lia|reflexivity].
Defined.

Example build_index_three_by_two :
  build_index
    [PDict [(str "text", PStr (str "a"))];
     PDict [(str "text", PStr (str "b"))];
     PDict [(str "text", PStr (str "c"))]] 2
  = Ok [ AddArgs [PStr (str "a"); PStr (str "b")] [[]; []]
                 [str "chunk_0"; str "chunk_1"];
         AddArgs [PStr (str "c")] [[]] [str "chunk_2"] ].
Proof. vm_compute. reflexivity. Qed.

(** X19.  What [build_index] does with a batch size that is not
    positive, and with a chunk that has no text.  A batch size of zero
    raises [ValueError] (from [range]); a negative one makes no call of
    [collection.add] at all, so the index stays empty and nothing is
    raised; a chunk without a text raises before any call. *)
Theorem build_index_edge_cases (chunks : list pyval) (batch_size : Z) :
  (forallb has_text chunks = true -> batch_size = 0 ->
   build_index chunks batch_size = Raise ValueError) /\
  (forallb has_text chunks = true -> batch_size < 0 ->
   build_index chunks batch_size = Ok []) /\
  (forallb has_text chunks = false ->
   exists e, build_index chunks batch_size = Raise e).
Proof.
  unfold build_index. split; [|split].
  - intros Htext ->.
    destruct (prepare_documents_whole chunks Htext) as (all & -> & _).
    reflexivity.
  - intros Htext Hneg.
    destruct (prepare_documents_whole chunks Htext) as (all & -> & _).
    cbn [bind]. unfold add_batches, py_range.
    destruct (Z.eqb_spec batch_size 0); [lia|].
    destruct (Z.ltb_spec 0 batch_size); [lia|].
    assert (Hcount : (0 - py_len (documents all) - batch_size - 1)
                     / - batch_size <= 0).
    { assert (HL : 0 <= py_len (documents all)) by (unfold py_len; lia).
      apply Z.lt_succ_r. apply Z.div_lt_upper_bound; lia. }
    replace (Z.to_nat ((0 - py_len (documents all) - batch_size - 1)
                       / - batch_size)) with O by lia.
    reflexivity.
  - intros Htext.
    assert (Hprep : forall items acc,
              forallb (fun ic => has_text (snd ic)) items = false ->
              exists e, prepare_documents items acc = Raise e).
    { induction items as [|[i chunk] items IH]; intros acc Hbad;
        [discriminate|].
      cbn [forallb snd] in Hbad. cbn [prepare_documents].
      unfold has_text in Hbad.
      destruct (py_getitem chunk "text") as [text|e] eqn:Hget;
        [|exists e; reflexivity].
      cbn [bind andb] in *.
      destruct chunk as [ | | | | | |members]; try discriminate Hget.
      cbn [py_items bind]. apply IH, Hbad. }
    destruct (Hprep (enumerate_from 0 chunks) (AddArgs [] [] []))
      as [e ->]; [|exists e; reflexivity].
    clear Hprep. revert Htext. generalize 0.
    induction chunks as [|chunk chunks IH]; intros k Hbad; [discriminate|].
    cbn [enumerate_from forallb snd] in *.
    destruct (has_text chunk); [|reflexivity].
    cbn [andb] in *. apply IH, Hbad.
Qed.

(* ===================================================================== *)
(** * Proofs: paths and lines                                             *)
(* ===================================================================== *)

Lemma split_on_nonempty (sep : ascii) (s cur : pystr) :
  split_on sep s cur <> [].
Proof.
  revert cur. induction s as [|c s IH]; intros cur; cbn [split_on];
    [discriminate|].
  destruct (Ascii.eqb c sep); [discriminate|apply IH].
Qed.

(** Joining what [split] returned gives the text back. *)
Lemma join_split_on (sep : ascii) (s cur : pystr) :
  py_join [sep] (split_on sep s cur) = cur ++ s.
Proof.
  revert cur. induction s as [|c s IH]; intros cur; cbn [split_on].
  - cbn. rewrite app_nil_r. reflexivity.
  - destruct (Ascii.eqb_spec c sep) as [->|Hne].
    + pose proof (split_on_nonempty sep s []) as Hne.
      specialize (IH []).
      destruct (split_on sep s []) as [|p ps]; [congruence|].
      change (py_join [sep] (cur :: p :: ps))
        with (cur ++ [sep] ++ py_join [sep] (p :: ps)).
      rewrite IH. reflexivity.
    + rewrite IH, <- app_assoc. reflexivity.
Qed.

(** The pieces [split] returns do not hold the separator. *)
Lemma split_on_clean (sep : ascii) (s cur : pystr) :
  Forall (fun c => c <> sep) cur ->
  Forall (Forall (fun c => c <> sep)) (split_on sep s cur).
Proof.
  revert cur. induction s as [|c s IH]; intros cur Hcur; cbn [split_on].
  - constructor; [exact Hcur|constructor].
  - destruct (Ascii.eqb_spec c sep) as [->|Hne].
    + constructor; [exact Hcur|apply IH; constructor].
    + apply IH. apply Forall_app. split; [exact Hcur|].
      constructor; [exact Hne|constructor].
Qed.

Lemma split_on_piece (sep : ascii) (p t cur : pystr) :
  Forall (fun c => c <> sep) p ->
  split_on sep (p ++ t) cur = split_on sep t (cur ++ p).
Proof.
  intros Hp. revert cur. induction Hp as [|c p Hc Hp IH]; intros cur.
  - rewrite app_nil_r. reflexivity.
  - cbn [app split_on]. destruct (Ascii.eqb_spec c sep); [contradiction|].
    rewrite IH, <- app_assoc. reflexivity.
Qed.

(** Splitting what was joined gives the pieces back. *)
Lemma split_join (sep : ascii) (parts : list pystr) :
  parts <> [] -> Forall (Forall (fun c => c <> sep)) parts ->
  py_split sep (py_join [sep] parts) = parts.
Proof.
  unfold py_split. intros Hne Hparts.
  induction Hparts as [|p parts Hp Hparts IH]; [congruence|].
  destruct parts as [|q parts].
  - cbn [py_join]. rewrite <- (app_nil_r p) at 1.
    rewrite split_on_piece by exact Hp. reflexivity.
  - change (py_join [sep] (p :: q :: parts))
      with (p ++ [sep] ++ py_join [sep] (q :: parts)).
    rewrite split_on_piece by exact Hp.
    cbn [app split_on]. rewrite Ascii.eqb_refl.
    rewrite IH by discriminate. reflexivity.
Qed.

Lemma py_join_app (sep : pystr) (a b : list pystr) :
  a <> [] -> b <> [] ->
  py_join sep (a ++ b) = py_join sep a ++ sep ++ py_join sep b.
Proof.
  intros Ha Hb. induction a as [|x a IH]; [congruence|].
  destruct a as [|y a].
  - destruct b; [congruence|reflexivity].
  - change (py_join sep ((x :: y :: a) ++ b))
      with (x ++ sep ++ py_join sep ((y :: a) ++ b)).
    rewrite IH by discriminate.
    change (py_join sep (x :: y :: a)) with (x ++ sep ++ py_join sep (y :: a)).
    rewrite <- !app_assoc. reflexivity.
Qed.

(** X20.  The location hint of a file path is the path itself when it has
    at most three segments, and its last three segments otherwise: in
    both cases an end of the path, cut at a slash. *)
Theorem relevant_path_last_segments (file_path : pystr) :
  let parts := py_split "/"%char file_path in
  py_split "/"%char (relevant_path file_path)
  = (if 3 <? py_len parts then skipn (length parts - 3) parts else parts) /\
  exists front, file_path = front ++ relevant_path file_path.
Proof.
  cbv zeta. unfold relevant_path.
  set (parts := py_split "/"%char file_path).
  assert (Hjoin : py_join (str "/") parts = file_path)
    by (apply (join_split_on "/"%char file_path [])).
  assert (Hclean : Forall (Forall (fun c => c <> "/"%char)) parts)
    by (apply split_on_clean; constructor).
  destruct (Z.ltb_spec 3 (py_len parts)) as [Hlong|Hshort].
  2:{ split; [reflexivity|]. exists []. reflexivity. }
  assert (Hlast : py_slice parts (-3) (py_len parts)
                  = skipn (length parts - 3) parts).
  { unfold py_slice, slice_bound. cbn [Z.ltb Z.compare].
    destruct (Z.ltb_spec (py_len parts) 0);
      [unfold py_len in *; lia|].
    rewrite Z.min_id, Z.max_r by lia.
    replace (Z.to_nat (-3 + py_len parts)) with (length parts - 3)%nat
      by (unfold py_len in *; lia).
    apply firstn_all2. rewrite length_skipn. unfold py_len in *. lia. }
  rewrite Hlast.
  assert (Hthree : length (skipn (length parts - 3) parts) = 3%nat)
    by (rewrite length_skipn; unfold py_len in *; lia).
  assert (Hne : skipn (length parts - 3) parts <> [])
    by (intros Hnil; rewrite Hnil in Hthree; discriminate).
  assert (Hsplit : py_split "/"%char
                     (py_join (str "/") (skipn (length parts - 3) parts))
                   = skipn (length parts - 3) parts).
  { apply split_join; [exact Hne|].
    rewrite <- (firstn_skipn (length parts - 3) parts) in Hclean.
    apply Forall_app in Hclean. apply Hclean. }
  split; [exact Hsplit|].
  assert (Hfront : firstn (length parts - 3) parts <> []).
  { intros Hnil. apply (f_equal (@length pystr)) in Hnil.
    rewrite length_firstn in Hnil. unfold py_len in *. simpl in Hnil. lia. }
  pose proof (py_join_app (str "/") _ _ Hfront Hne) as Happ.
  rewrite firstn_skipn, Hjoin in Happ.
  exists (py_join (str "/") (firstn (length parts - 3) parts) ++ str "/").
  rewrite <- app_assoc. exact Happ.
Qed.

Example relevant_path_example :
  relevant_path (str "/home/dev/app/src/components/Button.tsx")
  = str "src/components/Button.tsx".
Proof. vm_compute. reflexivity. Qed.

(* ===================================================================== *)
(** * Proofs: the shape of cleaned text                                   *)
(* ===================================================================== *)

Lemma single_spaced_spaces_only (s : pystr) :
  single_spaced s = true -> spaces_only s.
Proof.
  induction s as [|c s IH]; [constructor|]. cbn [single_spaced].
  destruct (isspace c) eqn:Hc; intros Hs.
  - apply andb_true_iff in Hs as [Hs Hrest].
    apply andb_true_iff in Hs as [Hs _].
    apply andb_true_iff in Hs as [Heq _].
    apply Ascii.eqb_eq in Heq.
    constructor; [intros _; exact Heq|apply IH, Hrest].
  - constructor; [rewrite Hc; discriminate|apply IH, Hs].
Qed.

(** [re.sub] puts nothing into a text but the replacement. *)
Lemma sub_from_Forall (P : ascii -> Prop) (r : regex) (repl : pystr) :
  Forall P repl ->
  forall s skip, Forall P s -> Forall P (sub_from r repl s skip).
Proof.
  intros Hrepl. induction s as [|c s IH]; intros skip Hs.
  - destruct skip; cbn [sub_from]; [|constructor].
    destruct (match_at r []); [exact Hrepl|constructor].
  - inversion Hs as [|? ? Hc Hs']; subst.
    destruct skip as [|n]; cbn [sub_from]; [|apply IH, Hs'].
    destruct (match_at r (c :: s)) as [rest|].
    + destruct (length (c :: s) - length rest)%nat.
      * apply Forall_app. split; [exact Hrepl|].
        constructor; [exact Hc|apply IH, Hs'].
      * apply Forall_app. split; [exact Hrepl|apply IH, Hs'].
    + constructor; [exact Hc|apply IH, Hs'].
Qed.

Lemma lstrip_Forall (P : ascii -> Prop) (s : pystr) :
  Forall P s -> Forall P (lstrip s).
Proof.
  induction 1 as [|c s Hc Hs IH]; [constructor|]. cbn [lstrip].
  destruct (isspace c); [exact IH|constructor; assumption].
Qed.

Lemma strip_Forall (P : ascii -> Prop) (s : pystr) :
  Forall P s -> Forall P (strip s).
Proof.
  intros Hs. unfold strip, rstrip.
  apply List.Forall_rev, lstrip_Forall, List.Forall_rev, lstrip_Forall, Hs.
Qed.

(** X21.  Whatever [clean_text] returns is trimmed, and the only
    whitespace in it is the plain space: no line break, no tab. *)
Theorem clean_text_output_shape (text : pyval) (out : pystr) :
  clean_text text = Ok out ->
  head_clean out = true /\ tail_clean out = true /\ spaces_only out.
Proof.
  unfold clean_text.
  destruct (py_truthy text);
    [|intros [= <-]; repeat split; constructor].
  cbn [negb]. destruct text as [ | | | |s| | ]; try discriminate.
  intros [= <-]. unfold clean_str.
  destruct (strip_clean (remove_artifacts (collapse_whitespace s)))
    as [Hh Ht].
  split; [exact Hh|]. split; [exact Ht|].
  apply strip_Forall. unfold remove_artifacts, re_sub.
  do 4 (apply sub_from_Forall; [constructor|]).
  apply single_spaced_spaces_only. unfold collapse_whitespace.
  apply (collapse_single_spaced _ (strip s) (Nat.le_refl _)).
  apply strip_clean.
Qed.

Lemma clean_text_output_shape_witness :
  clean_text (PStr (str "import x from 'y';" ++ ["010"; "009"]%char
                     ++ str "const  a : React.FC = b ")) = Ok (str "const a  = b") /\
  head_clean (str "const a  = b") = true /\
  tail_clean (str "const a  = b") = true /\
  spaces_only (str "const a  = b").
Proof.
  assert (Hrun : clean_text (PStr (str "import x from 'y';" ++ ["010"; "009"]%char
                     ++ str "const  a : React.FC = b ")) = Ok (str "const a  = b"))
    by (vm_compute; reflexivity).
  split; [exact Hrun|].
  exact (clean_text_output_shape _ _ Hrun).
Defined.

(** X22.  The code [clean_code_for_search] returns is one line in normal
    form: trimmed, every whitespace a single plain space between two
    characters that are none.  A text all of whose lines are blank, an
    import, an export or a [//] comment gives the empty string. *)
Theorem clean_code_for_search_normal (code : pystr) :
  let out := clean_code_for_search code in
  head_clean out = true /\ tail_clean out = true /\
  single_spaced out = true /\ spaces_only out /\
  (Forall (fun line => keep_line (strip line) = false)
     (py_split "010"%char code) -> out = []).
Proof.
  cbv zeta. unfold clean_code_for_search.
  set (lines := List.filter keep_line
                  (map strip (py_split "010"%char code))).
  assert (Hlines : Forall clean_statement lines).
  { apply List.Forall_forall. intros line Hline.
    apply filter_In in Hline as [Hin Hkeep].
    apply in_map_iff in Hin as (raw & <- & _).
    apply strip_clean_statement. unfold keep_line in Hkeep.
    apply andb_true_iff in Hkeep as [Hkeep _].
    apply andb_true_iff in Hkeep as [Hkeep _]. exact Hkeep. }
  assert (Htail : tail_clean (py_join (str " ") lines) = true).
  { destruct lines as [|l ls]; [reflexivity|].
    apply (py_join_clean (l :: ls)); [discriminate|exact Hlines]. }
  assert (Hhead : head_clean (py_join (str " ") lines) = true).
  { destruct lines as [|l ls]; [reflexivity|].
    apply (py_join_clean (l :: ls)); [discriminate|exact Hlines]. }
  pose proof (collapse_single_spaced _ _ (Nat.le_refl _) Htail) as Hs.
  destruct (collapse_head (py_join (str " ") lines)) as [Hh _].
  rewrite Hhead in Hh.
  rewrite strip_fixed by (exact Hh || apply single_spaced_tail_clean, Hs).
  split; [exact Hh|]. split; [apply single_spaced_tail_clean, Hs|].
  split; [exact Hs|]. split; [apply single_spaced_spaces_only, Hs|].
  intros Hdrop.
  assert (Hnil : lines = []).
  { unfold lines. clear - Hdrop.
    induction Hdrop as [|line rest Hline Hrest IH]; [reflexivity|].
    cbn [map List.filter]. rewrite Hline. exact IH. }
  rewrite Hnil. reflexivity.
Qed.

(** The cleaning is not idempotent: two lines can join into an import. *)
Example clean_code_for_search_twice :
  clean_code_for_search (str "import" ++ ["010"%char] ++ str "y")
  = str "import y" /\
  clean_code_for_search (str "import y") = [].
Proof. split; vm_compute; reflexivity. Qed.

(* ===================================================================== *)
(** * Proofs: what the streaming processor can write                      *)
(* ===================================================================== *)

(** X23.  Because the chunker's loop never ends on a text that holds a
    character, no run of [minimal_ingest] writes a fragment: whatever the
    collection, a call that completes reports 0 chunks and leaves the
    empty array, header and footer, in the output file. *)
Theorem minimal_ingest_writes_empty_array
    (py_repr : pyval -> pystr) (json_dump : pyval -> pystr * option exn)
    (args : call) (before : filesystem) (events : list event) (s : state)
    (idx : Z) :
  run py_repr json_dump args events (State before Called) = Some s ->
  control s = Completed idx ->
  idx = 0 /\
  files s !! output_chunks_path args = Some (header ++ footer).
Proof.
  intros Hrun Hdone.
  pose proof (run_empty_body py_repr json_dump args events
                (State before Called) s I Hrun) as Hinv.
  unfold empty_body in Hinv. rewrite Hdone in Hinv. tauto.
Qed.

Lemma minimal_ingest_writes_empty_array_witness :
  option_map control
    (run no_repr no_dump example_call example_events
       (State example_files Called)) = Some (Completed 0) /\
  exists s,
    run no_repr no_dump example_call example_events
      (State example_files Called) = Some s /\
    0 = 0 /\
    files s !! output_chunks_path example_call = Some (header ++ footer).
Proof.
  assert (Hdone : option_map control
                    (run no_repr no_dump example_call example_events
                       (State example_files Called)) = Some (Completed 0))
    by (vm_compute; reflexivity).
  split; [exact Hdone|].
  destruct (run no_repr no_dump example_call example_events
              (State example_files Called)) as [s|] eqn:Hrun;
    [|discriminate Hdone].
  exists s. split; [reflexivity|].
  injection Hdone as Hdone.
  exact (minimal_ingest_writes_empty_array no_repr no_dump example_call
           example_files example_events s 0 Hrun Hdone).
Defined.

(* ===================================================================== *)
(** * Proofs: the props fragment                                          *)
(* ===================================================================== *)

Lemma format_props_lines_no_descriptor (py_repr : pyval -> pystr)
    (props : list (pystr * pyval)) :
  Forall (fun kv => is_dict (snd kv) = false) props ->
  format_props_lines py_repr props = Ok [].
Proof.
  induction 1 as [|[prop_name prop_info] props Hinfo Hprops IH];
    [reflexivity|].
  cbn [format_props_lines].
  destruct prop_info as [ | | | | | |members]; try exact IH.
  discriminate Hinfo.
Qed.

(** X24.  Props none of whose descriptors is an object still make a props
    fragment: its text is the heading alone, with no property in it. *)
Theorem extract_component_chunks_bare_props (py_repr : pyval -> pystr)
    (doc props : list (pystr * pyval)) (chunks : list chunk) :
  dict_get doc (str "props") = Some (PDict props) ->
  props <> [] ->
  Forall (fun kv => is_dict (snd kv) = false) props ->
  extract_component_chunks py_repr doc = Ok chunks ->
  exists props_chunk,
    In props_chunk chunks /\
    ck_chunk_type props_chunk = Props /\
    ck_text props_chunk
    = py_str py_repr (py_get doc "name" (PStr (str "Unknown")))
      ++ str " component props:".
Proof.
  intros Hprops Hne Hbare. unfold extract_component_chunks.
  assert (Hget : py_get doc "props" PNone = PDict props)
    by (unfold py_get; rewrite Hprops; reflexivity).
  rewrite Hget.
  assert (Htruthy : truthy props = true)
    by (destruct props; [congruence|reflexivity]).
  rewrite Htruthy. unfold format_props_info. rewrite Htruthy.
  cbn [negb]. rewrite format_props_lines_no_descriptor by exact Hbare.
  cbn [bind py_join].
  assert (Hheading : truthy (py_str py_repr
                               (py_get doc "name" (PStr (str "Unknown")))
                             ++ str " component props:") = true)
    by (destruct (py_str py_repr _); reflexivity).
  rewrite Hheading. intros Hrun.
  repeat match type of Hrun with
         | bind ?r _ = _ =>
             destruct r; cbn [bind] in Hrun; [|discriminate Hrun]
         end.
  injection Hrun as <-. cbn [app].
  eexists. split; [right; left; reflexivity|]. split; reflexivity.
Qed.

Lemma extract_component_chunks_bare_props_witness :
  exists props_chunk,
    In props_chunk
      [ {| ck_chunk_id := str "_basic";
           ck_component_id := PStr [];
           ck_component_name := PStr (str "Button");
           ck_file := PStr [];
           ck_chunk_type := BasicInfo;
           ck_text := str "Component: Button" |};
        {| ck_chunk_id := str "_props";
           ck_component_id := PStr [];
           ck_component_name := PStr (str "Button");
           ck_file := PStr [];
           ck_chunk_type := Props;
           ck_text := str "Button component props:" |} ] /\
    ck_chunk_type props_chunk = Props /\
    ck_text props_chunk
    = py_str no_repr
        (py_get [(str "name", PStr (str "Button"));
                 (str "props", PDict [(str "onClick", PStr (str "func"))])]
           "name" (PStr (str "Unknown")))
      ++ str " component props:".
Proof.
  apply (extract_component_chunks_bare_props no_repr
           [(str "name", PStr (str "Button"));
            (str "props", PDict [(str "onClick", PStr (str "func"))])]
           [(str "onClick", PStr (str "func"))]);
    [reflexivity|discriminate|repeat constructor|].
  vm_compute. reflexivity.
Defined.
